(** * 2D-GO: the simulation step of [main.go], embedded in Rocq

    The development follows [src/main.go]:
    - [float64] values are the kernel's binary64 floats ([PrimFloat.float]),
      with the IEEE operations of [Floats] (round to nearest even, no fused
      multiply-add);
    - [int] values are [Z] with the 64-bit wrap-around written out ([Go.wrap]);
    - the map [scores.HighScores] is a [gmap string Z], or nothing for Go's
      nil map;
    - entities held through pointers ([*Player], [[]*Bullet], ...) are values:
      every pointer sits in exactly one slice, so in-place updates are list
      rewrites;
    - package-level state ([scores], the [math/rand] source, the score file)
      is the record [World], threaded through the functions that touch it;
    - a panic is an entry in the world's trace of panics, and the function
      that raised it returns the game as it was at that point. *)

From Stdlib Require Import ZArith Lia List Bool.
From Stdlib Require Import Floats.
From stdpp Require Import gmap strings sorting.

Open Scope Z_scope.

(** ** Go's [int] and [float64] *)

Module Go.

(** Two's-complement reduction to 64 bits. *)
Definition wrap (z : Z) : Z := (z + 2 ^ 63) mod 2 ^ 64 - 2 ^ 63.

Definition add (a b : Z) : Z := wrap (a + b).
Definition sub (a b : Z) : Z := wrap (a - b).

(** [/] and [%] on [int] truncate toward zero. *)
Definition quo (a b : Z) : Z := wrap (Z.quot a b).
Definition rem (a b : Z) : Z := Z.rem a b.

(** The conversion [float64(n)] of an [int]: the nearest binary64. *)
Definition float64 (n : Z) : float :=
  SF2Prim (binary_normalize prec emax n 0 false).

End Go.

(** ** Predicates on binary64 values *)

Module F64.

(** A float that is not NaN. *)
Definition isNumber (x : float) : bool := negb (PrimFloat.is_nan x).

(** A float that is neither NaN nor an infinity nor a zero. *)
Definition SFfinite (x : spec_float) : Prop :=
  match x with S754_finite _ _ _ => True | _ => False end.

(** What rounding a non-negative mantissa with sign [s] can give. *)
Inductive rounded (s : bool) : spec_float -> Prop :=
| rounded_zero : rounded s (S754_zero s)
| rounded_finite m e : rounded s (S754_finite s m e)
| rounded_infinity : rounded s (S754_infinity s).

(** A float whose sign bit is clear, or NaN. *)
Definition SFnonneg (x : spec_float) : Prop :=
  match x with
  | S754_nan => True
  | S754_zero s | S754_infinity s | S754_finite s _ _ => s = false
  end.

End F64.

(** ** Constants and globals *)

Definition screenWidth : Z := 640.
Definition screenHeight : Z := 480.

(** [HighScores] is a Go map: [None] is the nil map, which reads as an
    empty map and cannot be written to. *)
Record ScoreData := { HighScores : option (gmap string Z) }.

(** The entries a read of the table finds. *)
Definition entries (s : ScoreData) : gmap string Z :=
  default ∅ (HighScores s).

(** The package-level state of the process and the part of its environment
    the code reads or writes:
    - [scores] is the global of that name;
    - [scoreFile] is the content of [scores.json] ([None] when [os.Open]
      fails) and [createOk] tells whether [os.Create] succeeds on it;
    - [saveLog] is a trace: the value of [scores] at each call of
      [saveScores], oldest first;
    - [jsonEncode] and [jsonDecode] are [encoding/json] on [ScoreData]:
      the bytes [Encode] writes, and the target as [Decode] leaves it
      together with whether it returned an error;
    - [randSrc] and [randPos] are the [math/rand] source and the number of
      draws made so far;
    - [bgImage] is the height of the decoded background tile ([None] for a
      nil image);
    - [panics] is a trace: the panics raised so far, oldest first.  The
      process ends at the first, so in a run of the program no call
      follows one that has added to it. *)
Record World := {
  scores : ScoreData;
  scoreFile : option string;
  createOk : bool;
  saveLog : list ScoreData;
  jsonEncode : ScoreData -> string;
  jsonDecode : string -> ScoreData -> ScoreData * bool;
  randSrc : nat -> Z;
  randPos : nat;
  bgImage : option Z;
  panics : list string
}.

Definition set_scores (v : ScoreData) (x : World) : World :=
  {| scores := v; scoreFile := scoreFile x; createOk := createOk x;
     saveLog := saveLog x; jsonEncode := jsonEncode x;
     jsonDecode := jsonDecode x; randSrc := randSrc x; randPos := randPos x;
     bgImage := bgImage x; panics := panics x |}.

Definition set_scoreFile (v : option string) (x : World) : World :=
  {| scores := scores x; scoreFile := v; createOk := createOk x;
     saveLog := saveLog x; jsonEncode := jsonEncode x;
     jsonDecode := jsonDecode x; randSrc := randSrc x; randPos := randPos x;
     bgImage := bgImage x; panics := panics x |}.

Definition set_saveLog (v : list ScoreData) (x : World) : World :=
  {| scores := scores x; scoreFile := scoreFile x; createOk := createOk x;
     saveLog := v; jsonEncode := jsonEncode x; jsonDecode := jsonDecode x;
     randSrc := randSrc x; randPos := randPos x; bgImage := bgImage x;
     panics := panics x |}.

Definition set_randPos (v : nat) (x : World) : World :=
  {| scores := scores x; scoreFile := scoreFile x; createOk := createOk x;
     saveLog := saveLog x; jsonEncode := jsonEncode x;
     jsonDecode := jsonDecode x; randSrc := randSrc x; randPos := v;
     bgImage := bgImage x; panics := panics x |}.

Definition set_panics (v : list string) (x : World) : World :=
  {| scores := scores x; scoreFile := scoreFile x; createOk := createOk x;
     saveLog := saveLog x; jsonEncode := jsonEncode x;
     jsonDecode := jsonDecode x; randSrc := randSrc x; randPos := randPos x;
     bgImage := bgImage x; panics := v |}.

(** ** A state monad over [World] *)

Definition M (A : Type) : Type := World -> A * World.

Definition ret {A} (a : A) : M A := fun w => (a, w).

Definition bind {A B} (m : M A) (k : A -> M B) : M B :=
  fun w => let (a, w') := m w in k a w'.

Notation "x <- m ;; k" := (bind m (fun x => k))
  (at level 100, m at next level, right associativity).

(** [panic(msg)], as far as the world sees it. *)
Definition panic (msg : string) (w : World) : World :=
  set_panics (panics w ++ [msg]) w.

(** [rand.Intn(n)]: a value in [[0, n)] drawn from the source. *)
Definition Intn (n : Z) : M Z := fun w =>
  (randSrc w (randPos w) mod n, set_randPos (S (randPos w)) w).

(** ** Structs and constructors *)

Module viewport.
Record t := { x16 : Z; y16 : Z }.

(** The tile of the embedded asset has a positive height, so the
    remainder below is defined. *)
Definition Move (p : t) : M t := fun w =>
  match bgImage w with
  | None => (p, w)
  | Some sY =>
      let maxY16 := Go.wrap (sY * 16) in
      let y := Go.add (y16 p) (Go.quo sY 32) in
      ({| x16 := x16 p; y16 := Go.rem y maxY16 |}, w)
  end.

Definition Position (p : t) : Z * Z := (x16 p, y16 p).
End viewport.

Module Player.
Record t := { X : float; Y : float; Size : float }.
End Player.

Definition NewPlayer (x y : float) : Player.t :=
  {| Player.X := x; Player.Y := y; Player.Size := 32 |}.

Module Bullet.
Record t := { X : float; Y : float; SpeedY : float; Size : float }.
End Bullet.

Module Enemy.
Record t := {
  X : float; Y : float; Size : float; SpeedY : float;
  Cooldown : Z; Dead : bool
}.
End Enemy.

Module EnemyBullet.
Record t := {
  X : float; Y : float; SpeedX : float; SpeedY : float; Size : float
}.
End EnemyBullet.

(** The keys [Update] asks about while playing; every other [ebiten.Key]
    is [KeyOther] with its code. *)
Inductive Key :=
| KeyA | KeyD | KeyS | KeyW
| KeyArrowDown | KeyArrowLeft | KeyArrowRight | KeyArrowUp
| KeyOther (code : Z).

#[global] Instance Key_eq_dec : EqDecision Key.
Proof. solve_decision. Defined.

Module Game.
Record t := {
  keys : list Key;
  viewport : viewport.t;
  player : option Player.t;
  bullets : list Bullet.t;
  enemies : list Enemy.t;
  enemyBullets : list EnemyBullet.t;
  spawnCounter : Z;
  spawnInterval : Z;
  elapsedFrames : Z;
  gameState : string;
  score : Z;
  deathScore : Z;
  username : string;
  usernameInput : string;
  lastGameState : string;
  dropdownOpen : bool;
  selectedScreen : Z;
  customWidth : Z;
  customHeight : Z;
  customInput : bool;
  customInputStr : string
}.

Definition set_keys (v : list Key) (x : t) : t :=
  {| keys := v; viewport := viewport x; player := player x;
     bullets := bullets x; enemies := enemies x;
     enemyBullets := enemyBullets x; spawnCounter := spawnCounter x;
     spawnInterval := spawnInterval x; elapsedFrames := elapsedFrames x;
     gameState := gameState x; score := score x;
     deathScore := deathScore x; username := username x;
     usernameInput := usernameInput x; lastGameState := lastGameState x;
     dropdownOpen := dropdownOpen x; selectedScreen := selectedScreen x;
     customWidth := customWidth x; customHeight := customHeight x;
     customInput := customInput x; customInputStr := customInputStr x |}.

Definition set_viewport (v : viewport.t) (x : t) : t :=
  {| keys := keys x; viewport := v; player := player x;
     bullets := bullets x; enemies := enemies x;
     enemyBullets := enemyBullets x; spawnCounter := spawnCounter x;
     spawnInterval := spawnInterval x; elapsedFrames := elapsedFrames x;
     gameState := gameState x; score := score x;
     deathScore := deathScore x; username := username x;
     usernameInput := usernameInput x; lastGameState := lastGameState x;
     dropdownOpen := dropdownOpen x; selectedScreen := selectedScreen x;
     customWidth := customWidth x; customHeight := customHeight x;
     customInput := customInput x; customInputStr := customInputStr x |}.

Definition set_player (v : option Player.t) (x : t) : t :=
  {| keys := keys x; viewport := viewport x; player := v;
     bullets := bullets x; enemies := enemies x;
     enemyBullets := enemyBullets x; spawnCounter := spawnCounter x;
     spawnInterval := spawnInterval x; elapsedFrames := elapsedFrames x;
     gameState := gameState x; score := score x;
     deathScore := deathScore x; username := username x;
     usernameInput := usernameInput x; lastGameState := lastGameState x;
     dropdownOpen := dropdownOpen x; selectedScreen := selectedScreen x;
     customWidth := customWidth x; customHeight := customHeight x;
     customInput := customInput x; customInputStr := customInputStr x |}.

Definition set_bullets (v : list Bullet.t) (x : t) : t :=
  {| keys := keys x; viewport := viewport x; player := player x;
     bullets := v; enemies := enemies x; enemyBullets := enemyBullets x;
     spawnCounter := spawnCounter x; spawnInterval := spawnInterval x;
     elapsedFrames := elapsedFrames x; gameState := gameState x;
     score := score x; deathScore := deathScore x; username := username x;
     usernameInput := usernameInput x; lastGameState := lastGameState x;
     dropdownOpen := dropdownOpen x; selectedScreen := selectedScreen x;
     customWidth := customWidth x; customHeight := customHeight x;
     customInput := customInput x; customInputStr := customInputStr x |}.

Definition set_enemies (v : list Enemy.t) (x : t) : t :=
  {| keys := keys x; viewport := viewport x; player := player x;
     bullets := bullets x; enemies := v; enemyBullets := enemyBullets x;
     spawnCounter := spawnCounter x; spawnInterval := spawnInterval x;
     elapsedFrames := elapsedFrames x; gameState := gameState x;
     score := score x; deathScore := deathScore x; username := username x;
     usernameInput := usernameInput x; lastGameState := lastGameState x;
     dropdownOpen := dropdownOpen x; selectedScreen := selectedScreen x;
     customWidth := customWidth x; customHeight := customHeight x;
     customInput := customInput x; customInputStr := customInputStr x |}.

Definition set_enemyBullets (v : list EnemyBullet.t) (x : t) : t :=
  {| keys := keys x; viewport := viewport x; player := player x;
     bullets := bullets x; enemies := enemies x; enemyBullets := v;
     spawnCounter := spawnCounter x; spawnInterval := spawnInterval x;
     elapsedFrames := elapsedFrames x; gameState := gameState x;
     score := score x; deathScore := deathScore x; username := username x;
     usernameInput := usernameInput x; lastGameState := lastGameState x;
     dropdownOpen := dropdownOpen x; selectedScreen := selectedScreen x;
     customWidth := customWidth x; customHeight := customHeight x;
     customInput := customInput x; customInputStr := customInputStr x |}.

Definition set_spawnCounter (v : Z) (x : t) : t :=
  {| keys := keys x; viewport := viewport x; player := player x;
     bullets := bullets x; enemies := enemies x;
     enemyBullets := enemyBullets x; spawnCounter := v;
     spawnInterval := spawnInterval x; elapsedFrames := elapsedFrames x;
     gameState := gameState x; score := score x;
     deathScore := deathScore x; username := username x;
     usernameInput := usernameInput x; lastGameState := lastGameState x;
     dropdownOpen := dropdownOpen x; selectedScreen := selectedScreen x;
     customWidth := customWidth x; customHeight := customHeight x;
     customInput := customInput x; customInputStr := customInputStr x |}.

Definition set_spawnInterval (v : Z) (x : t) : t :=
  {| keys := keys x; viewport := viewport x; player := player x;
     bullets := bullets x; enemies := enemies x;
     enemyBullets := enemyBullets x; spawnCounter := spawnCounter x;
     spawnInterval := v; elapsedFrames := elapsedFrames x;
     gameState := gameState x; score := score x;
     deathScore := deathScore x; username := username x;
     usernameInput := usernameInput x; lastGameState := lastGameState x;
     dropdownOpen := dropdownOpen x; selectedScreen := selectedScreen x;
     customWidth := customWidth x; customHeight := customHeight x;
     customInput := customInput x; customInputStr := customInputStr x |}.

Definition set_elapsedFrames (v : Z) (x : t) : t :=
  {| keys := keys x; viewport := viewport x; player := player x;
     bullets := bullets x; enemies := enemies x;
     enemyBullets := enemyBullets x; spawnCounter := spawnCounter x;
     spawnInterval := spawnInterval x; elapsedFrames := v;
     gameState := gameState x; score := score x;
     deathScore := deathScore x; username := username x;
     usernameInput := usernameInput x; lastGameState := lastGameState x;
     dropdownOpen := dropdownOpen x; selectedScreen := selectedScreen x;
     customWidth := customWidth x; customHeight := customHeight x;
     customInput := customInput x; customInputStr := customInputStr x |}.

Definition set_gameState (v : string) (x : t) : t :=
  {| keys := keys x; viewport := viewport x; player := player x;
     bullets := bullets x; enemies := enemies x;
     enemyBullets := enemyBullets x; spawnCounter := spawnCounter x;
     spawnInterval := spawnInterval x; elapsedFrames := elapsedFrames x;
     gameState := v; score := score x; deathScore := deathScore x;
     username := username x; usernameInput := usernameInput x;
     lastGameState := lastGameState x; dropdownOpen := dropdownOpen x;
     selectedScreen := selectedScreen x; customWidth := customWidth x;
     customHeight := customHeight x; customInput := customInput x;
     customInputStr := customInputStr x |}.

Definition set_score (v : Z) (x : t) : t :=
  {| keys := keys x; viewport := viewport x; player := player x;
     bullets := bullets x; enemies := enemies x;
     enemyBullets := enemyBullets x; spawnCounter := spawnCounter x;
     spawnInterval := spawnInterval x; elapsedFrames := elapsedFrames x;
     gameState := gameState x; score := v; deathScore := deathScore x;
     username := username x; usernameInput := usernameInput x;
     lastGameState := lastGameState x; dropdownOpen := dropdownOpen x;
     selectedScreen := selectedScreen x; customWidth := customWidth x;
     customHeight := customHeight x; customInput := customInput x;
     customInputStr := customInputStr x |}.

Definition set_deathScore (v : Z) (x : t) : t :=
  {| keys := keys x; viewport := viewport x; player := player x;
     bullets := bullets x; enemies := enemies x;
     enemyBullets := enemyBullets x; spawnCounter := spawnCounter x;
     spawnInterval := spawnInterval x; elapsedFrames := elapsedFrames x;
     gameState := gameState x; score := score x; deathScore := v;
     username := username x; usernameInput := usernameInput x;
     lastGameState := lastGameState x; dropdownOpen := dropdownOpen x;
     selectedScreen := selectedScreen x; customWidth := customWidth x;
     customHeight := customHeight x; customInput := customInput x;
     customInputStr := customInputStr x |}.
End Game.

(** What one tick reads from the input collaborator while playing. *)
Record Input := {
  pressed : list Key;          (* the keys currently held *)
  mouseLeftJustPressed : bool  (* inpututil.IsMouseButtonJustPressed(Left) *)
}.

Definition IsKeyPressed (inp : Input) (k : Key) : bool :=
  bool_decide (k ∈ pressed inp).

(** ** Utility functions *)

Definition rectsOverlap (x1 y1 s1 x2 y2 s2 : float) : bool :=
  (x1 <? x2 + s2)%float && (x2 <? x1 + s1)%float &&
  (y1 <? y2 + s2)%float && (y2 <? y1 + s1)%float.

(** [loadScores]: the table is made empty first; a file that cannot be
    opened ends the call, otherwise the decoder runs on the fresh table and
    its error is dropped.  What the decoder leaves is the table, a nil map
    included. *)
Definition loadScores : M unit := fun w =>
  let w1 := set_scores {| HighScores := Some ∅ |} w in
  match scoreFile w1 with
  | None => (tt, w1)
  | Some content =>
      (tt, set_scores (fst (jsonDecode w1 content (scores w1))) w1)
  end.

(** [saveScores]: the call goes to the trace; the file is left as it is
    when it cannot be created, and holds the encoded table otherwise. *)
Definition saveScores : M unit := fun w =>
  let w1 := set_saveLog (saveLog w ++ [scores w]) w in
  if createOk w1
  then (tt, set_scoreFile (Some (jsonEncode w1 (scores w1))) w1)
  else (tt, w1).

(** [scores.HighScores[name]], zero for a missing key. *)
Definition getScore (name : string) : M Z := fun w =>
  (default 0 (entries (scores w) !! name), w).

(** [scores.HighScores[name] = v]: a write to the nil map panics.  The
    result tells whether the statement completed. *)
Definition putScore (name : string) (v : Z) : M bool := fun w =>
  match HighScores (scores w) with
  | Some m => (true, set_scores {| HighScores := Some (<[name := v]> m) |} w)
  | None => (false, panic "assignment to entry in nil map" w)
  end.

(** ** Game methods: the simulation part of [Game.Update]

    [Update] returns early in the modes "settings", "menu" and "dead"; what
    follows is the rest of its body, one definition per block of the source,
    in the order of the source. *)

(** Player movement, then the clamp to the screen. *)
Definition speed : float := 4.

Definition movePlayer (inp : Input) (p : Player.t) : Player.t :=
  let y := Player.Y p in
  let x := Player.X p in
  let y := if IsKeyPressed inp KeyW || IsKeyPressed inp KeyArrowUp
           then (y - speed)%float else y in
  let y := if IsKeyPressed inp KeyS || IsKeyPressed inp KeyArrowDown
           then (y + speed)%float else y in
  let x := if IsKeyPressed inp KeyA || IsKeyPressed inp KeyArrowLeft
           then (x - speed)%float else x in
  let x := if IsKeyPressed inp KeyD || IsKeyPressed inp KeyArrowRight
           then (x + speed)%float else x in
  let x := if (x <? 0)%float then 0%float else x in
  let y := if (y <? 0)%float then 0%float else y in
  let x := if (Go.float64 screenWidth - Player.Size p <? x)%float
           then (Go.float64 screenWidth - Player.Size p)%float else x in
  let y := if (Go.float64 screenHeight - Player.Size p <? y)%float
           then (Go.float64 screenHeight - Player.Size p)%float else y in
  {| Player.X := x; Player.Y := y; Player.Size := Player.Size p |}.

Definition updatePlayer (inp : Input) (g : Game.t) : Game.t :=
  match Game.player g with
  | Some p => Game.set_player (Some (movePlayer inp p)) g
  | None => g
  end.

(** Shooting. *)
Definition newBullet (p : Player.t) : Bullet.t :=
  {| Bullet.X := (Player.X p + Player.Size p / 2 - 3)%float;
     Bullet.Y := (Player.Y p + Player.Size p)%float;
     Bullet.SpeedY := 8;
     Bullet.Size := 6 |}.

Definition shoot (inp : Input) (g : Game.t) : Game.t :=
  match mouseLeftJustPressed inp, Game.player g with
  | true, Some p => Game.set_bullets (Game.bullets g ++ [newBullet p]) g
  | _, _ => g
  end.

(** The spawn interval shrinks, but not below 10. *)
Definition rampInterval (elapsed interval : Z) : Z :=
  if (Go.rem elapsed 120 =? 0) && (10 <? interval)
  then let i := Go.sub interval 5 in
       if i <? 10 then 10 else i
  else interval.

Definition rampDifficulty (g : Game.t) : Game.t :=
  Game.set_spawnInterval
    (rampInterval (Game.elapsedFrames g) (Game.spawnInterval g)) g.

(** Enemy spawning. *)
Definition newEnemy : M Enemy.t :=
  x <- Intn (screenWidth - 64) ;;
  c <- Intn 60 ;;
  ret {| Enemy.X := Go.float64 (Go.add 32 x);
         Enemy.Y := Go.float64 screenHeight;
         Enemy.Size := 32;
         Enemy.SpeedY := (-2)%float;
         Enemy.Cooldown := Go.add 30 c;
         Enemy.Dead := false |}.

Fixpoint spawnBatch (n : nat) (es : list Enemy.t) : M (list Enemy.t) :=
  match n with
  | O => ret es
  | S n' => e <- newEnemy ;; spawnBatch n' (es ++ [e])
  end.

Definition spawnEnemies (g : Game.t) : M Game.t :=
  let g := Game.set_spawnCounter (Go.add (Game.spawnCounter g) 1) g in
  if Game.spawnInterval g <=? Game.spawnCounter g
  then
    let g := Game.set_spawnCounter 0 g in
    let numEnemies :=
      Go.add 1 (Go.quo (Go.sub 90 (Game.spawnInterval g)) 20) in
    es <- spawnBatch (Z.to_nat numEnemies) (Game.enemies g) ;;
    ret (Game.set_enemies es g)
  else ret g.

(** Enemy movement and shooting.  [stepEnemy] is one iteration of the loop:
    the enemy as it is kept ([None] when it left through the top) and the
    bullet it fired, if any. *)
Definition set_Y (y : float) (e : Enemy.t) : Enemy.t :=
  {| Enemy.X := Enemy.X e; Enemy.Y := y; Enemy.Size := Enemy.Size e;
     Enemy.SpeedY := Enemy.SpeedY e; Enemy.Cooldown := Enemy.Cooldown e;
     Enemy.Dead := Enemy.Dead e |}.

Definition set_Cooldown (c : Z) (e : Enemy.t) : Enemy.t :=
  {| Enemy.X := Enemy.X e; Enemy.Y := Enemy.Y e; Enemy.Size := Enemy.Size e;
     Enemy.SpeedY := Enemy.SpeedY e; Enemy.Cooldown := c;
     Enemy.Dead := Enemy.Dead e |}.

Definition set_Dead (d : bool) (e : Enemy.t) : Enemy.t :=
  {| Enemy.X := Enemy.X e; Enemy.Y := Enemy.Y e; Enemy.Size := Enemy.Size e;
     Enemy.SpeedY := Enemy.SpeedY e; Enemy.Cooldown := Enemy.Cooldown e;
     Enemy.Dead := d |}.

Definition aim_dx (p : Player.t) (e : Enemy.t) : float :=
  ((Player.X p + Player.Size p / 2) - (Enemy.X e + Enemy.Size e / 2))%float.

Definition aim_dy (p : Player.t) (e : Enemy.t) : float :=
  ((Player.Y p + Player.Size p / 2) - (Enemy.Y e + Enemy.Size e / 2))%float.

Definition aim_dist (p : Player.t) (e : Enemy.t) : float :=
  (aim_dx p e * aim_dx p e + aim_dy p e * aim_dy p e)%float.

Definition aimedBullet (p : Player.t) (e : Enemy.t) : EnemyBullet.t :=
  let length := PrimFloat.sqrt (aim_dist p e) in
  let speed := 5%float in
  {| EnemyBullet.X := (Enemy.X e + Enemy.Size e / 2 - 3)%float;
     EnemyBullet.Y := (Enemy.Y e + Enemy.Size e / 2 - 3)%float;
     EnemyBullet.SpeedX := (aim_dx p e / length * speed)%float;
     EnemyBullet.SpeedY := (aim_dy p e / length * speed)%float;
     EnemyBullet.Size := 6 |}.

Definition stepEnemy (player : option Player.t) (e : Enemy.t)
  : M (option Enemy.t * option EnemyBullet.t) :=
  let e := set_Y (Enemy.Y e + Enemy.SpeedY e)%float e in
  if (Enemy.Y e + Enemy.Size e <? 0)%float then ret (None, None)
  else
    match player with
    | None => ret (Some e, None)
    | Some p =>
        let e := set_Cooldown (Go.sub (Enemy.Cooldown e) 1) e in
        if Enemy.Cooldown e <=? 0
        then
          if (0 <? aim_dist p e)%float
          then
            r <- Intn 60 ;;
            ret (Some (set_Cooldown (Go.add 60 r) e), Some (aimedBullet p e))
          else ret (Some e, None)
        else ret (Some e, None)
    end.

Fixpoint moveEnemies (player : option Player.t) (es : list Enemy.t)
    (moved : list Enemy.t) (ebs : list EnemyBullet.t)
  : M (list Enemy.t * list EnemyBullet.t) :=
  match es with
  | [] => ret (moved, ebs)
  | e :: rest =>
      r <- stepEnemy player e ;;
      moveEnemies player rest
        (match fst r with Some e' => moved ++ [e'] | None => moved end)
        (match snd r with Some eb => ebs ++ [eb] | None => ebs end)
  end.

Definition updateEnemies (g : Game.t) : M Game.t :=
  r <- moveEnemies (Game.player g) (Game.enemies g) [] (Game.enemyBullets g) ;;
  ret (Game.set_enemyBullets (snd r) (Game.set_enemies (fst r) g)).

(** Enemy bullets movement. *)
Definition advanceEnemyBullet (eb : EnemyBullet.t) : EnemyBullet.t :=
  {| EnemyBullet.X := (EnemyBullet.X eb + EnemyBullet.SpeedX eb)%float;
     EnemyBullet.Y := (EnemyBullet.Y eb + EnemyBullet.SpeedY eb)%float;
     EnemyBullet.SpeedX := EnemyBullet.SpeedX eb;
     EnemyBullet.SpeedY := EnemyBullet.SpeedY eb;
     EnemyBullet.Size := EnemyBullet.Size eb |}.

Definition enemyBulletOnScreen (eb : EnemyBullet.t) : bool :=
  (0 <? EnemyBullet.X eb + EnemyBullet.Size eb)%float &&
  (EnemyBullet.X eb <? Go.float64 screenWidth)%float &&
  (0 <? EnemyBullet.Y eb + EnemyBullet.Size eb)%float &&
  (EnemyBullet.Y eb <? Go.float64 screenHeight)%float.

Fixpoint moveEnemyBullets (ebs : list EnemyBullet.t) : list EnemyBullet.t :=
  match ebs with
  | [] => []
  | eb :: rest =>
      let eb' := advanceEnemyBullet eb in
      if enemyBulletOnScreen eb'
      then eb' :: moveEnemyBullets rest
      else moveEnemyBullets rest
  end.

(** Player bullets movement. *)
Definition advanceBullet (b : Bullet.t) : Bullet.t :=
  {| Bullet.X := Bullet.X b;
     Bullet.Y := (Bullet.Y b + Bullet.SpeedY b)%float;
     Bullet.SpeedY := Bullet.SpeedY b;
     Bullet.Size := Bullet.Size b |}.

Definition bulletOnScreen (b : Bullet.t) : bool :=
  (0 <? Bullet.Y b + Bullet.Size b)%float.

Fixpoint moveBullets (bs : list Bullet.t) : list Bullet.t :=
  match bs with
  | [] => []
  | b :: rest =>
      let b' := advanceBullet b in
      if bulletOnScreen b' then b' :: moveBullets rest else moveBullets rest
  end.

Definition updateBullets (g : Game.t) : Game.t :=
  Game.set_bullets (moveBullets (Game.bullets g))
    (Game.set_enemyBullets (moveEnemyBullets (Game.enemyBullets g)) g).

(** Bullet vs enemy collision.  [hitEnemy] is the inner loop: it walks the
    enemies in order and stops at the first one that is not dead and
    overlaps the bullet, which it marks dead. *)
Definition bulletOverlaps (b : Bullet.t) (e : Enemy.t) : bool :=
  rectsOverlap (Bullet.X b) (Bullet.Y b) (Bullet.Size b)
               (Enemy.X e) (Enemy.Y e) (Enemy.Size e).

Definition bulletHits (b : Bullet.t) (e : Enemy.t) : bool :=
  negb (Enemy.Dead e) && bulletOverlaps b e.

Fixpoint hitEnemy (b : Bullet.t) (es : list Enemy.t) : option (list Enemy.t) :=
  match es with
  | [] => None
  | e :: rest =>
      if bulletHits b e then Some (set_Dead true e :: rest)
      else match hitEnemy b rest with
           | Some rest' => Some (e :: rest')
           | None => None
           end
  end.

(** The outer loop, over the bullets: the enemies with their marks, the
    score, and the bullets that hit nothing. *)
Fixpoint collideBullets (bs : list Bullet.t) (es : list Enemy.t) (score : Z)
    (remaining : list Bullet.t) : list Enemy.t * Z * list Bullet.t :=
  match bs with
  | [] => (es, score, remaining)
  | b :: rest =>
      match hitEnemy b es with
      | Some es' => collideBullets rest es' (Go.add score 1) remaining
      | None => collideBullets rest es score (remaining ++ [b])
      end
  end.

Definition removeDead (es : list Enemy.t) : list Enemy.t :=
  List.filter (fun e => negb (Enemy.Dead e)) es.

Definition bulletsVsEnemies (g : Game.t) : Game.t :=
  let '(es, sc, remaining) :=
    collideBullets (Game.bullets g) (Game.enemies g) (Game.score g) [] in
  Game.set_bullets remaining
    (Game.set_enemies (removeDead es) (Game.set_score sc g)).

(** The death handling, written twice in the source with the same text:
    the score is kept as the death score, a new record is stored and saved,
    and the mode becomes "dead".  When the write of the record panics, the
    statements after it are not run: the game keeps its mode.  Nothing of
    [Update] follows the death handling at either place. *)
Definition die (g : Game.t) : M Game.t :=
  let g := Game.set_deathScore (Game.score g) g in
  old <- getScore (Game.username g) ;;
  ok <- (if negb (String.eqb (Game.username g) "") && (old <? Game.score g)
         then
           ok <- putScore (Game.username g) (Game.score g) ;;
           if ok : bool then _ <- saveScores ;; ret true else ret false
         else ret true) ;;
  ret (if ok : bool then Game.set_gameState "dead" g else g).

(** Enemy bullet vs player collision. *)
Definition enemyBulletHits (p : Player.t) (eb : EnemyBullet.t) : bool :=
  rectsOverlap (EnemyBullet.X eb) (EnemyBullet.Y eb) (EnemyBullet.Size eb)
               (Player.X p) (Player.Y p) (Player.Size p).

(** Player vs enemy collision. *)
Definition enemyTouches (p : Player.t) (e : Enemy.t) : bool :=
  rectsOverlap (Player.X p) (Player.Y p) (Player.Size p)
               (Enemy.X e) (Enemy.Y e) (Enemy.Size e).

Definition playerCollisions (g : Game.t) : M Game.t :=
  match Game.player g with
  | None => ret g
  | Some p =>
      let active :=
        List.filter (fun eb => negb (enemyBulletHits p eb))
                    (Game.enemyBullets g) in
      let playerHit := existsb (enemyBulletHits p) (Game.enemyBullets g) in
      let g := Game.set_enemyBullets active g in
      if playerHit then die g
      else if existsb (enemyTouches p) (Game.enemies g) then die g
      else ret g
  end.

(** The simulation part of [Update], from [g.viewport.Move()] to the end. *)
Definition UpdatePlaying (inp : Input) (g : Game.t) : M Game.t :=
  let g := Game.set_keys (pressed inp) g in
  vp <- viewport.Move (Game.viewport g) ;;
  let g := Game.set_viewport vp g in
  let g := Game.set_elapsedFrames (Go.add (Game.elapsedFrames g) 1) g in
  let g := updatePlayer inp g in
  let g := shoot inp g in
  let g := rampDifficulty g in
  g <- spawnEnemies g ;;
  g <- updateEnemies g ;;
  let g := updateBullets g in
  let g := bulletsVsEnemies g in
  playerCollisions g.

(** [Game.Reset]. *)
Definition Reset (g : Game.t) : M Game.t :=
  let g := Game.set_player
             (Some (NewPlayer (Go.float64 (Go.quo screenWidth 2))
                              (Go.float64 (Go.quo screenHeight 2)))) g in
  let g := Game.set_bullets [] g in
  let g := Game.set_enemies [] g in
  let g := Game.set_enemyBullets [] g in
  let g := Game.set_spawnCounter 0 g in
  let g := Game.set_spawnInterval 90 g in
  let g := Game.set_elapsedFrames 0 g in
  let g := Game.set_score 0 g in
  ret g.

(** Consecutive ticks of the simulation, one input per tick.  A run of the
    program is such a sequence, up to the first tick that panics. *)
Fixpoint playTicks (inps : list Input) (g : Game.t) : M Game.t :=
  match inps with
  | [] => ret g
  | inp :: rest => g' <- UpdatePlaying inp g ;; playTicks rest g'
  end.

(** ** Predicates used in the statements *)

(** The player's box lies inside the screen: [0 <= X <= 640 - Size] and
    [0 <= Y <= 480 - Size]. *)
Definition inArena (p : Player.t) : bool :=
  (0 <=? Player.X p)%float &&
  (Player.X p <=? Go.float64 screenWidth - Player.Size p)%float &&
  (0 <=? Player.Y p)%float &&
  (Player.Y p <=? Go.float64 screenHeight - Player.Size p)%float.

(** ** Main: the game [main] starts with, and a world to run it in *)

(** The [Game] literal of [main]; fields it does not name are zero. *)
Definition initialGame : Game.t :=
  {| Game.keys := [];
     Game.viewport := {| viewport.x16 := 0; viewport.y16 := 0 |};
     Game.player :=
       Some (NewPlayer (Go.float64 (Go.quo screenWidth 2))
                       (Go.float64 (Go.quo screenHeight 2)));
     Game.bullets := [];
     Game.enemies := [];
     Game.enemyBullets := [];
     Game.spawnCounter := 0;
     Game.spawnInterval := 90;
     Game.elapsedFrames := 0;
     Game.gameState := "menu";
     Game.score := 0;
     Game.deathScore := 0;
     Game.username := "";
     Game.usernameInput := "";
     Game.lastGameState := "";
     Game.dropdownOpen := false;
     Game.selectedScreen := 0;
     Game.customWidth := 0;
     Game.customHeight := 0;
     Game.customInput := false;
     Game.customInputStr := "" |}.

(** A world for the examples: no score file yet, a writable directory, a
    fixed pseudo-random sequence, a tile of height 240, and a toy codec
    that writes the names of the table and reads back the one record
    "Ann=50", reporting an error on anything else. *)
Definition sampleWorld : World :=
  {| scores := {| HighScores := Some ∅ |};
     scoreFile := None;
     createOk := true;
     saveLog := [];
     jsonEncode := fun t =>
       String.concat "," (List.map fst (map_to_list (entries t)));
     jsonDecode := fun content t =>
       if String.eqb content "Ann=50"
       then ({| HighScores := Some (<["Ann"%string := 50]> (entries t)) |},
             false)
       else (t, true);
     randSrc := fun n => 7919 * Z.of_nat n + 13;
     randPos := 0;
     bgImage := Some 240;
     panics := [] |}.

(** JSON text for the examples, with ['] written for the double quote. *)
Fixpoint json (s : string) : string :=
  match s with
  | EmptyString => EmptyString
  | String c s' =>
      String (if Ascii.eqb c (Ascii.ascii_of_nat 39)
              then Ascii.ascii_of_nat 34 else c) (json s')
  end.

(** A score file that gives null for the table. *)
Definition nullFile : string := json "{'high_scores':null}".

(** A score file with an entry that is not a number. *)
Definition brokenFile : string :=
  json "{'high_scores':{'Ann':50,'Bob':'x','Cy':3}}".

(** The world as [main] finds it, with the given score file: [scores] is the
    zero value, and the decoder does on the two files above what that of
    [encoding/json] does.  On null it sets the map to nil and reports no
    error; on [brokenFile] it stores every entry, zero for the one it
    cannot read, and reports the type error at the end; anything else is
    taken as a syntax error, which leaves the target as it was. *)
Definition jsonWorld (file : option string) : World :=
  {| scores := {| HighScores := None |};
     scoreFile := file;
     createOk := true;
     saveLog := [];
     jsonEncode := fun t =>
       String.concat "," (List.map fst (map_to_list (entries t)));
     jsonDecode := fun content t =>
       if String.eqb content nullFile
       then ({| HighScores := None |}, false)
       else if String.eqb content brokenFile
       then ({| HighScores :=
                  Some (<["Cy"%string := 3]>
                          (<["Bob"%string := 0]>
                             (<["Ann"%string := 50]> (entries t)))) |},
             true)
       else (t, true);
     randSrc := fun n => 7919 * Z.of_nat n + 13;
     randPos := 0;
     bgImage := Some 240;
     panics := [] |}.

(** A game in play for the user "Ann", as the menu starts it. *)
Definition annPlaying : Game.t :=
  {| Game.keys := [];
     Game.viewport := {| viewport.x16 := 0; viewport.y16 := 0 |};
     Game.player := Some (NewPlayer 320 240);
     Game.bullets := [];
     Game.enemies := [];
     Game.enemyBullets := [];
     Game.spawnCounter := 0;
     Game.spawnInterval := 90;
     Game.elapsedFrames := 0;
     Game.gameState := "playing";
     Game.score := 0;
     Game.deathScore := 0;
     Game.username := "Ann";
     Game.usernameInput := "Ann";
     Game.lastGameState := "";
     Game.dropdownOpen := false;
     Game.selectedScreen := 0;
     Game.customWidth := 0;
     Game.customHeight := 0;
     Game.customInput := false;
     Game.customInputStr := "" |}.

(** "Ann" in play with 50 points, and an enemy bullet on her. *)
Definition annHit : Game.t :=
  Game.set_score 50
    (Game.set_enemyBullets
       [{| EnemyBullet.X := 330; EnemyBullet.Y := 250;
           EnemyBullet.SpeedX := 0; EnemyBullet.SpeedY := 0;
           EnemyBullet.Size := 6 |}] annPlaying).

(** ** The tick up to the collisions, and bullets followed through ticks *)

(** The blocks of [UpdatePlaying] that come before the collision passes. *)
Definition beforeCollisions (inp : Input) (g : Game.t) : M Game.t :=
  let g := Game.set_keys (pressed inp) g in
  vp <- viewport.Move (Game.viewport g) ;;
  let g := Game.set_viewport vp g in
  let g := Game.set_elapsedFrames (Go.add (Game.elapsedFrames g) 1) g in
  let g := updatePlayer inp g in
  let g := shoot inp g in
  let g := rampDifficulty g in
  g <- spawnEnemies g ;;
  g <- updateEnemies g ;;
  ret (updateBullets g).

(** The bullet [b] after [n] ticks of flight. *)
Definition flownBullet (n : nat) (b : Bullet.t) : Bullet.t :=
  Nat.iter n advanceBullet b.

(** The box of [b] is on the screen: not past the top edge, which is the
    test of the bullet movement, and not past the bottom edge at 480. *)
Definition bulletVisible (b : Bullet.t) : bool :=
  bulletOnScreen b && (Bullet.Y b <? 480)%float.

(** [b] is on the screen at each of its next [n] positions. *)
Fixpoint staysVisible (n : nat) (b : Bullet.t) : bool :=
  match n with
  | O => true
  | S n' =>
      bulletVisible (advanceBullet b) && staysVisible n' (advanceBullet b)
  end.

(** Through the ticks [inps] from [g], the bullet that starts as [b]
    overlaps none of the enemies it is tested against. *)
Fixpoint unobstructed (b : Bullet.t) (inps : list Input)
    (g : Game.t) (w : World) : Prop :=
  match inps with
  | [] => True
  | inp :: rest =>
      (forall e, In e (Game.enemies (fst (beforeCollisions inp g w))) ->
                 bulletOverlaps (advanceBullet b) e = false) /\
      unobstructed (advanceBullet b) rest
        (fst (UpdatePlaying inp g w)) (snd (UpdatePlaying inp g w))
  end.

(** The number of ticks after which a bullet at height [py], of size [s]
    and speed [v], is expected past the top: [ceil ((py + s) / v)]. *)
Definition ticksToTop (py s v : Z) : Z := (py + s + v - 1) / v.

(** A bullet like those of [newBullet], but flying toward the top. *)
Definition upwardBullet (py : Z) : Bullet.t :=
  {| Bullet.X := 333; Bullet.Y := Go.float64 py;
     Bullet.SpeedY := (-8)%float; Bullet.Size := 6 |}.

(** [upwardBullet py] is on the screen through its first [k] ticks exactly
    when [k] is below [ticksToTop], for each [k] below [n]; and the tick
    that takes it off the screen takes it past the top. *)
Definition topRuleHolds (n : nat) (py : Z) : bool :=
  let b := upwardBullet py in
  forallb
    (fun k =>
       Bool.eqb (staysVisible k b) (Z.of_nat k <? ticksToTop py 6 8)
       && (bulletVisible (flownBullet (S k) b)
           || negb (bulletOnScreen (flownBullet (S k) b))))
    (seq 0 n).

(** ** One pass of the enemy loop, enemy by enemy *)

(** An enemy after the move and the count-down of its pass of the enemy
    loop, as the loop has it when it tests the cooldown. *)
Definition tickedEnemy (e : Enemy.t) : Enemy.t :=
  let e := set_Y (Enemy.Y e + Enemy.SpeedY e)%float e in
  set_Cooldown (Go.sub (Enemy.Cooldown e) 1) e.

(** The enemy has not left through the top, so the loop keeps it. *)
Definition staysOn (e : Enemy.t) : bool :=
  negb (Enemy.Y (tickedEnemy e) + Enemy.Size (tickedEnemy e) <? 0)%float.

(** The enemy is kept, and its cooldown is zero or below on this tick. *)
Definition cooldownOver (e : Enemy.t) : bool :=
  staysOn e && (Enemy.Cooldown (tickedEnemy e) <=? 0).

(** The enemy's cooldown is over and its squared distance to the player
    [p] is above zero. *)
Definition fires (p : Player.t) (e : Enemy.t) : bool :=
  cooldownOver e && (0 <? aim_dist p (tickedEnemy e))%float.

(** What the loop makes of an enemy it keeps: after a shot the cooldown is
    set anew, in [[60, 120)]. *)
Definition afterLoop (p : Player.t) (e e' : Enemy.t) : Prop :=
  if fires p e
  then exists c, 60 <= c < 120 /\ e' = set_Cooldown c (tickedEnemy e)
  else e' = tickedEnemy e.

(** ** Deaths and the stored scores *)

(** The score stored for [name], zero when there is none. *)
Definition storedScore (name : string) (w : World) : Z :=
  fst (getScore name w).

(** The death handling of [g] has a record to store. *)
Definition newRecord (g : Game.t) (w : World) : bool :=
  negb (String.eqb (Game.username g) "")
  && (storedScore (Game.username g) w <? Game.score g).

(** The table is the nil map. *)
Definition nilTable (w : World) : bool :=
  match HighScores (scores w) with
  | None => true
  | Some _ => false
  end.

(** The game, as it enters the player collisions, has the player overlap an
    enemy bullet or an enemy. *)
Definition playerDies (g : Game.t) : bool :=
  match Game.player g with
  | Some p =>
      existsb (enemyBulletHits p) (Game.enemyBullets g)
      || existsb (enemyTouches p) (Game.enemies g)
  | None => false
  end.

(** One death after the other, each of a game of its own. *)
Fixpoint dieAll (gs : list Game.t) (w : World) : World :=
  match gs with
  | [] => w
  | g :: rest => dieAll rest (snd (die g w))
  end.

(** Two worlds that differ at most in the position of the random source. *)
Definition sameStore (w w' : World) : Prop :=
  scores w' = scores w /\ scoreFile w' = scoreFile w /\
  createOk w' = createOk w /\ saveLog w' = saveLog w /\
  jsonEncode w' = jsonEncode w /\ jsonDecode w' = jsonDecode w /\
  randSrc w' = randSrc w /\ bgImage w' = bgImage w /\
  panics w' = panics w.

(** * More of [main.go]: [Game.Update] in full, and [getTopScores] *)

(** ** Predicates for the further properties *)

(** What is positive in [spec_float]. *)
Definition SFpos (x : spec_float) : Prop :=
  match x with
  | S754_finite s _ _ | S754_infinity s => s = false
  | _ => False
  end.

(** A bullet as [newBullet] makes them, somewhere at or below the top. *)
Definition firedBullet (b : Bullet.t) : Prop :=
  Bullet.SpeedY b = 8%float /\ Bullet.Size b = 6%float /\
  (0 <=? Bullet.Y b)%float = true.

(** The ticks with a fresh press of the left button. *)
Definition shotsFired (inps : list Input) : nat :=
  length (List.filter mouseLeftJustPressed inps).

(** An enemy as [stepEnemy] keeps it: moved by its speed, nothing else
    changed but the cooldown. *)
Definition movedEnemy (e e' : Enemy.t) : Prop :=
  Enemy.X e' = Enemy.X e /\
  Enemy.Y e' = (Enemy.Y e + Enemy.SpeedY e)%float /\
  Enemy.Size e' = Enemy.Size e /\ Enemy.SpeedY e' = Enemy.SpeedY e /\
  Enemy.Dead e' = Enemy.Dead e /\
  (Enemy.Y e' + Enemy.Size e' <? 0)%float = false.

(** An enemy as the loop keeps it: moved, and its cooldown counted down by
    one or, after a shot, set anew; without a player the cooldown stands. *)
Definition keptEnemy (player : option Player.t) (e e' : Enemy.t) : Prop :=
  movedEnemy e e' /\
  match player with
  | None => Enemy.Cooldown e' = Enemy.Cooldown e
  | Some _ => Enemy.Cooldown e' = Go.sub (Enemy.Cooldown e) 1 \/
              60 <= Enemy.Cooldown e' < 120
  end.

(** The blocks of [UpdatePlaying] that come before the enemy spawning. *)
Definition beforeSpawn (inp : Input) (g : Game.t) : M Game.t :=
  let g := Game.set_keys (pressed inp) g in
  vp <- viewport.Move (Game.viewport g) ;;
  let g := Game.set_viewport vp g in
  let g := Game.set_elapsedFrames (Go.add (Game.elapsedFrames g) 1) g in
  let g := updatePlayer inp g in
  let g := shoot inp g in
  ret (rampDifficulty g).

(** The number of enemies of a batch at spawn interval [i]. *)
Definition numEnemies (i : Z) : Z := Go.add 1 (Go.quo (Go.sub 90 i) 20).

(** An enemy as [newEnemy] makes them: at the bottom edge, its box between
    the left and the right edge of the screen, drifting up by 2 a tick. *)
Definition freshEnemy (e : Enemy.t) : Prop :=
  Enemy.Y e = 480%float /\ Enemy.Size e = 32%float /\
  Enemy.SpeedY e = (-2)%float /\ Enemy.Dead e = false /\
  30 <= Enemy.Cooldown e < 90 /\
  (32 <=? Enemy.X e)%float = true /\
  (Enemy.X e + Enemy.Size e <=? 640)%float = true.

(** A world whose codec writes the table that holds 50 for "Ann", and
    nothing else, as "Ann=50", and reads it back; that table is stored. *)
Definition annWorld : World :=
  {| scores := {| HighScores := Some {["Ann"%string := 50]} |};
     scoreFile := None;
     createOk := true;
     saveLog := [];
     jsonEncode := fun t =>
       if bool_decide (entries t = {["Ann"%string := 50]})
       then "Ann=50"%string else "?"%string;
     jsonDecode := fun content t =>
       if String.eqb content "Ann=50"
       then ({| HighScores := Some (<["Ann"%string := 50]> (entries t)) |},
             false)
       else (t, true);
     randSrc := fun n => 7919 * Z.of_nat n + 13;
     randPos := 0;
     bgImage := Some 240;
     panics := [] |}.

(** ** The pages around the simulation: [Game.Update] in full *)

(** What one call of [Update] reads from the input collaborator: the keys
    held and the mouse edge as the simulation reads them, the runes typed
    since the last call, the key edges and the cursor. *)
Record Frame := {
  sim : Input;
  inputChars : list Z;           (* ebiten.AppendInputChars(nil) *)
  backspaceJustPressed : bool;   (* inpututil.IsKeyJustPressed(KeyBackspace) *)
  enterJustPressed : bool;       (* inpututil.IsKeyJustPressed(KeyEnter) *)
  escapeJustPressed : bool;      (* inpututil.IsKeyJustPressed(KeyEscape) *)
  cursorPosition : Z * Z         (* ebiten.CursorPosition() *)
}.

(** The functions of [strings] and [strconv] the settings page calls;
    [Atoi] gives the number together with whether it returned an error. *)
Record Strings := {
  Split : string -> string -> list string;
  TrimSpace : string -> string;
  Atoi : string -> Z * bool
}.

(** A call [ebiten.SetWindowSize(width, height)] that returned. *)
Definition WindowSize : Type := (Z * Z)%type.

(** [ebiten.SetWindowSize(width, height)]: the library panics unless both
    sides are positive.  The result tells whether the call returned. *)
Definition SetWindowSize (width height : Z) : M bool := fun w =>
  if (width <=? 0) || (height <=? 0)
  then (false, panic "ebiten: width and height must be positive" w)
  else (true, w).

Definition set_username (v : string) (x : Game.t) : Game.t :=
  {| Game.keys := Game.keys x; Game.viewport := Game.viewport x;
     Game.player := Game.player x; Game.bullets := Game.bullets x;
     Game.enemies := Game.enemies x;
     Game.enemyBullets := Game.enemyBullets x;
     Game.spawnCounter := Game.spawnCounter x;
     Game.spawnInterval := Game.spawnInterval x;
     Game.elapsedFrames := Game.elapsedFrames x;
     Game.gameState := Game.gameState x; Game.score := Game.score x;
     Game.deathScore := Game.deathScore x; Game.username := v;
     Game.usernameInput := Game.usernameInput x;
     Game.lastGameState := Game.lastGameState x;
     Game.dropdownOpen := Game.dropdownOpen x;
     Game.selectedScreen := Game.selectedScreen x;
     Game.customWidth := Game.customWidth x;
     Game.customHeight := Game.customHeight x;
     Game.customInput := Game.customInput x;
     Game.customInputStr := Game.customInputStr x |}.

Definition set_usernameInput (v : string) (x : Game.t) : Game.t :=
  {| Game.keys := Game.keys x; Game.viewport := Game.viewport x;
     Game.player := Game.player x; Game.bullets := Game.bullets x;
     Game.enemies := Game.enemies x;
     Game.enemyBullets := Game.enemyBullets x;
     Game.spawnCounter := Game.spawnCounter x;
     Game.spawnInterval := Game.spawnInterval x;
     Game.elapsedFrames := Game.elapsedFrames x;
     Game.gameState := Game.gameState x; Game.score := Game.score x;
     Game.deathScore := Game.deathScore x; Game.username := Game.username x;
     Game.usernameInput := v; Game.lastGameState := Game.lastGameState x;
     Game.dropdownOpen := Game.dropdownOpen x;
     Game.selectedScreen := Game.selectedScreen x;
     Game.customWidth := Game.customWidth x;
     Game.customHeight := Game.customHeight x;
     Game.customInput := Game.customInput x;
     Game.customInputStr := Game.customInputStr x |}.

Definition set_lastGameState (v : string) (x : Game.t) : Game.t :=
  {| Game.keys := Game.keys x; Game.viewport := Game.viewport x;
     Game.player := Game.player x; Game.bullets := Game.bullets x;
     Game.enemies := Game.enemies x;
     Game.enemyBullets := Game.enemyBullets x;
     Game.spawnCounter := Game.spawnCounter x;
     Game.spawnInterval := Game.spawnInterval x;
     Game.elapsedFrames := Game.elapsedFrames x;
     Game.gameState := Game.gameState x; Game.score := Game.score x;
     Game.deathScore := Game.deathScore x; Game.username := Game.username x;
     Game.usernameInput := Game.usernameInput x; Game.lastGameState := v;
     Game.dropdownOpen := Game.dropdownOpen x;
     Game.selectedScreen := Game.selectedScreen x;
     Game.customWidth := Game.customWidth x;
     Game.customHeight := Game.customHeight x;
     Game.customInput := Game.customInput x;
     Game.customInputStr := Game.customInputStr x |}.

Definition set_dropdownOpen (v : bool) (x : Game.t) : Game.t :=
  {| Game.keys := Game.keys x; Game.viewport := Game.viewport x;
     Game.player := Game.player x; Game.bullets := Game.bullets x;
     Game.enemies := Game.enemies x;
     Game.enemyBullets := Game.enemyBullets x;
     Game.spawnCounter := Game.spawnCounter x;
     Game.spawnInterval := Game.spawnInterval x;
     Game.elapsedFrames := Game.elapsedFrames x;
     Game.gameState := Game.gameState x; Game.score := Game.score x;
     Game.deathScore := Game.deathScore x; Game.username := Game.username x;
     Game.usernameInput := Game.usernameInput x;
     Game.lastGameState := Game.lastGameState x; Game.dropdownOpen := v;
     Game.selectedScreen := Game.selectedScreen x;
     Game.customWidth := Game.customWidth x;
     Game.customHeight := Game.customHeight x;
     Game.customInput := Game.customInput x;
     Game.customInputStr := Game.customInputStr x |}.

Definition set_selectedScreen (v : Z) (x : Game.t) : Game.t :=
  {| Game.keys := Game.keys x; Game.viewport := Game.viewport x;
     Game.player := Game.player x; Game.bullets := Game.bullets x;
     Game.enemies := Game.enemies x;
     Game.enemyBullets := Game.enemyBullets x;
     Game.spawnCounter := Game.spawnCounter x;
     Game.spawnInterval := Game.spawnInterval x;
     Game.elapsedFrames := Game.elapsedFrames x;
     Game.gameState := Game.gameState x; Game.score := Game.score x;
     Game.deathScore := Game.deathScore x; Game.username := Game.username x;
     Game.usernameInput := Game.usernameInput x;
     Game.lastGameState := Game.lastGameState x;
     Game.dropdownOpen := Game.dropdownOpen x; Game.selectedScreen := v;
     Game.customWidth := Game.customWidth x;
     Game.customHeight := Game.customHeight x;
     Game.customInput := Game.customInput x;
     Game.customInputStr := Game.customInputStr x |}.

Definition set_customWidth (v : Z) (x : Game.t) : Game.t :=
  {| Game.keys := Game.keys x; Game.viewport := Game.viewport x;
     Game.player := Game.player x; Game.bullets := Game.bullets x;
     Game.enemies := Game.enemies x;
     Game.enemyBullets := Game.enemyBullets x;
     Game.spawnCounter := Game.spawnCounter x;
     Game.spawnInterval := Game.spawnInterval x;
     Game.elapsedFrames := Game.elapsedFrames x;
     Game.gameState := Game.gameState x; Game.score := Game.score x;
     Game.deathScore := Game.deathScore x; Game.username := Game.username x;
     Game.usernameInput := Game.usernameInput x;
     Game.lastGameState := Game.lastGameState x;
     Game.dropdownOpen := Game.dropdownOpen x;
     Game.selectedScreen := Game.selectedScreen x; Game.customWidth := v;
     Game.customHeight := Game.customHeight x;
     Game.customInput := Game.customInput x;
     Game.customInputStr := Game.customInputStr x |}.

Definition set_customHeight (v : Z) (x : Game.t) : Game.t :=
  {| Game.keys := Game.keys x; Game.viewport := Game.viewport x;
     Game.player := Game.player x; Game.bullets := Game.bullets x;
     Game.enemies := Game.enemies x;
     Game.enemyBullets := Game.enemyBullets x;
     Game.spawnCounter := Game.spawnCounter x;
     Game.spawnInterval := Game.spawnInterval x;
     Game.elapsedFrames := Game.elapsedFrames x;
     Game.gameState := Game.gameState x; Game.score := Game.score x;
     Game.deathScore := Game.deathScore x; Game.username := Game.username x;
     Game.usernameInput := Game.usernameInput x;
     Game.lastGameState := Game.lastGameState x;
     Game.dropdownOpen := Game.dropdownOpen x;
     Game.selectedScreen := Game.selectedScreen x;
     Game.customWidth := Game.customWidth x; Game.customHeight := v;
     Game.customInput := Game.customInput x;
     Game.customInputStr := Game.customInputStr x |}.

Definition set_customInput (v : bool) (x : Game.t) : Game.t :=
  {| Game.keys := Game.keys x; Game.viewport := Game.viewport x;
     Game.player := Game.player x; Game.bullets := Game.bullets x;
     Game.enemies := Game.enemies x;
     Game.enemyBullets := Game.enemyBullets x;
     Game.spawnCounter := Game.spawnCounter x;
     Game.spawnInterval := Game.spawnInterval x;
     Game.elapsedFrames := Game.elapsedFrames x;
     Game.gameState := Game.gameState x; Game.score := Game.score x;
     Game.deathScore := Game.deathScore x; Game.username := Game.username x;
     Game.usernameInput := Game.usernameInput x;
     Game.lastGameState := Game.lastGameState x;
     Game.dropdownOpen := Game.dropdownOpen x;
     Game.selectedScreen := Game.selectedScreen x;
     Game.customWidth := Game.customWidth x;
     Game.customHeight := Game.customHeight x; Game.customInput := v;
     Game.customInputStr := Game.customInputStr x |}.

Definition set_customInputStr (v : string) (x : Game.t) : Game.t :=
  {| Game.keys := Game.keys x; Game.viewport := Game.viewport x;
     Game.player := Game.player x; Game.bullets := Game.bullets x;
     Game.enemies := Game.enemies x;
     Game.enemyBullets := Game.enemyBullets x;
     Game.spawnCounter := Game.spawnCounter x;
     Game.spawnInterval := Game.spawnInterval x;
     Game.elapsedFrames := Game.elapsedFrames x;
     Game.gameState := Game.gameState x; Game.score := Game.score x;
     Game.deathScore := Game.deathScore x; Game.username := Game.username x;
     Game.usernameInput := Game.usernameInput x;
     Game.lastGameState := Game.lastGameState x;
     Game.dropdownOpen := Game.dropdownOpen x;
     Game.selectedScreen := Game.selectedScreen x;
     Game.customWidth := Game.customWidth x;
     Game.customHeight := Game.customHeight x;
     Game.customInput := Game.customInput x; Game.customInputStr := v |}.

(** [string(r)] for a rune of one byte, which those that pass the filters
    of the two text fields are. *)
Definition runeString (r : Z) : string :=
  String (Ascii.ascii_of_N (Z.to_N r)) EmptyString.

(** [len(s)]. *)
Definition len (s : string) : Z := Z.of_nat (String.length s).

(** [s[:len(s)-1]], for a string that is not empty. *)
Definition dropLast (s : string) : string :=
  String.substring 0 (String.length s - 1) s.

(** [xf >= x && xf <= x+w && yf >= y && yf <= y+h]: the click test of every
    button and row. *)
Definition inBox (xf yf x y w h : float) : bool :=
  (x <=? xf)%float && (xf <=? x + w)%float &&
  (y <=? yf)%float && (yf <=? y + h)%float.

Definition centerX : float := (Go.float64 screenWidth / 2)%float.
Definition btnW : float := 120.
Definition btnH : float := 40.
Definition btnX : float := (centerX - btnW / 2)%float.

(** *** The settings page *)

Module SettingsPage.
Definition cardH : float := 300.
Definition cardY : float := (Go.float64 screenHeight / 2 - cardH / 2)%float.
Definition btnY : float := (cardY + cardH - btnH - 24)%float.
Definition ddX : float := (centerX - 100)%float.
Definition ddY : float := (cardY + 100)%float.
Definition ddW : float := 200.
Definition ddH : float := 32.
End SettingsPage.

Definition screenSizes : list (string * Z * Z) :=
  [("640 x 480"%string, 640, 480); ("800 x 600"%string, 800, 600);
   ("1024 x 768"%string, 1024, 768); ("Custom..."%string, 0, 0)].

(** The elements of a slice with their indices, as [range] gives them. *)
Definition indexed {A} (l : list A) : list (Z * A) :=
  combine (List.map Z.of_nat (seq 0 (length l))) l.

(** The runes the custom-size field takes: digits and the comma. *)
Definition customChar (r : Z) : bool :=
  (48 <=? r) && (r <=? 57) || (r =? 44).

Definition typeCustom (s : string) (rs : list Z) : string :=
  fold_left (fun s r => if customChar r then String.append s (runeString r)
                        else s) rs s.

(** Enter in the custom-size field.  The result is the game, the calls of
    [SetWindowSize] that returned, and whether the block completed: when
    the call panics, the three assignments after it are not run. *)
Definition acceptCustom (lib : Strings) (g : Game.t)
  : M (Game.t * list WindowSize * bool) :=
  match Split lib (Game.customInputStr g) ","%string with
  | [p0; p1] =>
      let (w, err1) := Atoi lib (TrimSpace lib p0) in
      let (h, err2) := Atoi lib (TrimSpace lib p1) in
      if negb err1 && negb err2 && (100 <? w) && (100 <? h)
      then
        let g := set_customWidth w g in
        let g := set_customHeight h g in
        ok <- SetWindowSize (Go.wrap (w * 2)) (Go.wrap (h * 2)) ;;
        if ok : bool
        then
          let g := set_selectedScreen 3 g in
          let g := set_customInput false g in
          let g := set_customInputStr ""%string g in
          ret (g, [(Go.wrap (w * 2), Go.wrap (h * 2))], true)
        else ret (g, [], false)
      else ret (g, [], true)
  | _ => ret (g, [], true)
  end.

(** The custom-size dialog; after a panic in [acceptCustom] the test for
    Escape is not reached. *)
Definition customDialog (lib : Strings) (f : Frame) (g : Game.t)
  : M (Game.t * list WindowSize) :=
  let g := set_customInputStr
             (typeCustom (Game.customInputStr g) (inputChars f)) g in
  let g := if backspaceJustPressed f && (0 <? len (Game.customInputStr g))
           then set_customInputStr (dropLast (Game.customInputStr g)) g
           else g in
  r <- (if enterJustPressed f then acceptCustom lib g
        else ret (g, [], true)) ;;
  let '(g, calls, ok) := r in
  let g := if (ok : bool) && escapeJustPressed f
           then set_customInputStr ""%string (set_customInput false g)
           else g in
  ret (g, calls).

(** The loop over the rows of the open dropdown: the first row that holds
    the click is taken and ends the loop.  The sizes of [screenSizes] are
    positive when doubled, so the call of [SetWindowSize] returns. *)
Fixpoint clickOption (xf yf : float) (opts : list (Z * (string * Z * Z)))
    (g : Game.t) : Game.t * list WindowSize :=
  match opts with
  | [] => (g, [])
  | (i, (_, W, H)) :: rest =>
      let optY := (SettingsPage.ddY + SettingsPage.ddH
                   + Go.float64 i * SettingsPage.ddH)%float in
      if inBox xf yf SettingsPage.ddX optY SettingsPage.ddW SettingsPage.ddH
      then
        let (g, calls) :=
          if i =? 3
          then (set_customInputStr ""%string (set_customInput true g), [])
          else (set_selectedScreen i g,
                [(Go.wrap (W * 2), Go.wrap (H * 2))]) in
        (set_dropdownOpen false g, calls)
      else clickOption xf yf rest g
  end.

Definition backButton (xf yf : float) (g : Game.t) : Game.t :=
  if inBox xf yf btnX SettingsPage.btnY btnW btnH
  then if negb (String.eqb (Game.lastGameState g) "")
       then Game.set_gameState (Game.lastGameState g) g
       else Game.set_gameState "menu" g
  else g.

Definition updateSettings (lib : Strings) (f : Frame) (g : Game.t)
  : M (Game.t * list WindowSize) :=
  if Game.customInput g then customDialog lib f g
  else if mouseLeftJustPressed (sim f)
  then
    let (x, y) := cursorPosition f in
    let xf := Go.float64 x in
    let yf := Go.float64 y in
    let (g, calls) :=
      if inBox xf yf SettingsPage.ddX SettingsPage.ddY
               SettingsPage.ddW SettingsPage.ddH
      then (set_dropdownOpen (negb (Game.dropdownOpen g)) g, [])
      else if Game.dropdownOpen g
           then clickOption xf yf (indexed screenSizes) g
           else (g, []) in
    ret (backButton xf yf g, calls)
  else ret (g, []).

(** *** The start menu *)

Module MenuPage.
Definition cardH : float := 420.
Definition cardY : float := (Go.float64 screenHeight / 2 - cardH / 2)%float.
Definition btnY : float := (cardY + cardH - btnH - 24)%float.
End MenuPage.

(** The runes the name field takes. *)
Definition nameChar (r : Z) : bool :=
  (r =? 95) || (r =? 45) || (97 <=? r) && (r <=? 122)
  || (65 <=? r) && (r <=? 90) || (48 <=? r) && (r <=? 57).

Definition typeName (s : string) (rs : list Z) : string :=
  fold_left (fun s r => if (len s <? 12) && nameChar r
                        then String.append s (runeString r) else s) rs s.

Definition updateMenu (f : Frame) (g : Game.t) : M Game.t :=
  let g := set_usernameInput
             (typeName (Game.usernameInput g) (inputChars f)) g in
  let g := if backspaceJustPressed f && (0 <? len (Game.usernameInput g))
           then set_usernameInput (dropLast (Game.usernameInput g)) g
           else g in
  g <- (if enterJustPressed f && (0 <? len (Game.usernameInput g))
        then
          let g := set_username (Game.usernameInput g) g in
          g <- Reset g ;;
          ret (Game.set_gameState "playing" g)
        else ret g) ;;
  ret (if mouseLeftJustPressed (sim f)
       then
         let (x, y) := cursorPosition f in
         if inBox (Go.float64 x) (Go.float64 y)
                  btnX MenuPage.btnY btnW btnH
         then Game.set_gameState "settings" (set_lastGameState "menu" g)
         else g
       else g).

(** *** The death screen *)

Module DeadPage.
Definition cardH : float := 300.
Definition cardY : float := (Go.float64 screenHeight / 2 - cardH / 2)%float.
Definition menuBtnY : float := (cardY + cardH - btnH * 3 - 24 - 16)%float.
Definition playAgainBtnY : float := (menuBtnY + btnH + 16)%float.
Definition settingsBtnY : float := (playAgainBtnY + btnH + 16)%float.
End DeadPage.

(** [g.Reset()] followed by [g.gameState = mode]. *)
Definition restart (mode : string) (g : Game.t) : M Game.t :=
  g <- Reset g ;; ret (Game.set_gameState mode g).

Definition deadButtons (xf yf : float) (g : Game.t) : M Game.t :=
  g <- (if inBox xf yf btnX DeadPage.menuBtnY btnW btnH
        then restart "menu" g else ret g) ;;
  g <- (if inBox xf yf btnX DeadPage.playAgainBtnY btnW btnH
        then restart "playing" g else ret g) ;;
  ret (if inBox xf yf btnX DeadPage.settingsBtnY btnW btnH
       then Game.set_gameState "settings" (set_lastGameState "dead" g)
       else g).

Definition updateDead (f : Frame) (g : Game.t) : M Game.t :=
  g <- (if mouseLeftJustPressed (sim f)
        then let (x, y) := cursorPosition f in
             deadButtons (Go.float64 x) (Go.float64 y) g
        else ret g) ;;
  g <- (if enterJustPressed f then restart "playing" g else ret g) ;;
  (if escapeJustPressed f then restart "menu" g else ret g).

(** *** [Game.Update]

    The game as the call leaves it, by a return or by a panic, with the
    window sizes it was given; the error it returns is nil on every path.
    [UpdatePlaying] starts with the assignment to [g.keys], like the other
    branches. *)
Definition Update (lib : Strings) (f : Frame) (g : Game.t)
  : M (Game.t * list WindowSize) :=
  let g := Game.set_keys (pressed (sim f)) g in
  if String.eqb (Game.gameState g) "settings"
  then updateSettings lib f g
  else if String.eqb (Game.gameState g) "menu"
  then g <- updateMenu f g ;; ret (g, [])
  else if String.eqb (Game.gameState g) "dead"
  then g <- updateDead f g ;; ret (g, [])
  else g <- UpdatePlaying (sim f) g ;; ret (g, []).

(** Consecutive calls of [Update], one frame each, with the window sizes
    asked for on the way.  A run of the program is such a sequence, up to
    the first call that panics. *)
Fixpoint runFrames (lib : Strings) (fs : list Frame) (g : Game.t)
  : M (Game.t * list WindowSize) :=
  match fs with
  | [] => ret (g, [])
  | f :: rest =>
      r <- Update lib f g ;;
      r' <- runFrames lib rest (fst r) ;;
      ret (fst r', snd r ++ snd r')
  end.

(** Every byte of [s], read as a rune, passes the test [P]. *)
Fixpoint allChars (P : Z -> bool) (s : string) : bool :=
  match s with
  | EmptyString => true
  | String c s' => P (Z.of_N (Ascii.N_of_ascii c)) && allChars P s'
  end.

(** A name as the start menu lets it be typed: at most twelve bytes, each
    of them a letter, a digit, '_' or '-'. *)
Definition plainName (s : string) : Prop :=
  len s <= 12 /\ allChars nameChar s = true.

(** The modes [Update] tells apart, those the settings page returns to, and
    the name that is there whenever a game is or was in play. *)
Definition modeOk (g : Game.t) : Prop :=
  (Game.gameState g = "menu"%string \/ Game.gameState g = "playing"%string \/
   Game.gameState g = "dead"%string \/ Game.gameState g = "settings"%string)
  /\
  (Game.lastGameState g = ""%string \/
   Game.lastGameState g = "menu"%string \/
   Game.lastGameState g = "dead"%string) /\
  (Game.username g = ""%string ->
   Game.gameState g <> "playing"%string /\
   Game.gameState g <> "dead"%string /\
   Game.lastGameState g <> "dead"%string).

(** The selection is one of the four rows, and the fourth stands for a
    custom size above 100 on both sides. *)
Definition screenOk (g : Game.t) : Prop :=
  0 <= Game.selectedScreen g <= 3 /\
  (Game.selectedScreen g = 3 ->
   100 < Game.customWidth g /\ 100 < Game.customHeight g).

(** The window size of [g]'s selection: twice the size of the row, or
    twice the custom size for the last row. *)
Definition windowFor (g : Game.t) : WindowSize :=
  match nth_error screenSizes (Z.to_nat (Game.selectedScreen g)) with
  | Some (_, W, H) =>
      if Game.selectedScreen g =? 3
      then (Game.customWidth g * 2, Game.customHeight g * 2)
      else (W * 2, H * 2)
  | None => (0, 0)
  end.

(** [strconv.Atoi] returns an [int]. *)
Definition atoiInt (lib : Strings) : Prop :=
  forall s, - 2 ^ 63 <= fst (Atoi lib s) < 2 ^ 63.

(** ** Examples for the pages *)

(** A library for the examples: [Split] cuts at each byte equal to the
    first byte of the separator, [TrimSpace] drops blanks at both ends, and
    [Atoi] reads a run of decimal digits that stays below [2 ^ 63]. *)
Fixpoint splitAt (c : Ascii.ascii) (s : string) : list string :=
  match s with
  | EmptyString => [EmptyString]
  | String a s' =>
      match splitAt c s' with
      | h :: t => if Ascii.eqb a c then EmptyString :: h :: t
                  else String a h :: t
      | [] => []
      end
  end.

Fixpoint trimLeft (s : string) : string :=
  match s with
  | String a s' => if Ascii.eqb a Ascii.Space then trimLeft s' else s
  | EmptyString => s
  end.

Fixpoint trimRight (s : string) : string :=
  match s with
  | String a s' =>
      match trimRight s' with
      | EmptyString =>
          if Ascii.eqb a Ascii.Space then EmptyString else String a EmptyString
      | t => String a t
      end
  | EmptyString => s
  end.

Fixpoint digitsValue (acc : Z) (s : string) : option Z :=
  match s with
  | EmptyString => Some acc
  | String a s' =>
      let d := Z.of_N (Ascii.N_of_ascii a) - 48 in
      if (0 <=? d) && (d <=? 9) then digitsValue (acc * 10 + d) s' else None
  end.

Definition sampleStrings : Strings :=
  {| Split := fun s sep =>
       match sep with
       | String c _ => splitAt c s
       | EmptyString => [s]
       end;
     TrimSpace := fun s => trimRight (trimLeft s);
     Atoi := fun s =>
       match s, digitsValue 0 s with
       | String _ _, Some n => if n <? 2 ^ 63 then (n, false) else (0, true)
       | _, _ => (0, true)
       end |}.

Definition noInput : Input :=
  {| pressed := []; mouseLeftJustPressed := false |}.

Definition typing (rs : list Z) (enter : bool) : Frame :=
  {| sim := noInput; inputChars := rs; backspaceJustPressed := false;
     enterJustPressed := enter; escapeJustPressed := false;
     cursorPosition := (0, 0) |}.

Definition click (x y : Z) : Frame :=
  {| sim := {| pressed := []; mouseLeftJustPressed := true |};
     inputChars := []; backspaceJustPressed := false;
     enterJustPressed := false; escapeJustPressed := false;
     cursorPosition := (x, y) |}.

(** The rectangle of the integer points from [(x0, y0)] to [(x1, y1)],
    borders included. *)
Definition zBox (x y x0 y0 x1 y1 : Z) : bool :=
  (x0 <=? x) && (x <=? x1) && (y0 <=? y) && (y <=? y1).

(** One axis of [inBox]. *)
Definition inSpan (vf lo len : float) : bool :=
  (lo <=? vf)%float && (vf <=? lo + len)%float.

(** [inSpan] at the integer [v] is the test [lo' <= v <= hi']. *)
Definition spanIs (lo len : float) (lo' hi' : Z) (v : Z) : bool :=
  Bool.eqb (inSpan (Go.float64 v) lo len) ((lo' <=? v) && (v <=? hi')).

(** The top edge of row [i] of the open dropdown. *)
Definition optY (i : Z) : float :=
  (SettingsPage.ddY + SettingsPage.ddH
   + Go.float64 i * SettingsPage.ddH)%float.

(** The mode the Back button of the settings page leads to. *)
Definition backTarget (g : Game.t) : string :=
  if negb (String.eqb (Game.lastGameState g) "")
  then Game.lastGameState g else "menu"%string.

(** The dropdown part of a click on the settings page. *)
Definition dropdownClick (xf yf : float) (g : Game.t)
  : Game.t * list WindowSize :=
  if inBox xf yf SettingsPage.ddX SettingsPage.ddY
           SettingsPage.ddW SettingsPage.ddH
  then (set_dropdownOpen (negb (Game.dropdownOpen g)) g, [])
  else if Game.dropdownOpen g
       then clickOption xf yf (indexed screenSizes) g
       else (g, []).

(** The fields of the simulation. *)
Definition simOf (g : Game.t) :=
  (Game.viewport g, Game.player g, Game.bullets g, Game.enemies g,
   Game.enemyBullets g, Game.spawnCounter g, Game.spawnInterval g,
   Game.elapsedFrames g, Game.score g).

(** ** [getTopScores] *)

(** What [getTopScores] takes from the runtime and the library: the order
    in which [range] visits a map, which Go leaves open, [sort.Slice] with
    the comparison as a test on two elements, and [fmt.Sprintf("%d", _)]. *)
Record Runtime := {
  rangeOrder : gmap string Z -> list (string * Z);
  sortSlice : (string * Z -> string * Z -> bool) ->
              list (string * Z) -> list (string * Z);
  Sprintd : Z -> string
}.

(** [pairs[i].Score > pairs[j].Score]. *)
Definition byScore (a b : string * Z) : bool := snd b <? snd a.

Definition getTopScores (rt : Runtime) (n : Z) : M (list (string * string)) :=
  fun w =>
    let pairs := rangeOrder rt (entries (scores w)) in
    let pairs := sortSlice rt byScore pairs in
    (List.map (fun p => (fst p, Sprintd rt (snd p)))
              (firstn (Z.to_nat n) pairs), w).

(** [range] visits every entry of the map once. *)
Definition rangeVisitsAll (rt : Runtime) : Prop :=
  forall m, Permutation (rangeOrder rt m) (map_to_list m).

(** No pair is ahead of one with a larger score. *)
Definition scoresDescend (l : list (string * Z)) : Prop :=
  StronglySorted (fun a b => snd b <= snd a) l.

(** [sort.Slice] by score reorders the slice so that the scores descend. *)
Definition sortsByScore (rt : Runtime) : Prop :=
  forall l, Permutation (sortSlice rt byScore l) l /\
            scoresDescend (sortSlice rt byScore l).

(** A runtime for the examples: the order of [map_to_list], merge sort, and
    a [Sprintf] that knows the numbers from 0 to 9. *)
Definition sampleRuntime : Runtime :=
  {| rangeOrder := map_to_list;
     sortSlice := fun less =>
       @merge_sort _ (fun a b => less b a = false)
                   (fun a b => bool_eq_dec (less b a) false);
     Sprintd := fun z =>
       if (0 <=? z) && (z <=? 9)
       then String (Ascii.ascii_of_N (Z.to_N (48 + z))) EmptyString
       else "?"%string |}.

(** * Facts about binary64 arithmetic

    The comparisons and the sums the proofs below rely on, derived from the
    specification of the primitive operations ([FloatAxioms]) over
    [SpecFloat]. *)

Module F64Facts.
Import F64.

Lemma SFcompare_antisym (x y : spec_float) :
  SFcompare y x = option_map CompOpp (SFcompare x y).
Proof.
  destruct x as [sx|sx| |sx mx ex], y as [sy|sy| |sy my ey]; simpl;
    try reflexivity;
    try (destruct sx; reflexivity); try (destruct sy; reflexivity);
    try (destruct sx, sy; reflexivity).
  destruct sx, sy; try reflexivity;
    rewrite (Z.compare_antisym ex ey); destruct (ex ?= ey); simpl;
    try reflexivity;
    rewrite !Pos.compare_cont_spec; simpl;
    rewrite (Pos.compare_antisym mx my);
    destruct (mx ?= my)%positive; reflexivity.
Qed.

Lemma SFcompare_refl (x : spec_float) :
  x <> S754_nan -> SFcompare x x = Some Eq.
Proof.
  destruct x as [s|s| |s m e]; simpl; intros H; try congruence;
    try (destruct s; reflexivity).
  destruct s;
    rewrite Z.compare_refl, Pos.compare_cont_spec, Pos.compare_refl;
    reflexivity.
Qed.

Lemma SFcompare_number (x y : spec_float) :
  x <> S754_nan -> y <> S754_nan -> exists c, SFcompare x y = Some c.
Proof. destruct x, y; simpl; intros; try congruence; eauto. Qed.

Lemma isNumber_spec (x : float) :
  isNumber x = true <-> Prim2SF x <> S754_nan.
Proof.
  unfold isNumber, is_nan.
  rewrite negb_involutive, FloatAxioms.eqb_spec. unfold SFeqb. split.
  - intros H E. rewrite E in H. discriminate.
  - intros H. rewrite SFcompare_refl by assumption. reflexivity.
Qed.

(** [<] is irreflexive, also on NaN and the infinities. *)
Lemma ltb_irrefl (x : float) : (x <? x)%float = false.
Proof.
  rewrite FloatAxioms.ltb_spec. unfold SFltb.
  destruct (Prim2SF x) as [s|s| |s m e] eqn:E; simpl; try reflexivity;
    try (destruct s; reflexivity).
  destruct s;
    rewrite Z.compare_refl, Pos.compare_cont_spec, Pos.compare_refl;
    reflexivity.
Qed.

Lemma ltb_false_leb (x y : float) :
  isNumber x = true -> isNumber y = true ->
  (x <? y)%float = false -> (y <=? x)%float = true.
Proof.
  rewrite !isNumber_spec, FloatAxioms.ltb_spec, FloatAxioms.leb_spec.
  unfold SFltb, SFleb. intros Hx Hy.
  rewrite (SFcompare_antisym (Prim2SF x) (Prim2SF y)).
  destruct (SFcompare_number _ _ Hx Hy) as [c ->].
  destruct c; simpl; congruence.
Qed.

Lemma ltb_true_leb_false (x y : float) :
  (x <? y)%float = true -> (y <=? x)%float = false.
Proof.
  rewrite FloatAxioms.ltb_spec, FloatAxioms.leb_spec.
  unfold SFltb, SFleb.
  rewrite (SFcompare_antisym (Prim2SF x) (Prim2SF y)).
  destruct (SFcompare (Prim2SF x) (Prim2SF y)) as [[]|]; simpl; congruence.
Qed.

(** For a number, failing [0 < x] is [x <= 0]. *)
Lemma not_pos_iff_leb (x : float) :
  isNumber x = true ->
  ((0 <? x)%float = false <-> (x <=? 0)%float = true).
Proof.
  intros N. split.
  - apply ltb_false_leb; [reflexivity|exact N].
  - intros H. destruct (0 <? x)%float eqn:E; [|reflexivity].
    apply ltb_true_leb_false in E. congruence.
Qed.

Lemma leb_isNumber (x y : float) :
  (x <=? y)%float = true -> isNumber x = true /\ isNumber y = true.
Proof.
  rewrite !isNumber_spec, FloatAxioms.leb_spec. unfold SFleb.
  destruct (Prim2SF x), (Prim2SF y); simpl; intros H; split; congruence.
Qed.

(** Right shifts and rounding keep a mantissa non-negative, so rounding
    never produces NaN. *)
Lemma shr_1_nonneg (r : shr_record) : 0 <= shr_m r -> 0 <= shr_m (shr_1 r).
Proof.
  destruct r as [m r s]. simpl. intros H.
  destruct m as [|p|p]; simpl; [lia| |lia].
  destruct p; simpl; lia.
Qed.

Lemma iter_shr_1_nonneg (p : positive) :
  forall r, 0 <= shr_m r -> 0 <= shr_m (SpecFloat.iter_pos shr_1 p r).
Proof.
  induction p as [p IH|p IH|]; simpl; intros r H.
  - apply IH, IH, shr_1_nonneg, H.
  - apply IH, IH, H.
  - apply shr_1_nonneg, H.
Qed.

Lemma shr_record_of_loc_m (m : Z) (l : location) :
  shr_m (shr_record_of_loc m l) = m.
Proof. destruct l as [|[]]; reflexivity. Qed.

Lemma shr_fexp_nonneg (m e : Z) (l : location) :
  0 <= m -> 0 <= shr_m (fst (shr_fexp prec emax m e l)).
Proof.
  intros H. unfold shr_fexp, shr.
  destruct (fexp prec emax (Zdigits2 m + e) - e) as [|p|p]; simpl;
    try (rewrite shr_record_of_loc_m; exact H).
  apply iter_shr_1_nonneg. rewrite shr_record_of_loc_m; exact H.
Qed.

Lemma round_nearest_even_nonneg (m : Z) (l : location) :
  0 <= m -> 0 <= round_nearest_even m l.
Proof.
  intros H. destruct l as [|[]]; simpl; try lia. destruct (Z.even m); lia.
Qed.

Lemma binary_round_aux_rounded (s : bool) (m e : Z) (l : location) :
  0 <= m -> rounded s (binary_round_aux prec emax s m e l).
Proof.
  intros H. unfold binary_round_aux.
  pose proof (shr_fexp_nonneg m e l H) as H1.
  destruct (shr_fexp prec emax m e l) as [mrs' e']. simpl in H1.
  pose proof (shr_fexp_nonneg _ e' loc_Exact
                (round_nearest_even_nonneg _ (loc_of_shr_record mrs') H1))
    as H2.
  destruct (shr_fexp prec emax _ e' loc_Exact) as [mrs'' e'']. simpl in H2.
  destruct (shr_m mrs'') as [|p|p]; [constructor| |lia].
  destruct (e'' <=? emax - prec); constructor.
Qed.

Lemma rounded_number (s : bool) (x : spec_float) :
  rounded s x -> x <> S754_nan.
Proof. destruct 1; discriminate. Qed.

Lemma binary_normalize_number (m e : Z) (sz : bool) :
  binary_normalize prec emax m e sz <> S754_nan.
Proof.
  destruct m as [|p|p]; simpl; try discriminate; unfold binary_round;
    destruct (shl_align _ _ _) as [mz ez];
    apply (rounded_number _ _
             (binary_round_aux_rounded _ _ _ _ (Pos2Z.is_nonneg _))).
Qed.

Lemma SFadd_number (x y : spec_float) :
  x <> S754_nan -> SFfinite y -> SFadd prec emax x y <> S754_nan.
Proof.
  intros Hx Hy. destruct y as [| | |s m e]; try contradiction.
  destruct x as [sx|sx| |sx mx ex]; simpl; try congruence.
  apply binary_normalize_number.
Qed.

Lemma SFsub_number (x y : spec_float) :
  x <> S754_nan -> SFfinite y -> SFsub prec emax x y <> S754_nan.
Proof.
  intros Hx Hy. destruct y as [| | |s m e]; try contradiction.
  destruct x as [sx|sx| |sx mx ex]; simpl; try congruence.
  apply binary_normalize_number.
Qed.

Lemma add_isNumber (x c : float) :
  isNumber x = true -> SFfinite (Prim2SF c) -> isNumber (x + c) = true.
Proof.
  rewrite !isNumber_spec, FloatAxioms.add_spec. apply SFadd_number.
Qed.

Lemma sub_isNumber (x c : float) :
  isNumber x = true -> SFfinite (Prim2SF c) -> isNumber (x - c) = true.
Proof.
  rewrite !isNumber_spec, FloatAxioms.sub_spec. apply SFsub_number.
Qed.

(** Squares and their sums are never negative. *)
Lemma rounded_nonneg (x : spec_float) : rounded false x -> SFnonneg x.
Proof. destruct 1; reflexivity. Qed.

Lemma SFmul_self_nonneg (x : spec_float) : SFnonneg (SFmul prec emax x x).
Proof.
  destruct x as [s|s| |s m e]; simpl; try exact I;
    try (destruct s; reflexivity).
  replace (xorb s s) with false by (destruct s; reflexivity).
  apply rounded_nonneg, binary_round_aux_rounded, Pos2Z.is_nonneg.
Qed.

Lemma SFadd_nonneg (x y : spec_float) :
  SFnonneg x -> SFnonneg y -> SFnonneg (SFadd prec emax x y).
Proof.
  destruct x as [sx|sx| |sx mx ex], y as [sy|sy| |sy my ey]; simpl;
    intros Hx Hy; subst; try exact I; try reflexivity.
  destruct (shl_align mx ex (Z.min ex ey)) as [a ea].
  destruct (shl_align my ey (Z.min ex ey)) as [b eb]. simpl.
  unfold binary_round. destruct (shl_align _ _ _) as [mz ez].
  apply rounded_nonneg, binary_round_aux_rounded, Pos2Z.is_nonneg.
Qed.

Lemma sum_of_squares_nonneg (a b : float) :
  SFnonneg (Prim2SF (a * a + b * b)).
Proof.
  rewrite FloatAxioms.add_spec, !FloatAxioms.mul_spec.
  apply SFadd_nonneg; apply SFmul_self_nonneg.
Qed.

Lemma zero_spec : Prim2SF 0 = S754_zero false.
Proof. reflexivity. Qed.

(** A sum of squares that is a number and not zero is above zero. *)
Lemma sum_of_squares_pos (a b : float) :
  isNumber (a * a + b * b) = true ->
  (a * a + b * b =? 0)%float = false ->
  (0 <? a * a + b * b)%float = true.
Proof.
  rewrite isNumber_spec, FloatAxioms.eqb_spec, FloatAxioms.ltb_spec.
  rewrite zero_spec. pose proof (sum_of_squares_nonneg a b) as H.
  unfold SFeqb, SFltb.
  destruct (Prim2SF (a * a + b * b)) as [s|s| |s m e]; simpl in *;
    subst; intros N E; try congruence; reflexivity.
Qed.

Lemma eqb_zero_not_pos (d : float) :
  (d =? 0)%float = true -> (0 <? d)%float = false.
Proof.
  rewrite FloatAxioms.eqb_spec, FloatAxioms.ltb_spec, zero_spec.
  unfold SFeqb, SFltb.
  destruct (Prim2SF d) as [s|s| |s m e]; simpl; try reflexivity;
    destruct s; simpl; congruence.
Qed.

(** ** Square roots of positive floats are positive

    A right shift by the amount [fexp] asks for leaves a positive mantissa
    positive as long as its leading bit stands above [emin]; the root of a
    valid float does. *)
Lemma digits2_pos_bounds (p : positive) :
  2 ^ (Zpos (digits2_pos p) - 1) <= Zpos p < 2 ^ Zpos (digits2_pos p).
Proof.
  induction p as [p IH|p IH|]; simpl digits2_pos.
  - rewrite Pos2Z.inj_succ.
    replace (Z.succ (Z.pos (digits2_pos p)) - 1)
      with (Z.succ (Z.pos (digits2_pos p) - 1)) by lia.
    rewrite !Z.pow_succ_r by lia. lia.
  - rewrite Pos2Z.inj_succ.
    replace (Z.succ (Z.pos (digits2_pos p)) - 1)
      with (Z.succ (Z.pos (digits2_pos p) - 1)) by lia.
    rewrite !Z.pow_succ_r by lia. lia.
  - simpl. lia.
Qed.

Lemma Zdigits2_bounds (m : Z) :
  0 < m -> 0 < Zdigits2 m /\ 2 ^ (Zdigits2 m - 1) <= m < 2 ^ Zdigits2 m.
Proof.
  destruct m as [|p|p]; try lia. intros _. simpl. split; [lia|].
  apply digits2_pos_bounds.
Qed.

Lemma Zdigits2_lower (m k : Z) :
  0 < m -> 2 ^ (k - 1) <= m -> k <= Zdigits2 m.
Proof.
  intros Hm Hk. destruct (Zdigits2_bounds m Hm) as [Hd [_ Hu]].
  destruct (Z_le_gt_dec k (Zdigits2 m)) as [L|G]; [exact L|].
  assert (2 ^ Zdigits2 m <= 2 ^ (k - 1)) by (apply Z.pow_le_mono_r; lia).
  lia.
Qed.

Lemma shr_1_div2 (r : shr_record) :
  0 <= shr_m r -> shr_m (shr_1 r) = shr_m r / 2.
Proof.
  destruct r as [m r s]. simpl. intros H.
  destruct m as [|p|p]; [reflexivity| |lia].
  destruct p as [p|p|]; simpl.
  - change (Z.pos p~1) with (2 * Z.pos p + 1). apply Z.div_unique with 1; lia.
  - change (Z.pos p~0) with (2 * Z.pos p). apply Z.div_unique with 0; lia.
  - reflexivity.
Qed.

Lemma iter_shr_1_div (p : positive) :
  forall r, 0 <= shr_m r ->
            shr_m (SpecFloat.iter_pos shr_1 p r) = shr_m r / 2 ^ Zpos p.
Proof.
  induction p as [p IH|p IH|]; intros r H; simpl SpecFloat.iter_pos.
  - rewrite IH by (apply iter_shr_1_nonneg, shr_1_nonneg, H).
    rewrite IH by (apply shr_1_nonneg, H).
    rewrite shr_1_div2 by exact H.
    rewrite !Z.div_div by lia.
    f_equal. change (Z.pos p~1) with (2 * Z.pos p + 1).
    replace (2 * Z.pos p + 1) with (1 + Z.pos p + Z.pos p) by lia.
    rewrite !Z.pow_add_r by lia. lia.
  - rewrite IH by (apply iter_shr_1_nonneg, H).
    rewrite IH by exact H.
    rewrite !Z.div_div by lia.
    f_equal. change (Z.pos p~0) with (2 * Z.pos p).
    replace (2 * Z.pos p) with (Z.pos p + Z.pos p) by lia.
    rewrite !Z.pow_add_r by lia. lia.
  - rewrite shr_1_div2 by exact H. reflexivity.
Qed.

Lemma fexp_ge_emin (k : Z) : emin <= fexp prec emax k.
Proof. unfold fexp. lia. Qed.

(** A right shift by [fexp] keeps a mantissa above the smallest subnormal
    positive, and does not lower the position of its leading bit. *)
Lemma shr_fexp_pos (m e : Z) (l : location) :
  0 < m -> emin < Zdigits2 m + e ->
  let r := shr_fexp prec emax m e l in
  0 < shr_m (fst r) /\ Zdigits2 m + e <= Zdigits2 (shr_m (fst r)) + snd r.
Proof.
  intros Hm HD r. subst r. unfold shr_fexp, shr.
  destruct (Zdigits2_bounds m Hm) as [Hd [Hl Hu]].
  set (d := Zdigits2 m) in *.
  destruct (fexp prec emax (d + e) - e) as [|p|p] eqn:En; simpl;
    rewrite ?shr_record_of_loc_m; try (split; [exact Hm|fold d; lia]).
  rewrite iter_shr_1_div by (rewrite shr_record_of_loc_m; lia).
  rewrite shr_record_of_loc_m.
  assert (Hn : Zpos p <= d - 1).
  { unfold fexp in En. unfold emin, prec, emax in *. lia. }
  assert (Hq : 2 ^ (d - Zpos p - 1) <= m / 2 ^ Zpos p).
  { apply Z.div_le_lower_bound; [lia|].
    rewrite <- Z.pow_add_r by lia.
    replace (Z.pos p + (d - Z.pos p - 1)) with (d - 1) by lia. exact Hl. }
  assert (Hp : 0 < m / 2 ^ Zpos p).
  { assert (0 < 2 ^ (d - Zpos p - 1)) by (apply Z.pow_pos_nonneg; lia). lia. }
  split; [exact Hp|].
  pose proof (Zdigits2_lower (m / 2 ^ Zpos p) (d - Zpos p) Hp Hq). lia.
Qed.

Lemma Zdigits2_mono (m m' : Z) :
  0 < m -> m <= m' -> Zdigits2 m <= Zdigits2 m'.
Proof.
  intros Hm Hle.
  destruct (Zdigits2_bounds m Hm) as [Hd [Hl _]].
  apply Zdigits2_lower; lia.
Qed.

Lemma round_nearest_even_ge (m : Z) (l : location) :
  m <= round_nearest_even m l.
Proof. destruct l as [|[]]; simpl; try lia. destruct (Z.even m); lia. Qed.

(** Rounding a positive mantissa above the smallest positive subnormal
    gives a finite non-zero float or an infinity. *)
Lemma binary_round_aux_pos (s : bool) (m e : Z) (l : location) :
  0 < m -> emin < Zdigits2 m + e ->
  match binary_round_aux prec emax s m e l with
  | S754_finite s' _ _ | S754_infinity s' => s' = s
  | _ => False
  end.
Proof.
  intros Hm HD. unfold binary_round_aux.
  destruct (shr_fexp_pos m e l Hm HD) as [H1 H2].
  destruct (shr_fexp prec emax m e l) as [mrs' e']. simpl in H1, H2.
  pose proof (round_nearest_even_ge (shr_m mrs') (loc_of_shr_record mrs'))
    as Hr.
  set (m2 := round_nearest_even (shr_m mrs') (loc_of_shr_record mrs')) in *.
  assert (Hm2 : 0 < m2) by lia.
  assert (HD2 : emin < Zdigits2 m2 + e')
    by (pose proof (Zdigits2_mono _ _ H1 Hr); lia).
  destruct (shr_fexp_pos m2 e' loc_Exact Hm2 HD2) as [H3 _].
  destruct (shr_fexp prec emax m2 e' loc_Exact) as [mrs'' e'']. simpl in H3.
  destruct (shr_m mrs'') as [|p|p]; try lia.
  destruct (e'' <=? emax - prec); reflexivity.
Qed.

Lemma SFsqrt_pos (m : positive) (e : Z) :
  emin <= e ->
  match SFsqrt prec emax (S754_finite false m e) with
  | S754_finite s' _ _ | S754_infinity s' => s' = false
  | _ => False
  end.
Proof.
  intros He. unfold SFsqrt, SFsqrt_core_binary.
  set (d := Zdigits2 (Z.pos m)).
  set (e' := Z.min (fexp prec emax (Z.div2 (d + e + 1))) (Z.div2 e)).
  assert (He' : emin <= e').
  { subst e'. pose proof (fexp_ge_emin (Z.div2 (d + e + 1))).
    rewrite (Z.div2_div e). pose proof (Z.div_mod e 2).
    pose proof (Z.mod_pos_bound e 2).
    unfold emin, prec, emax in *. lia. }
  assert (Hs : 0 <= e - 2 * e').
  { subst e'. rewrite (Z.div2_div e). pose proof (Z.div_mod e 2).
    pose proof (Z.mod_pos_bound e 2). lia. }
  set (m' := match e - 2 * e' with
             | 0 => Z.pos m
             | Z.pos _ => Z.shiftl (Z.pos m) (e - 2 * e')
             | Z.neg _ => 0
             end).
  assert (Hm' : 0 < m').
  { subst m'. destruct (e - 2 * e') as [|p|p] eqn:E; try lia.
    rewrite Z.shiftl_mul_pow2 by lia.
    apply Z.mul_pos_pos; [lia|]. apply Z.pow_pos_nonneg; lia. }
  assert (Hm0 : 0 <= m') by lia.
  pose proof (Z.sqrtrem_spec m' Hm0) as Hq.
  destruct (Z.sqrtrem m') as [q r].
  assert (Hqp : 0 < q) by nia.
  apply binary_round_aux_pos; [exact Hqp|].
  destruct (Zdigits2_bounds q Hqp) as [Hd _]. lia.
Qed.

Lemma sqrt_pos (d : float) :
  (0 <? d)%float = true -> (0 <? PrimFloat.sqrt d)%float = true.
Proof.
  rewrite !FloatAxioms.ltb_spec, FloatAxioms.sqrt_spec, zero_spec.
  pose proof (FloatAxioms.Prim2SF_valid d) as V.
  unfold SFltb, SF64sqrt.
  destruct (Prim2SF d) as [s|s| |s m e] eqn:E;
    try (simpl; discriminate).
  - destruct s; [simpl; discriminate|]. intros _. reflexivity.
  - destruct s; [simpl; discriminate|]. intros _.
    assert (He : emin <= e).
    { simpl in V. unfold bounded, canonical_mantissa in V.
      apply andb_true_iff in V. destruct V as [V _].
      apply Z.eqb_eq in V.
      pose proof (fexp_ge_emin (Z.pos (digits2_pos m) + e)). lia. }
    pose proof (SFsqrt_pos m e He) as H.
    destruct (SFsqrt prec emax (S754_finite false m e)) as [s'|s'| |s' m' e'];
      try contradiction; subst s'; reflexivity.
Qed.

End F64Facts.

(** * The box-overlap test *)

Lemma self_overlap_checked :
  forallb (fun n => (Go.float64 n <? Go.float64 n + 32)%float)
          (List.map Z.of_nat (seq 0 641)) = true.
Proof. vm_compute. reflexivity. Qed.

Lemma self_overlap_axis (n : Z) :
  0 <= n <= 640 -> (Go.float64 n <? Go.float64 n + 32)%float = true.
Proof.
  intros H. pose proof self_overlap_checked as C.
  rewrite forallb_forall in C. apply C.
  apply in_map_iff. exists (Z.to_nat n). split; [lia|].
  apply in_seq. lia.
Qed.

(** C6: [rectsOverlap] is true exactly when the four strict inequalities
    hold, and it is symmetric in its two boxes.  A box moved away from
    another by exactly that box's edge along one axis does not overlap it
    (touching edges do not count), and two boxes of edge 32 at one integer
    position of the screen overlap. *)
Theorem rectsOverlap_strict_symmetric :
  (forall x1 y1 s1 x2 y2 s2 : float,
      rectsOverlap x1 y1 s1 x2 y2 s2 = true <->
      (x1 <? x2 + s2)%float = true /\ (x2 <? x1 + s1)%float = true /\
      (y1 <? y2 + s2)%float = true /\ (y2 <? y1 + s1)%float = true) /\
  (forall x1 y1 s1 x2 y2 s2 : float,
      rectsOverlap x1 y1 s1 x2 y2 s2 = rectsOverlap x2 y2 s2 x1 y1 s1) /\
  (forall x1 y1 s1 y2 s2 : float,
      rectsOverlap x1 y1 s1 (x1 + s1) y2 s2 = false) /\
  (forall x1 y1 s1 x2 s2 : float,
      rectsOverlap x1 y1 s1 x2 (y1 + s1) s2 = false) /\
  (forall x y : Z,
      0 <= x <= 640 -> 0 <= y <= 480 ->
      rectsOverlap (Go.float64 x) (Go.float64 y) 32
                   (Go.float64 x) (Go.float64 y) 32 = true) /\
  rectsOverlap 320 240 32 320 240 32 = true /\
  rectsOverlap 320 240 32 (320 + 32) 240 32 = false /\
  rectsOverlap 320 240 32 320 (240 + 32) 32 = false.
Proof.
  split; [|split; [|split; [|split; [|split]]]].
  - intros. unfold rectsOverlap. rewrite !andb_true_iff. tauto.
  - intros. unfold rectsOverlap.
    destruct (x1 <? x2 + s2)%float, (x2 <? x1 + s1)%float,
      (y1 <? y2 + s2)%float, (y2 <? y1 + s1)%float; reflexivity.
  - intros. unfold rectsOverlap. rewrite F64Facts.ltb_irrefl.
    rewrite andb_false_r. reflexivity.
  - intros. unfold rectsOverlap. rewrite F64Facts.ltb_irrefl.
    rewrite andb_false_r. reflexivity.
  - intros x y Hx Hy. unfold rectsOverlap.
    rewrite (self_overlap_axis x Hx), (self_overlap_axis y); [reflexivity|].
    lia.
  - repeat split.
Qed.

(** The player's box at the right edge of the arena and a copy of it. *)
Lemma rectsOverlap_strict_symmetric_witness :
  rectsOverlap 608 448 32 608 448 32 = true.
Proof.
  destruct rectsOverlap_strict_symmetric as (_ & _ & _ & _ & H & _).
  apply (H 608 448); lia.
Defined.

(** * The player stays inside the arena *)

Lemma speed_finite : F64.SFfinite (Prim2SF speed).
Proof. vm_compute. exact I. Qed.

Lemma arena_right : (Go.float64 screenWidth - 32)%float = 608%float.
Proof. vm_compute. reflexivity. Qed.

Lemma arena_bottom : (Go.float64 screenHeight - 32)%float = 448%float.
Proof. vm_compute. reflexivity. Qed.

(** Moving by [speed] in either direction, or in both, keeps a number. *)
Lemma moved_isNumber (v : float) (back forth : bool) :
  F64.isNumber v = true ->
  F64.isNumber
    (let v := if back then (v - speed)%float else v in
     if forth then (v + speed)%float else v) = true.
Proof.
  intros H. destruct back, forth; simpl; auto;
    repeat first [ apply F64Facts.add_isNumber | apply F64Facts.sub_isNumber ];
    auto using speed_finite.
Qed.

(** The two clamps put a number between [0] and [hi]. *)
Lemma clamp_bounds (v hi : float) :
  F64.isNumber v = true -> (0 <=? hi)%float = true ->
  let v1 := if (v <? 0)%float then 0%float else v in
  let v2 := if (hi <? v1)%float then hi else v1 in
  (0 <=? v2)%float = true /\ (v2 <=? hi)%float = true.
Proof.
  intros Hv Hhi v1 v2.
  assert (H0 : F64.isNumber 0 = true) by reflexivity.
  assert (Hh : F64.isNumber hi = true)
    by (apply (F64Facts.leb_isNumber _ _ Hhi)).
  assert (H1 : (0 <=? v1)%float = true).
  { subst v1. destruct (v <? 0)%float eqn:E; [reflexivity|].
    apply F64Facts.ltb_false_leb; assumption. }
  assert (N1 : F64.isNumber v1 = true)
    by (apply (F64Facts.leb_isNumber _ _ H1)).
  subst v2. destruct (hi <? v1)%float eqn:E.
  - split; [assumption|]. apply F64Facts.ltb_false_leb; try assumption.
    apply F64Facts.ltb_irrefl.
  - split; [assumption|]. apply F64Facts.ltb_false_leb; assumption.
Qed.

Lemma movePlayer_Size (inp : Input) (p : Player.t) :
  Player.Size (movePlayer inp p) = Player.Size p.
Proof. reflexivity. Qed.

Lemma movePlayer_inArena (inp : Input) (p : Player.t) :
  Player.Size p = 32%float ->
  F64.isNumber (Player.X p) = true -> F64.isNumber (Player.Y p) = true ->
  inArena (movePlayer inp p) = true.
Proof.
  intros HS HX HY. unfold inArena. rewrite movePlayer_Size, HS.
  rewrite arena_right, arena_bottom.
  unfold movePlayer. simpl. rewrite HS, arena_right, arena_bottom.
  pose proof (moved_isNumber (Player.X p)
                (IsKeyPressed inp KeyA || IsKeyPressed inp KeyArrowLeft)
                (IsKeyPressed inp KeyD || IsKeyPressed inp KeyArrowRight) HX)
    as NX.
  pose proof (moved_isNumber (Player.Y p)
                (IsKeyPressed inp KeyW || IsKeyPressed inp KeyArrowUp)
                (IsKeyPressed inp KeyS || IsKeyPressed inp KeyArrowDown) HY)
    as NY.
  simpl in NX, NY.
  destruct (clamp_bounds _ 608 NX eq_refl) as [X0 X1].
  destruct (clamp_bounds _ 448 NY eq_refl) as [Y0 Y1].
  rewrite X0, X1, Y0, Y1. reflexivity.
Qed.

(** * What a tick writes

    Each block of the tick is a chain of field updates on the game it
    receives; the lemmas below name the fields, so that every other field is
    read off by computation. *)

Lemma die_fields (g : Game.t) (w : World) :
  fst (die g w) =
  if newRecord g w && nilTable w
  then Game.set_deathScore (Game.score g) g
  else Game.set_gameState "dead" (Game.set_deathScore (Game.score g) g).
Proof.
  unfold die, bind, getScore, ret, newRecord, nilTable, storedScore, getScore.
  simpl.
  destruct (_ && _); [|reflexivity].
  unfold putScore, saveScores; simpl.
  destruct (HighScores (scores w)); simpl; [destruct (createOk w)|];
    reflexivity.
Qed.

Lemma playerCollisions_fields (g : Game.t) (w : World) :
  exists ebs st ds,
    fst (playerCollisions g w) =
    Game.set_gameState st
      (Game.set_deathScore ds (Game.set_enemyBullets ebs g)).
Proof.
  unfold playerCollisions. destruct (Game.player g) as [p|].
  - destruct (existsb (enemyBulletHits p) _).
    + rewrite die_fields. destruct (_ && _).
      * eexists _, (Game.gameState g), (Game.score g). reflexivity.
      * eexists _, _, _. reflexivity.
    + destruct (existsb _ _).
      * rewrite die_fields. destruct (_ && _).
        -- eexists _, (Game.gameState g), (Game.score g). reflexivity.
        -- eexists _, _, _. reflexivity.
      * eexists _, (Game.gameState g), (Game.deathScore g). reflexivity.
  - exists (Game.enemyBullets g), (Game.gameState g), (Game.deathScore g).
    destruct g; reflexivity.
Qed.

Lemma bulletsVsEnemies_fields (g : Game.t) :
  exists bs es sc,
    bulletsVsEnemies g =
    Game.set_bullets bs (Game.set_enemies es (Game.set_score sc g)).
Proof.
  unfold bulletsVsEnemies.
  destruct (collideBullets _ _ _ _) as [[es sc] bs].
  eexists _, _, _. reflexivity.
Qed.

Lemma updateEnemies_fields (g : Game.t) (w : World) :
  exists es ebs,
    fst (updateEnemies g w) =
    Game.set_enemyBullets ebs (Game.set_enemies es g).
Proof.
  unfold updateEnemies, bind, ret.
  destruct (moveEnemies _ _ _ _ w) as [[es ebs] w'].
  eexists _, _. reflexivity.
Qed.

Lemma spawnEnemies_fields (g : Game.t) (w : World) :
  exists c es,
    fst (spawnEnemies g w) =
    Game.set_enemies es (Game.set_spawnCounter c g).
Proof.
  unfold spawnEnemies, bind, ret.
  destruct (_ <=? _).
  - destruct (spawnBatch _ _ w) as [es w']. eexists _, _. reflexivity.
  - exists (Go.add (Game.spawnCounter g) 1), (Game.enemies g). reflexivity.
Qed.

(** The game as the tick leaves it, over the game after the first blocks:
    the later blocks write the spawn counter, the entity lists, the score,
    the death score and the mode, and nothing else. *)
Lemma UpdatePlaying_fields (inp : Input) (g : Game.t) (w : World) :
  exists vp c es bs ebs sc st ds,
    fst (UpdatePlaying inp g w) =
    Game.set_gameState st (Game.set_deathScore ds
      (Game.set_enemyBullets ebs (Game.set_bullets bs
        (Game.set_enemies es (Game.set_score sc (Game.set_spawnCounter c
          (rampDifficulty (shoot inp (updatePlayer inp
            (Game.set_elapsedFrames (Go.add (Game.elapsedFrames g) 1)
              (Game.set_viewport vp
                (Game.set_keys (pressed inp) g)))))))))))).
Proof.
  unfold UpdatePlaying, bind.
  destruct (viewport.Move _ w) as [vp w1].
  match goal with |- context [spawnEnemies ?a w1] =>
    destruct (spawnEnemies_fields a w1) as (c & es1 & E1);
    destruct (spawnEnemies a w1) as [g1 w2] end.
  simpl in E1. subst g1.
  match goal with |- context [updateEnemies ?a w2] =>
    destruct (updateEnemies_fields a w2) as (es2 & ebs2 & E2);
    destruct (updateEnemies a w2) as [g2 w3] end.
  simpl in E2. subst g2.
  match goal with |- context [bulletsVsEnemies ?a] =>
    destruct (bulletsVsEnemies_fields a) as (bs3 & es3 & sc3 & E3);
    rewrite E3; clear E3 end.
  match goal with |- context [playerCollisions ?a w3] =>
    destruct (playerCollisions_fields a w3) as (ebs4 & st & ds & E4);
    rewrite E4; clear E4 end.
  exists vp, c, es3, bs3, ebs4, sc3, st, ds.
  unfold updateBullets, rampDifficulty, shoot, updatePlayer.
  simpl. destruct (Game.player g), (mouseLeftJustPressed inp); reflexivity.
Qed.

Ltac tick_fields inp g w :=
  let E := fresh "E" in
  destruct (UpdatePlaying_fields inp g w)
    as (?vp & ?c & ?es & ?bs & ?ebs & ?sc & ?st & ?ds & E);
  rewrite E; clear E;
  unfold rampDifficulty, shoot, updatePlayer; simpl;
  let P := fresh "P" in
  destruct (Game.player g) eqn:P; simpl; rewrite ?P;
  destruct (mouseLeftJustPressed inp); simpl; rewrite ?P; simpl.

Lemma UpdatePlaying_player (inp : Input) (g : Game.t) (w : World) :
  Game.player (fst (UpdatePlaying inp g w)) =
  option_map (movePlayer inp) (Game.player g).
Proof. tick_fields inp g w; reflexivity. Qed.

Lemma UpdatePlaying_timers (inp : Input) (g : Game.t) (w : World) :
  let g' := fst (UpdatePlaying inp g w) in
  Game.elapsedFrames g' = Go.add (Game.elapsedFrames g) 1 /\
  Game.spawnInterval g' =
    rampInterval (Game.elapsedFrames g') (Game.spawnInterval g).
Proof. tick_fields inp g w; split; reflexivity. Qed.

Lemma inArena_isNumber (p : Player.t) :
  inArena p = true ->
  F64.isNumber (Player.X p) = true /\ F64.isNumber (Player.Y p) = true.
Proof.
  unfold inArena. intros H.
  apply andb_true_iff in H. destruct H as [H _].
  apply andb_true_iff in H. destruct H as [H HY].
  apply andb_true_iff in H. destruct H as [HX _].
  split; [apply (F64Facts.leb_isNumber _ _ HX)|].
  apply (F64Facts.leb_isNumber _ _ HY).
Qed.

Lemma playTicks_inArena (inps : list Input) :
  forall (g : Game.t) (w : World) (p : Player.t),
    Game.player g = Some p -> Player.Size p = 32%float ->
    inArena p = true ->
    exists p',
      Game.player (fst (playTicks inps g w)) = Some p' /\
      Player.Size p' = 32%float /\ inArena p' = true.
Proof.
  induction inps as [|inp inps IH]; intros g w p HP HS HA.
  - exists p. auto.
  - simpl. unfold bind.
    pose proof (UpdatePlaying_player inp g w) as H. rewrite HP in H.
    destruct (UpdatePlaying inp g w) as [g1 w1]. simpl in H.
    destruct (inArena_isNumber p HA) as [NX NY].
    apply (IH g1 w1 (movePlayer inp p) H HS).
    apply movePlayer_inArena; assumption.
Qed.

(** C7: in a tick of the simulation, whatever keys are held, the player of
    size 32 is after the movement and the clamp (and so at the end of the
    tick) at a position with [0 <= X <= 608] and [0 <= Y <= 448], provided
    its coordinates were numbers; a player inside the arena before the tick
    is inside it after the tick, and so after any number of ticks, as is
    the player [Reset] makes. *)
Theorem player_stays_in_arena
    (inp : Input) (g : Game.t) (w : World) (p : Player.t) :
  Game.player g = Some p -> Player.Size p = 32%float ->
  let p' := movePlayer inp p in
  Game.player (updatePlayer inp g) = Some p' /\
  Game.player (fst (UpdatePlaying inp g w)) = Some p' /\
  Player.Size p' = 32%float /\
  (F64.isNumber (Player.X p) = true -> F64.isNumber (Player.Y p) = true ->
   (0 <=? Player.X p')%float = true /\ (Player.X p' <=? 608)%float = true /\
   (0 <=? Player.Y p')%float = true /\ (Player.Y p' <=? 448)%float = true) /\
  (inArena p = true -> inArena p' = true) /\
  (inArena p = true ->
   forall inps, exists q,
     Game.player (fst (playTicks inps g w)) = Some q /\
     Player.Size q = 32%float /\ inArena q = true) /\
  (forall g0 w0 inps, exists q,
     Game.player (fst (playTicks inps (fst (Reset g0 w0)) w)) = Some q /\
     Player.Size q = 32%float /\ inArena q = true).
Proof.
  intros HP HS p'.
  assert (B : F64.isNumber (Player.X p) = true ->
              F64.isNumber (Player.Y p) = true ->
              (0 <=? Player.X p')%float = true /\
              (Player.X p' <=? 608)%float = true /\
              (0 <=? Player.Y p')%float = true /\
              (Player.Y p' <=? 448)%float = true).
  { intros NX NY.
    pose proof (movePlayer_inArena inp p HS NX NY) as A.
    unfold inArena in A. fold p' in A. revert A.
    replace (Player.Size p') with 32%float by (symmetry; exact HS).
    rewrite arena_right, arena_bottom, !andb_true_iff. tauto. }
  split; [unfold updatePlayer; rewrite HP; reflexivity|].
  split; [rewrite UpdatePlaying_player, HP; reflexivity|].
  split; [exact HS|]. split; [exact B|]. split; [|split].
  - intros A. destruct (inArena_isNumber p A) as [NX NY].
    apply movePlayer_inArena; assumption.
  - intros A inps. apply (playTicks_inArena inps g w p HP HS A).
  - intros g0 w0 inps.
    apply (playTicks_inArena inps (fst (Reset g0 w0)) w
             (NewPlayer (Go.float64 (Go.quo screenWidth 2))
                        (Go.float64 (Go.quo screenHeight 2))));
      reflexivity.
Qed.

(** The tick from the centre of the screen with W and A held. *)
Lemma player_stays_in_arena_witness :
  Game.player annPlaying = Some (NewPlayer 320 240) /\
  Game.player
    (fst (UpdatePlaying
            {| pressed := [KeyW; KeyA]; mouseLeftJustPressed := false |}
            annPlaying sampleWorld)) =
  Some (movePlayer {| pressed := [KeyW; KeyA]; mouseLeftJustPressed := false |}
                   (NewPlayer 320 240)) /\
  movePlayer {| pressed := [KeyW; KeyA]; mouseLeftJustPressed := false |}
             (NewPlayer 320 240) = NewPlayer 316 236.
Proof.
  split; [reflexivity|]. split; [|reflexivity].
  apply (player_stays_in_arena
           {| pressed := [KeyW; KeyA]; mouseLeftJustPressed := false |}
           annPlaying sampleWorld (NewPlayer 320 240));
    reflexivity.
Defined.

(** * The difficulty ramp *)

Lemma wrap_small (z : Z) : - 2 ^ 63 <= z < 2 ^ 63 -> Go.wrap z = z.
Proof.
  unfold Go.wrap.
  change (2 ^ 63) with 9223372036854775808.
  change (2 ^ 64) with 18446744073709551616.
  intros H. rewrite Z.mod_small; lia.
Qed.

Lemma wrap_add_wrap (a b : Z) : Go.wrap (Go.wrap a + b) = Go.wrap (a + b).
Proof.
  unfold Go.wrap.
  replace ((a + 2 ^ 63) mod 2 ^ 64 - 2 ^ 63 + b + 2 ^ 63)
    with ((a + 2 ^ 63) mod 2 ^ 64 + b) by lia.
  rewrite Zplus_mod_idemp_l. f_equal. f_equal. lia.
Qed.

Lemma playTicks_snoc (inps : list Input) (inp : Input) :
  forall g w,
    playTicks (inps ++ [inp]) g w =
    UpdatePlaying inp (fst (playTicks inps g w)) (snd (playTicks inps g w)).
Proof.
  induction inps as [|i inps IH]; intros g w; simpl.
  - unfold bind, ret. destruct (UpdatePlaying inp g w); reflexivity.
  - unfold bind. destruct (UpdatePlaying i g w) as [g1 w1]. apply IH.
Qed.

(** The interval after [n] ticks, in closed form. *)
Lemma rampInterval_closed (n : Z) :
  0 <= n ->
  rampInterval (Go.wrap (n + 1)) (Z.max 10 (90 - 5 * (n / 120))) =
  Z.max 10 (90 - 5 * ((n + 1) / 120)).
Proof.
  intros Hn. unfold rampInterval, Go.rem, Go.sub.
  assert (P63 : 2 ^ 63 = 9223372036854775808) by reflexivity.
  assert (Q0 : 0 <= n / 120) by (apply Z.div_pos; lia).
  destruct (Z_lt_ge_dec (n + 1) (2 ^ 63)) as [Hs|Hb].
  - rewrite (wrap_small (n + 1)) by lia.
    rewrite Z.rem_mod_nonneg by lia.
    destruct (Z.eqb_spec ((n + 1) mod 120) 0) as [E|E]; simpl.
    + assert (Q : (n + 1) / 120 = n / 120 + 1)
        by (pose proof (Z.div_mod (n + 1) 120); pose proof (Z.div_mod n 120);
            pose proof (Z.mod_pos_bound n 120); lia).
      rewrite Q.
      destruct (Z.ltb_spec 10 (Z.max 10 (90 - 5 * (n / 120)))) as [L|L].
      * rewrite wrap_small by lia.
        destruct (Z.ltb_spec (Z.max 10 (90 - 5 * (n / 120)) - 5) 10); lia.
      * lia.
    + assert (Q : (n + 1) / 120 = n / 120)
        by (pose proof (Z.div_mod (n + 1) 120); pose proof (Z.div_mod n 120);
            pose proof (Z.mod_pos_bound n 120);
            pose proof (Z.mod_pos_bound (n + 1) 120); lia).
      rewrite Q. reflexivity.
  - assert (Q1 : 90 - 5 * (n / 120) <= 10)
      by (pose proof (Z.div_mod n 120); pose proof (Z.mod_pos_bound n 120);
          lia).
    assert (Q2 : 90 - 5 * ((n + 1) / 120) <= 10)
      by (pose proof (Z.div_mod (n + 1) 120);
          pose proof (Z.mod_pos_bound (n + 1) 120); lia).
    rewrite !Z.max_l by lia. rewrite andb_false_r. reflexivity.
Qed.

Lemma playTicks_from_Reset (g0 : Game.t) (w0 w : World) (inps : list Input) :
  let g := fst (playTicks inps (fst (Reset g0 w0)) w) in
  let n := Z.of_nat (length inps) in
  Game.elapsedFrames g = Go.wrap n /\
  Game.spawnInterval g = Z.max 10 (90 - 5 * (n / 120)).
Proof.
  induction inps as [|inp inps IH] using rev_ind.
  - simpl. split; reflexivity.
  - rewrite playTicks_snoc, length_app. simpl length.
    destruct IH as [IHe IHi].
    destruct (UpdatePlaying_timers inp
                (fst (playTicks inps (fst (Reset g0 w0)) w))
                (snd (playTicks inps (fst (Reset g0 w0)) w))) as [He Hi].
    cbv zeta in *.
    rewrite Hi, He, IHe, IHi. unfold Go.add.
    rewrite wrap_add_wrap.
    replace (Z.of_nat (length inps + 1)) with (Z.of_nat (length inps) + 1)
      by lia.
    split; [reflexivity|].
    apply rampInterval_closed. lia.
Qed.

(** The rule of one tick, on an interval reached from a reset. *)
Lemma rampInterval_rule (n : Z) :
  0 <= n ->
  let e := Go.wrap (n + 1) in
  let cur := Z.max 10 (90 - 5 * (n / 120)) in
  rampInterval e cur =
  if (0 <? e) && (e mod 120 =? 0) && (10 <? cur) then cur - 5 else cur.
Proof.
  intros Hn e cur. unfold rampInterval, Go.rem, Go.sub.
  assert (P63 : 2 ^ 63 = 9223372036854775808) by reflexivity.
  assert (Q0 : 0 <= n / 120) by (apply Z.div_pos; lia).
  destruct (Z.ltb_spec 10 cur) as [L|L].
  - assert (Hs : n < 1920)
      by (pose proof (Z.div_mod n 120); pose proof (Z.mod_pos_bound n 120);
          subst cur; lia).
    subst e. rewrite (wrap_small (n + 1)) by lia.
    rewrite Z.rem_mod_nonneg by lia.
    destruct (Z.ltb_spec 0 (n + 1)); [|lia]. simpl.
    rewrite andb_true_r.
    destruct (Z.eqb_spec ((n + 1) mod 120) 0); [|reflexivity].
    rewrite wrap_small by (subst cur; lia).
    destruct (Z.ltb_spec (cur - 5) 10); [|reflexivity].
    pose proof (Z.div_mod n 120). subst cur. lia.
  - rewrite !andb_false_r. reflexivity.
Qed.

(** C4: from a reset (interval 90, elapsed ticks 0) and through any ticks
    of the simulation, the spawn interval after [n] ticks is
    [max 10 (90 - 5 * (n / 120))]; a tick lowers it by exactly 5 when the
    elapsed-tick counter it reaches is a positive multiple of 120 and the
    interval is above 10, and leaves it unchanged otherwise; so it never
    grows, never falls below 10, and is 80 after 240 ticks. *)
Theorem spawnInterval_ramp
    (g0 : Game.t) (w0 w : World) (inps : list Input) (inp : Input) :
  let start := fst (Reset g0 w0) in
  let g := fst (playTicks inps start w) in
  let g' := fst (UpdatePlaying inp g (snd (playTicks inps start w))) in
  let n := Z.of_nat (length inps) in
  (Game.spawnInterval start = 90 /\ Game.elapsedFrames start = 0) /\
  Game.spawnInterval g = Z.max 10 (90 - 5 * (n / 120)) /\
  Game.spawnInterval g' =
    (if (0 <? Game.elapsedFrames g') && (Game.elapsedFrames g' mod 120 =? 0)
        && (10 <? Game.spawnInterval g)
     then Game.spawnInterval g - 5 else Game.spawnInterval g) /\
  Game.spawnInterval g' <= Game.spawnInterval g /\
  10 <= Game.spawnInterval g /\
  (n = 240 -> Game.spawnInterval g = 80).
Proof.
  intros start g g' n.
  destruct (playTicks_from_Reset g0 w0 w inps) as [He Hi].
  fold start in He, Hi. fold g in He, Hi. fold n in He, Hi.
  destruct (UpdatePlaying_timers inp g (snd (playTicks inps start w)))
    as [He' Hi'].
  fold g' in He', Hi'.
  assert (Hn : 0 <= n) by (subst n; lia).
  assert (E' : Game.elapsedFrames g' = Go.wrap (n + 1))
    by (rewrite He', He; unfold Go.add; apply wrap_add_wrap).
  assert (R : Game.spawnInterval g' =
              (if (0 <? Game.elapsedFrames g')
                  && (Game.elapsedFrames g' mod 120 =? 0)
                  && (10 <? Game.spawnInterval g)
               then Game.spawnInterval g - 5 else Game.spawnInterval g)).
  { rewrite Hi', E', Hi. apply rampInterval_rule. exact Hn. }
  split; [split; reflexivity|].
  split; [exact Hi|]. split; [exact R|].
  split; [|split].
  - rewrite R. destruct (_ && _); lia.
  - rewrite Hi. lia.
  - intros E. rewrite Hi, E. reflexivity.
Qed.

(** Two hundred and forty ticks with nothing pressed. *)
Lemma spawnInterval_ramp_witness :
  Game.spawnInterval
    (fst (playTicks
            (repeat {| pressed := []; mouseLeftJustPressed := false |} 240)
            (fst (Reset initialGame sampleWorld)) sampleWorld)) = 80.
Proof.
  apply (spawnInterval_ramp initialGame sampleWorld sampleWorld
           (repeat {| pressed := []; mouseLeftJustPressed := false |} 240)
           {| pressed := []; mouseLeftJustPressed := false |}).
  reflexivity.
Defined.

(** * Bullets against enemies *)


Lemma bulletHits_iff (b : Bullet.t) (e : Enemy.t) :
  bulletHits b e = true <->
  Enemy.Dead e = false /\ bulletOverlaps b e = true.
Proof.
  unfold bulletHits. rewrite andb_true_iff, negb_true_iff. reflexivity.
Qed.

Lemma hitEnemy_None (b : Bullet.t) (es : list Enemy.t) :
  hitEnemy b es = None <-> (forall e, In e es -> bulletHits b e = false).
Proof.
  induction es as [|e es IH]; simpl.
  - split; [intros _ e []|reflexivity].
  - destruct (bulletHits b e) eqn:E.
    + split; [discriminate|]. intros H.
      rewrite (H e (or_introl eq_refl)) in E. discriminate.
    + destruct (hitEnemy b es) as [es'|].
      * split; [discriminate|]. intros H.
        assert (A : Some es' = None)
          by (apply IH; intros x Hx; apply H; right; exact Hx).
        discriminate.
      * split; [|reflexivity]. intros _ x [<-|Hx]; [exact E|].
        apply IH; [reflexivity|exact Hx].
Qed.

(** A hit is on the first enemy, in list order, that is not dead and
    overlaps the bullet; that enemy alone is marked. *)
Lemma hitEnemy_Some (b : Bullet.t) (es es' : list Enemy.t) :
  hitEnemy b es = Some es' <->
  exists l1 e l2,
    es = l1 ++ e :: l2 /\
    (forall x, In x l1 -> bulletHits b x = false) /\
    bulletHits b e = true /\
    es' = l1 ++ set_Dead true e :: l2.
Proof.
  revert es'. induction es as [|e es IH]; intros es'; simpl.
  - split; [discriminate|].
    intros (l1 & x & l2 & E & _). destruct l1; discriminate.
  - destruct (bulletHits b e) eqn:E.
    + split.
      * intros [= <-]. exists [], e, es. repeat split; auto.
        intros x [].
      * intros (l1 & x & l2 & E1 & H1 & H2 & ->).
        destruct l1 as [|y l1]; simpl in E1; injection E1 as Ea Eb; subst.
        -- reflexivity.
        -- rewrite (H1 y (or_introl eq_refl)) in E. discriminate.
    + split.
      * destruct (hitEnemy b es) as [rest'|] eqn:Hh; [|discriminate].
        intros [= <-].
        destruct (proj1 (IH rest') eq_refl)
          as (l1 & x & l2 & -> & H1 & H2 & ->).
        exists (e :: l1), x, l2. repeat split; auto.
        intros y [<-|Hy]; auto.
      * intros (l1 & x & l2 & E1 & H1 & H2 & ->).
        destruct l1 as [|y l1]; simpl in E1; injection E1 as Ea Eb; subst.
        -- rewrite H2 in E. discriminate.
        -- rewrite (proj2 (IH (l1 ++ set_Dead true x :: l2))); [reflexivity|].
           exists l1, x, l2. repeat split; auto.
           intros z Hz. apply H1. right. exact Hz.
Qed.

Lemma removeDead_app (l1 l2 : list Enemy.t) :
  removeDead (l1 ++ l2) = removeDead l1 ++ removeDead l2.
Proof. unfold removeDead. apply List.filter_app. Qed.


Lemma removeDead_In (es : list Enemy.t) (e : Enemy.t) :
  In e (removeDead es) -> Enemy.Dead e = false.
Proof.
  unfold removeDead. intros H. apply List.filter_In in H.
  destruct H as [_ H]. apply negb_true_iff in H. exact H.
Qed.

(** A hit takes exactly one enemy out of those that are not dead. *)
Lemma hitEnemy_alive (b : Bullet.t) (es es' : list Enemy.t) :
  hitEnemy b es = Some es' ->
  length es' = length es /\
  S (length (removeDead es')) = length (removeDead es).
Proof.
  intros H. apply hitEnemy_Some in H.
  destruct H as (l1 & e & l2 & -> & _ & He & ->).
  apply bulletHits_iff in He. destruct He as [Hd _].
  rewrite !length_app. simpl. split; [reflexivity|].
  rewrite !removeDead_app, !length_app. simpl. rewrite Hd. simpl. lia.
Qed.

(** The pass as a whole: the bullets kept are appended in order, and every
    bullet not kept has marked one enemy and added one to the score. *)
Lemma collideBullets_counts (bs : list Bullet.t) :
  forall (es : list Enemy.t) (sc : Z) (rem : list Bullet.t),
  exists kept consumed,
    snd (collideBullets bs es sc rem) = rem ++ kept /\
    length bs = (length kept + consumed)%nat /\
    length (removeDead es) =
      (length (removeDead (fst (fst (collideBullets bs es sc rem))))
       + consumed)%nat /\
    snd (fst (collideBullets bs es sc rem)) =
      Nat.iter consumed (fun s => Go.add s 1) sc /\
    (forall b, In b kept -> In b bs).
Proof.
  induction bs as [|b bs IH]; intros es sc rem; simpl.
  - exists [], 0%nat. rewrite app_nil_r. repeat split; auto.
  - destruct (hitEnemy b es) as [es'|] eqn:Hh.
    + destruct (IH es' (Go.add sc 1) rem)
        as (kept & k & E1 & E2 & E3 & E4 & E5).
      destruct (hitEnemy_alive _ _ _ Hh) as [_ Ha].
      exists kept, (S k). repeat split.
      * exact E1.
      * lia.
      * lia.
      * rewrite E4. rewrite Nat.iter_succ_r. reflexivity.
      * intros x Hx. right. apply E5, Hx.
    + destruct (IH es sc (rem ++ [b]))
        as (kept & k & E1 & E2 & E3 & E4 & E5).
      exists (b :: kept), k. repeat split.
      * rewrite E1, <- app_assoc. reflexivity.
      * simpl. lia.
      * exact E3.
      * exact E4.
      * intros x [<-|Hx]; [left; reflexivity|right; apply E5, Hx].
Qed.

Lemma bulletHits_miss (b : Bullet.t) (e : Enemy.t) :
  bulletOverlaps b e = false -> bulletHits b e = false.
Proof. unfold bulletHits. intros ->. apply andb_false_r. Qed.



Lemma add_one_exact (sc : Z) :
  - 2 ^ 63 <= sc < 2 ^ 63 - 1 -> Go.add sc 1 = sc + 1.
Proof.
  intros H. unfold Go.add. apply wrap_small.
  change (2 ^ 63) with 9223372036854775808 in *. lia.
Qed.



(** * Player bullets: spawning, flight and removal *)

Lemma UpdatePlaying_split (inp : Input) (g : Game.t) (w : World) :
  UpdatePlaying inp g w =
  playerCollisions (bulletsVsEnemies (fst (beforeCollisions inp g w)))
                   (snd (beforeCollisions inp g w)).
Proof.
  unfold UpdatePlaying, beforeCollisions, bind, ret.
  destruct (viewport.Move _ w) as [vp w1].
  destruct (spawnEnemies _ w1) as [g1 w2].
  destruct (updateEnemies _ w2) as [g2 w3].
  reflexivity.
Qed.

Lemma beforeCollisions_bullets (inp : Input) (g : Game.t) (w : World) :
  Game.bullets (fst (beforeCollisions inp g w)) =
  moveBullets (Game.bullets (shoot inp (updatePlayer inp g))).
Proof.
  unfold beforeCollisions, bind, ret.
  destruct (viewport.Move _ w) as [vp w1].
  match goal with |- context [spawnEnemies ?a w1] =>
    destruct (spawnEnemies_fields a w1) as (c & es1 & E1);
    destruct (spawnEnemies a w1) as [g1 w2] end.
  simpl in E1. subst g1.
  match goal with |- context [updateEnemies ?a w2] =>
    destruct (updateEnemies_fields a w2) as (es2 & ebs2 & E2);
    destruct (updateEnemies a w2) as [g2 w3] end.
  simpl in E2. subst g2.
  unfold updateBullets, rampDifficulty, shoot, updatePlayer. simpl.
  destruct (Game.player g) eqn:P; simpl; rewrite ?P;
    destruct (mouseLeftJustPressed inp); simpl; rewrite ?P; reflexivity.
Qed.

Lemma UpdatePlaying_bullets (inp : Input) (g : Game.t) (w : World) :
  Game.bullets (fst (UpdatePlaying inp g w)) =
  snd (collideBullets
         (moveBullets (Game.bullets (shoot inp (updatePlayer inp g))))
         (Game.enemies (fst (beforeCollisions inp g w)))
         (Game.score (fst (beforeCollisions inp g w))) []).
Proof.
  rewrite UpdatePlaying_split.
  destruct (playerCollisions_fields
              (bulletsVsEnemies (fst (beforeCollisions inp g w)))
              (snd (beforeCollisions inp g w))) as (ebs & st & ds & ->).
  simpl. unfold bulletsVsEnemies.
  rewrite beforeCollisions_bullets.
  destruct (collideBullets _ _ _ _) as [[es sc] rem]. reflexivity.
Qed.

Lemma moveBullets_In (bs : list Bullet.t) (b : Bullet.t) :
  In b bs -> bulletOnScreen (advanceBullet b) = true ->
  In (advanceBullet b) (moveBullets bs).
Proof.
  induction bs as [|x bs IH]; simpl; [tauto|].
  intros [->|H] Hs.
  - rewrite Hs. left. reflexivity.
  - destruct (bulletOnScreen (advanceBullet x)); [right|]; auto.
Qed.

Lemma moveBullets_inv (bs : list Bullet.t) (b' : Bullet.t) :
  In b' (moveBullets bs) ->
  bulletOnScreen b' = true /\ exists b, In b bs /\ b' = advanceBullet b.
Proof.
  induction bs as [|x bs IH]; simpl; [tauto|].
  destruct (bulletOnScreen (advanceBullet x)) eqn:E.
  - intros [<-|H].
    + split; [exact E|]. exists x. auto.
    + destruct (IH H) as [H1 (b & H2 & H3)]. split; [exact H1|].
      exists b. auto.
  - intros H. destruct (IH H) as [H1 (b & H2 & H3)]. split; [exact H1|].
    exists b. auto.
Qed.

(** Marking an enemy dead does not move it. *)
Lemma hitEnemy_overlaps (x b : Bullet.t) (es es' : list Enemy.t) :
  hitEnemy x es = Some es' ->
  (forall e, In e es -> bulletOverlaps b e = false) ->
  forall e, In e es' -> bulletOverlaps b e = false.
Proof.
  intros H Hm e He. apply hitEnemy_Some in H.
  destruct H as (l1 & y & l2 & -> & _ & _ & ->).
  apply in_app_or in He. destruct He as [He|[<-|He]].
  - apply Hm, in_or_app. left. exact He.
  - apply (Hm y). apply in_or_app. right. left. reflexivity.
  - apply Hm, in_or_app. right. right. exact He.
Qed.

Lemma collideBullets_rem (bs : list Bullet.t) :
  forall es sc rem b,
    In b rem -> In b (snd (collideBullets bs es sc rem)).
Proof.
  induction bs as [|x bs IH]; intros es sc rem b H; simpl; [exact H|].
  destruct (hitEnemy x es); apply IH; [exact H|].
  apply in_or_app. left. exact H.
Qed.

(** A bullet that overlaps no enemy goes through the pass. *)
Lemma collideBullets_keeps (bs : list Bullet.t) :
  forall es sc rem b,
    In b bs -> (forall e, In e es -> bulletOverlaps b e = false) ->
    In b (snd (collideBullets bs es sc rem)).
Proof.
  induction bs as [|x bs IH]; intros es sc rem b Hb Hm; simpl; [destruct Hb|].
  destruct Hb as [->|Hb].
  - rewrite (proj2 (hitEnemy_None b es))
      by (intros e He; apply bulletHits_miss, Hm, He).
    apply collideBullets_rem, in_or_app. right. left. reflexivity.
  - destruct (hitEnemy x es) as [es'|] eqn:Hh.
    + apply IH; [exact Hb|]. apply (hitEnemy_overlaps _ _ _ _ Hh Hm).
    + apply IH; assumption.
Qed.

(** One tick, for one bullet. *)
Lemma UpdatePlaying_bullet_kept
    (inp : Input) (g : Game.t) (w : World) (b : Bullet.t) :
  In b (Game.bullets g) ->
  bulletOnScreen (advanceBullet b) = true ->
  (forall e, In e (Game.enemies (fst (beforeCollisions inp g w))) ->
             bulletOverlaps (advanceBullet b) e = false) ->
  In (advanceBullet b) (Game.bullets (fst (UpdatePlaying inp g w))).
Proof.
  intros Hb Hs Hm. rewrite UpdatePlaying_bullets.
  apply collideBullets_keeps; [|exact Hm].
  apply moveBullets_In; [|exact Hs].
  unfold shoot, updatePlayer.
  destruct (Game.player g) eqn:P; simpl; rewrite ?P;
    destruct (mouseLeftJustPressed inp); simpl; try exact Hb.
  apply in_or_app. left. exact Hb.
Qed.

Lemma UpdatePlaying_bullets_onScreen
    (inp : Input) (g : Game.t) (w : World) (b' : Bullet.t) :
  In b' (Game.bullets (fst (UpdatePlaying inp g w))) ->
  bulletOnScreen b' = true.
Proof.
  rewrite UpdatePlaying_bullets. intros H.
  match type of H with In _ (snd (collideBullets ?bs ?es ?sc ?rem)) =>
    destruct (collideBullets_counts bs es sc rem)
      as (kept & k & E1 & _ & _ & _ & E5) end.
  rewrite E1 in H. simpl in H.
  apply (moveBullets_inv _ _ (E5 _ H)).
Qed.

Lemma flownBullet_S (n : nat) (b : Bullet.t) :
  flownBullet (S n) b = flownBullet n (advanceBullet b).
Proof. unfold flownBullet. apply Nat.iter_succ_r. Qed.

(** Through any ticks, a bullet that overlaps no enemy and passes the
    screen test at each position is in the list at the end. *)
Lemma playTicks_bullet_kept (inps : list Input) :
  forall (g : Game.t) (w : World) (b : Bullet.t),
    In b (Game.bullets g) ->
    unobstructed b inps g w ->
    staysVisible (length inps) b = true ->
    In (flownBullet (length inps) b)
       (Game.bullets (fst (playTicks inps g w))).
Proof.
  induction inps as [|inp inps IH]; intros g w b Hb Hu Hs.
  - exact Hb.
  - simpl in Hu, Hs. destruct Hu as [Hm Hu].
    apply andb_true_iff in Hs. destruct Hs as [Hs1 Hs2].
    apply andb_true_iff in Hs1. destruct Hs1 as [Hs1 _].
    simpl length. rewrite flownBullet_S. simpl playTicks. unfold bind.
    pose proof (UpdatePlaying_bullet_kept inp g w b Hb Hs1 Hm) as Hk.
    destruct (UpdatePlaying inp g w) as [g1 w1]. simpl in *.
    apply IH; assumption.
Qed.

(** After at least one tick, every bullet in the list passes the screen
    test. *)
Lemma playTicks_bullets_onScreen (inps : list Input) (inp : Input) :
  forall (g : Game.t) (w : World) (b' : Bullet.t),
    In b' (Game.bullets (fst (playTicks (inps ++ [inp]) g w))) ->
    bulletOnScreen b' = true.
Proof.
  intros g w b'. rewrite playTicks_snoc.
  apply UpdatePlaying_bullets_onScreen.
Qed.

Lemma topRule_checked :
  forallb (topRuleHolds 70) (List.map Z.of_nat (seq 0 481)) = true.
Proof. vm_compute. reflexivity. Qed.

(** For a bullet flying toward the top at 8 per tick from an integer height
    of the screen, the screen test first fails at tick
    [ceil ((py + 6) / 8)]. *)
Lemma upwardBullet_ticks (py : Z) (k : nat) :
  0 <= py <= 480 -> (k < 70)%nat ->
  staysVisible k (upwardBullet py) = (Z.of_nat k <? ticksToTop py 6 8) /\
  (bulletVisible (flownBullet (S k) (upwardBullet py)) = false ->
   bulletOnScreen (flownBullet (S k) (upwardBullet py)) = false).
Proof.
  intros Hp Hk.
  pose proof topRule_checked as C.
  rewrite forallb_forall in C.
  assert (I : In py (List.map Z.of_nat (seq 0 481))).
  { apply in_map_iff. exists (Z.to_nat py). split; [lia|].
    apply in_seq. lia. }
  specialize (C py I). unfold topRuleHolds in C. cbv zeta in C.
  rewrite forallb_forall in C.
  specialize (C k ltac:(apply in_seq; lia)).
  apply andb_true_iff in C. destruct C as [C1 C2].
  apply eqb_prop in C1. split; [exact C1|].
  intros V. rewrite V in C2. simpl in C2.
  apply negb_true_iff in C2. exact C2.
Qed.

Lemma staysVisible_snoc (n : nat) :
  forall b, staysVisible (S n) b =
            staysVisible n b && bulletVisible (flownBullet (S n) b).
Proof.
  induction n as [|n IH]; intros b.
  - simpl. rewrite andb_true_r. reflexivity.
  - change (staysVisible (S (S n)) b)
      with (bulletVisible (advanceBullet b)
            && staysVisible (S n) (advanceBullet b)).
    rewrite IH, (flownBullet_S (S n)).
    change (staysVisible (S n) b)
      with (bulletVisible (advanceBullet b)
            && staysVisible n (advanceBullet b)).
    rewrite andb_assoc. reflexivity.
Qed.

Lemma unobstructed_snoc (inps : list Input) (inp : Input) :
  forall b g w,
    unobstructed b (inps ++ [inp]) g w ->
    unobstructed b inps g w /\
    (forall e,
        In e (Game.enemies
                (fst (beforeCollisions inp (fst (playTicks inps g w))
                                           (snd (playTicks inps g w))))) ->
        bulletOverlaps (flownBullet (S (length inps)) b) e = false).
Proof.
  induction inps as [|i inps IH]; intros b g w H.
  - simpl in H. destruct H as [H _]. split; [exact I|]. exact H.
  - simpl in H. destruct H as [H1 H2].
    destruct (IH _ _ _ H2) as [H3 H4].
    split; [split; assumption|].
    simpl length. rewrite flownBullet_S. simpl playTicks. unfold bind.
    destruct (UpdatePlaying i g w) as [g1 w1]. exact H4.
Qed.

(** C1, as the code has it: a player bullet that overlaps no enemy is moved
    each tick by its [SpeedY]; it is in the list after every tick that
    leaves its box on the screen, and it is out of the list after a tick
    that leaves it past the top edge, where [0 < Y + Size] fails, that is
    [Y + Size <= 0].  For a bullet with [SpeedY = -8] and size 6 at an
    integer height [py] of the screen that tick is [ceil ((py + 6) / 8)];
    the bullets the fire input makes have [SpeedY = 8]. *)
Theorem bullet_leaves_when_past_top
    (inps : list Input) (inp : Input) (g : Game.t) (w : World) (b : Bullet.t) :
  In b (Game.bullets g) ->
  unobstructed b (inps ++ [inp]) g w ->
  staysVisible (length inps) b = true ->
  let n := length inps in
  let b' := flownBullet (S n) b in
  In (flownBullet n b) (Game.bullets (fst (playTicks inps g w))) /\
  (bulletVisible b' = true ->
   In b' (Game.bullets (fst (playTicks (inps ++ [inp]) g w)))) /\
  (bulletOnScreen b' = false ->
   ~ In b' (Game.bullets (fst (playTicks (inps ++ [inp]) g w)))) /\
  Bullet.Y b' = (Bullet.Y (flownBullet n b) + Bullet.SpeedY b)%float /\
  bulletOnScreen b' = (0 <? Bullet.Y b' + Bullet.Size b)%float /\
  (F64.isNumber (Bullet.Y b' + Bullet.Size b) = true ->
   (bulletOnScreen b' = false <->
    (Bullet.Y b' + Bullet.Size b <=? 0)%float = true)) /\
  (forall (py : Z) (k : nat),
      0 <= py <= 480 -> (k < 70)%nat ->
      staysVisible k (upwardBullet py) = (Z.of_nat k <? ticksToTop py 6 8) /\
      (bulletVisible (flownBullet (S k) (upwardBullet py)) = false ->
       bulletOnScreen (flownBullet (S k) (upwardBullet py)) = false)) /\
  (forall p, Bullet.SpeedY (newBullet p) = 8%float).
Proof.
  intros Hb Hu Hs n b'.
  destruct (unobstructed_snoc inps inp b g w Hu) as [Hu1 Hu2].
  assert (SY : forall k x, Bullet.SpeedY (flownBullet k x) = Bullet.SpeedY x).
  { induction k as [|k IH]; intros x; [reflexivity|].
    rewrite flownBullet_S, IH. reflexivity. }
  assert (SZ : forall k x, Bullet.Size (flownBullet k x) = Bullet.Size x).
  { induction k as [|k IH]; intros x; [reflexivity|].
    rewrite flownBullet_S, IH. reflexivity. }
  split; [apply playTicks_bullet_kept; assumption|].
  split; [|split; [|split; [|split; [|split; [|split]]]]].
  - intros Hon.
    assert (L : length (inps ++ [inp]) = S n)
      by (rewrite length_app; simpl; lia).
    subst b'. rewrite <- L.
    apply playTicks_bullet_kept; [exact Hb|exact Hu|].
    rewrite L, staysVisible_snoc. fold n in Hs. rewrite Hs. exact Hon.
  - intros Hoff Hin.
    apply playTicks_bullets_onScreen in Hin. congruence.
  - subst b'. unfold flownBullet at 1. simpl Nat.iter.
    fold (flownBullet n b). simpl. rewrite SY. reflexivity.
  - subst b'. unfold bulletOnScreen. rewrite SZ. reflexivity.
  - intros N. unfold bulletOnScreen. subst b'. rewrite SZ.
    apply F64Facts.not_pos_iff_leb, N.
  - exact upwardBullet_ticks.
  - reflexivity.
Qed.

(** A bullet flying toward the top from height 10: on the screen after one
    tick (at height 2), out of the list after two (at height -6). *)
Lemma bullet_leaves_when_past_top_witness :
  let idle := {| pressed := []; mouseLeftJustPressed := false |} in
  let g := Game.set_bullets [upwardBullet 10] annPlaying in
  In (flownBullet 1 (upwardBullet 10))
     (Game.bullets (fst (playTicks [idle] g sampleWorld))) /\
  ~ In (flownBullet 2 (upwardBullet 10))
       (Game.bullets (fst (playTicks ([idle] ++ [idle]) g sampleWorld))) /\
  ticksToTop 10 6 8 = 2.
Proof.
  intros idle g.
  assert (Hin : In (upwardBullet 10) (Game.bullets g))
    by (left; reflexivity).
  assert (Hu : unobstructed (upwardBullet 10) ([idle] ++ [idle])
                 g sampleWorld).
  { repeat split; intros e He; vm_compute in He; destruct He. }
  destruct (bullet_leaves_when_past_top [idle] idle g sampleWorld
              (upwardBullet 10) Hin Hu eq_refl)
    as (H1 & _ & H3 & _).
  split; [exact H1|]. split; [|reflexivity].
  apply H3. reflexivity.
Defined.

(** C1 fails on the bullets the game makes: the bullet fired from the
    centre of the screen starts at height 272 with size 6 and speed 8, so
    [ceil ((272 + 6) / 8) = 35]; after 35 ticks it is still in the list, at
    height 552, and no enemy has been on the screen. *)
Lemma fired_bullet_outlives_ticksToTop :
  let fire := {| pressed := []; mouseLeftJustPressed := true |} in
  let idle := {| pressed := []; mouseLeftJustPressed := false |} in
  let after :=
    fst (playTicks (fire :: repeat idle 34) annPlaying sampleWorld) in
  Game.bullets (shoot fire (updatePlayer fire annPlaying)) =
    [{| Bullet.X := 333; Bullet.Y := 272;
        Bullet.SpeedY := 8; Bullet.Size := 6 |}] /\
  ticksToTop 272 6 8 = 35 /\
  Game.bullets after =
    [{| Bullet.X := 333; Bullet.Y := 552;
        Bullet.SpeedY := 8; Bullet.Size := 6 |}] /\
  Game.enemies after = [] /\
  Game.spawnCounter after = 35 /\
  Game.score after = 0.
Proof. vm_compute. repeat split. Qed.

(** C2, as the code has it: on a tick with a fresh press of the left button
    and a player, the shooting block appends exactly one bullet, at
    [X = player.X + player.Size / 2 - 3] and at the player's edge
    [Y = player.Y + player.Size], of size 6 and with [SpeedY = 8], which the
    bullet movement adds to [Y] each tick; without a fresh press, or without
    a player, the block appends nothing. *)
Theorem fire_appends_one_bullet (inp : Input) (g : Game.t) :
  let g1 := updatePlayer inp g in
  let g2 := shoot inp g1 in
  (forall p, Game.player g1 = Some p -> mouseLeftJustPressed inp = true ->
     Game.bullets g2 = Game.bullets g ++ [newBullet p] /\
     Bullet.X (newBullet p) = (Player.X p + Player.Size p / 2 - 3)%float /\
     Bullet.Y (newBullet p) = (Player.Y p + Player.Size p)%float /\
     Bullet.SpeedY (newBullet p) = 8%float /\
     Bullet.Size (newBullet p) = 6%float /\
     Bullet.Y (advanceBullet (newBullet p)) =
       (Player.Y p + Player.Size p + 8)%float) /\
  (mouseLeftJustPressed inp = false -> Game.bullets g2 = Game.bullets g) /\
  (Game.player g = None -> Game.bullets g2 = Game.bullets g).
Proof.
  intros g1 g2. subst g1 g2. unfold shoot, updatePlayer.
  destruct (Game.player g) as [p0|] eqn:P; simpl; rewrite ?P.
  - split; [|split].
    + intros p [= <-] ->. repeat split.
    + intros ->. reflexivity.
    + discriminate.
  - split; [|split].
    + intros p [=].
    + destruct (mouseLeftJustPressed inp); reflexivity.
    + destruct (mouseLeftJustPressed inp); reflexivity.
Qed.

(** A press at the centre of the screen, and a tick without one. *)
Lemma fire_appends_one_bullet_witness :
  let fire := {| pressed := []; mouseLeftJustPressed := true |} in
  let idle := {| pressed := []; mouseLeftJustPressed := false |} in
  Game.bullets (shoot fire (updatePlayer fire annPlaying)) =
    [{| Bullet.X := 333; Bullet.Y := 272;
        Bullet.SpeedY := 8; Bullet.Size := 6 |}] /\
  Game.bullets (shoot idle (updatePlayer idle annPlaying)) = [].
Proof.
  intros fire idle.
  destruct (fire_appends_one_bullet fire annPlaying) as (H1 & _ & _).
  destruct (fire_appends_one_bullet idle annPlaying) as (_ & H2 & _).
  split.
  - apply (H1 (NewPlayer 320 240)); reflexivity.
  - apply H2. reflexivity.
Defined.

(** C2 fails where it puts the bullet at the player's top edge and sends it
    toward decreasing [y]: the player at (320, 240) fires a bullet at
    height 272, its other edge, and the tick moves the bullet to 280. *)
Lemma fired_bullet_starts_below_and_descends :
  let fire := {| pressed := []; mouseLeftJustPressed := true |} in
  Game.player (updatePlayer fire annPlaying) = Some (NewPlayer 320 240) /\
  Game.bullets (shoot fire (updatePlayer fire annPlaying)) =
    [{| Bullet.X := 333; Bullet.Y := 272;
        Bullet.SpeedY := 8; Bullet.Size := 6 |}] /\
  (272 =? 240)%float = false /\
  Game.bullets (fst (UpdatePlaying fire annPlaying sampleWorld)) =
    [{| Bullet.X := 333; Bullet.Y := 280;
        Bullet.SpeedY := 8; Bullet.Size := 6 |}] /\
  (280 <? 272)%float = false /\
  ~ (forall (inp : Input) (g : Game.t) (p : Player.t),
        mouseLeftJustPressed inp = true ->
        Game.player (updatePlayer inp g) = Some p ->
        exists b,
          Game.bullets (shoot inp (updatePlayer inp g)) =
            Game.bullets g ++ [b] /\
          Bullet.Y b = Player.Y p /\
          (Bullet.Y (advanceBullet b) <? Bullet.Y b)%float = true).
Proof.
  intros fire. repeat split.
  intros H.
  destruct (H fire annPlaying (NewPlayer 320 240) eq_refl eq_refl)
    as (b & Hb & HY & _).
  vm_compute in Hb. injection Hb as <-. vm_compute in HY.
  apply (f_equal (fun x => (x =? 240)%float)) in HY.
  vm_compute in HY. discriminate.
Qed.

(** * Deaths and the high-score table *)

Lemma sameStore_refl (w : World) : sameStore w w.
Proof. repeat split. Qed.

Lemma sameStore_trans (w1 w2 w3 : World) :
  sameStore w1 w2 -> sameStore w2 w3 -> sameStore w1 w3.
Proof.
  unfold sameStore. intros H1 H2.
  repeat match goal with H : _ /\ _ |- _ => destruct H end.
  repeat split; congruence.
Qed.

Lemma Intn_range (n : Z) (w : World) : 0 < n -> 0 <= fst (Intn n w) < n.
Proof. intros H. unfold Intn. simpl. apply Z.mod_pos_bound. exact H. Qed.

Lemma newEnemy_store (w : World) : sameStore w (snd (newEnemy w)).
Proof. repeat split. Qed.

Lemma spawnBatch_store (n : nat) :
  forall es w, sameStore w (snd (spawnBatch n es w)).
Proof.
  induction n as [|n IH]; intros es w; simpl.
  - apply sameStore_refl.
  - unfold bind at 1.
    pose proof (newEnemy_store w) as H.
    destruct (newEnemy w) as [e w1]. simpl in H.
    apply (sameStore_trans _ _ _ H), IH.
Qed.

Lemma stepEnemy_store (player : option Player.t) (e : Enemy.t) (w : World) :
  sameStore w (snd (stepEnemy player e w)).
Proof.
  unfold stepEnemy, bind, ret.
  destruct (_ <? 0)%float; [apply sameStore_refl|].
  destruct player as [p|]; [|apply sameStore_refl].
  destruct (_ <=? 0); [|apply sameStore_refl].
  destruct (0 <? _)%float; [|apply sameStore_refl].
  repeat split.
Qed.

Lemma moveEnemies_store (player : option Player.t) (es : list Enemy.t) :
  forall moved ebs w,
    sameStore w (snd (moveEnemies player es moved ebs w)).
Proof.
  induction es as [|e es IH]; intros moved ebs w; simpl.
  - apply sameStore_refl.
  - unfold bind at 1.
    pose proof (stepEnemy_store player e w) as H.
    destruct (stepEnemy player e w) as [r w1]. simpl in H.
    apply (sameStore_trans _ _ _ H), IH.
Qed.

Lemma beforeCollisions_store (inp : Input) (g : Game.t) (w : World) :
  sameStore w (snd (beforeCollisions inp g w)).
Proof.
  unfold beforeCollisions, bind, ret.
  assert (V : forall v, snd (viewport.Move v w) = w)
    by (intros v; unfold viewport.Move; destruct (bgImage w); reflexivity).
  match goal with |- context [viewport.Move ?v w] =>
    specialize (V v); destruct (viewport.Move v w) as [vp w1] end.
  simpl in V. subst w1.
  match goal with |- context [spawnEnemies ?a w] =>
    assert (S1 : sameStore w (snd (spawnEnemies a w)));
    [|destruct (spawnEnemies a w) as [g1 w2]] end.
  { unfold spawnEnemies, bind, ret. destruct (_ <=? _).
    - match goal with |- context [spawnBatch ?n ?es w] =>
        pose proof (spawnBatch_store n es w) as H;
        destruct (spawnBatch n es w) as [es' w'] end.
      exact H.
    - apply sameStore_refl. }
  simpl in S1.
  assert (S2 : sameStore w2 (snd (updateEnemies g1 w2))).
  { unfold updateEnemies, bind, ret.
    match goal with |- context [moveEnemies ?p ?es ?m ?ebs w2] =>
      pose proof (moveEnemies_store p es m ebs w2) as H;
      destruct (moveEnemies p es m ebs w2) as [r w'] end.
    exact H. }
  destruct (updateEnemies g1 w2) as [g2 w3]. simpl in *.
  apply (sameStore_trans _ _ _ S1 S2).
Qed.

Lemma sameStore_storedScore (w w' : World) (u : string) :
  sameStore w w' -> storedScore u w' = storedScore u w.
Proof.
  intros (H & _). unfold storedScore, getScore. simpl. rewrite H. reflexivity.
Qed.

(** The world after a death. *)
Lemma die_world (g : Game.t) (w : World) :
  snd (die g w) =
  if newRecord g w
  then if nilTable w
       then panic "assignment to entry in nil map" w
       else snd (saveScores
                   (snd (putScore (Game.username g) (Game.score g) w)))
  else w.
Proof.
  unfold die, bind, ret, newRecord, nilTable, storedScore, getScore. simpl.
  destruct (_ && _); [|reflexivity].
  unfold putScore, saveScores. simpl.
  destruct (HighScores (scores w)); simpl; [destruct (createOk w)|];
    reflexivity.
Qed.

Lemma saveScores_world (w : World) :
  scores (snd (saveScores w)) = scores w /\
  saveLog (snd (saveScores w)) = saveLog w ++ [scores w] /\
  scoreFile (snd (saveScores w)) =
    (if createOk w then Some (jsonEncode w (scores w)) else scoreFile w).
Proof. unfold saveScores. simpl. destruct (createOk w); repeat split. Qed.

Lemma saveScores_panics (w : World) :
  panics (snd (saveScores w)) = panics w.
Proof. unfold saveScores. simpl. destruct (createOk w); reflexivity. Qed.

Lemma die_storedScore (g : Game.t) (w : World) :
  let u := Game.username g in
  let sc := Game.score g in
  let w' := snd (die g w) in
  (forall m, HighScores (scores w) = Some m ->
   panics w' = panics w /\
   (u <> ""%string -> storedScore u w' = Z.max (storedScore u w) sc) /\
   (u <> ""%string -> storedScore u w < sc ->
    HighScores (scores w') = Some (<[u := sc]> m) /\
    saveLog w' = saveLog w ++ [scores w'] /\
    scoreFile w' =
      (if createOk w then Some (jsonEncode w (scores w'))
       else scoreFile w))) /\
  (HighScores (scores w) = None -> u <> ""%string -> storedScore u w < sc ->
   w' = panic "assignment to entry in nil map" w) /\
  (u = ""%string \/ sc <= storedScore u w -> w' = w) /\
  (forall v, v <> u ->
             entries (scores w') !! v = entries (scores w) !! v) /\
  (forall v, storedScore v w <= storedScore v w').
Proof.
  intros u sc w'. subst w'. rewrite die_world. unfold newRecord, nilTable.
  fold u sc.
  destruct (saveScores_world (snd (putScore u sc w))) as (S1 & S2 & S3).
  pose proof (saveScores_panics (snd (putScore u sc w))) as S4.
  set (w1 := snd (saveScores (snd (putScore u sc w)))) in *.
  destruct (String.eqb_spec u "") as [E|E]; cbn [negb andb].
  - repeat split; intros; try contradiction; try reflexivity; try lia.
  - destruct (Z.ltb_spec (storedScore u w) sc) as [L|L].
    + destruct (HighScores (scores w)) as [m|] eqn:T.
      * assert (P : scores (snd (putScore u sc w)) =
                    {| HighScores := Some (<[u := sc]> m) |})
          by (unfold putScore; rewrite T; reflexivity).
        assert (Q : panics (snd (putScore u sc w)) = panics w)
          by (unfold putScore; rewrite T; reflexivity).
        assert (R : entries (scores w) = m)
          by (unfold entries; rewrite T; reflexivity).
        split; [|split; [|split; [|split]]].
        -- intros m' M. injection M as <-. split; [|split].
           ++ rewrite S4. exact Q.
           ++ intros _. unfold storedScore at 1, getScore. simpl.
              rewrite S1, P. unfold entries. simpl.
              rewrite lookup_insert_eq. simpl. lia.
           ++ intros _ _. rewrite S1, S2, S3, P.
              assert (C : createOk (snd (putScore u sc w)) = createOk w)
                by (unfold putScore; rewrite T; reflexivity).
              assert (J : jsonEncode (snd (putScore u sc w)) = jsonEncode w)
                by (unfold putScore; rewrite T; reflexivity).
              assert (F : scoreFile (snd (putScore u sc w)) = scoreFile w)
                by (unfold putScore; rewrite T; reflexivity).
              assert (G : saveLog (snd (putScore u sc w)) = saveLog w)
                by (unfold putScore; rewrite T; reflexivity).
              rewrite C, J, F, G. repeat split.
        -- discriminate.
        -- intros [H|H]; [contradiction|lia].
        -- intros v Hv. rewrite S1, P, R. unfold entries. simpl.
           rewrite lookup_insert_ne by congruence. reflexivity.
        -- intros v. unfold storedScore at 2, getScore. simpl.
           rewrite S1, P. unfold entries at 1. simpl.
           destruct (decide (u = v)) as [<-|N].
           ++ rewrite lookup_insert_eq. simpl. lia.
           ++ rewrite lookup_insert_ne by exact N.
              unfold storedScore, getScore. simpl. rewrite R. lia.
      * split; [|split; [|split; [|split]]].
        -- discriminate.
        -- reflexivity.
        -- intros [H|H]; [contradiction|lia].
        -- reflexivity.
        -- intros v. unfold storedScore, getScore, panic. simpl. lia.
    + repeat split; intros; try reflexivity; try lia.
Qed.

Lemma playerCollisions_dies (g : Game.t) (w : World) :
  playerDies g = true ->
  exists ebs, playerCollisions g w = die (Game.set_enemyBullets ebs g) w.
Proof.
  unfold playerDies, playerCollisions.
  destruct (Game.player g) as [p|]; [|discriminate].
  intros H. eexists.
  destruct (existsb (enemyBulletHits p) _); [reflexivity|].
  simpl in H. simpl. rewrite H. reflexivity.
Qed.

Lemma playerCollisions_lives (g : Game.t) (w : World) :
  playerDies g = false ->
  snd (playerCollisions g w) = w /\
  Game.gameState (fst (playerCollisions g w)) = Game.gameState g /\
  Game.deathScore (fst (playerCollisions g w)) = Game.deathScore g.
Proof.
  unfold playerDies, playerCollisions.
  destruct (Game.player g) as [p|]; [|repeat split].
  intros H. apply orb_false_iff in H. destruct H as [H1 H2].
  rewrite H1. simpl. rewrite H2. repeat split.
Qed.

Lemma beforeCollisions_identity (inp : Input) (g : Game.t) (w : World) :
  let pre := bulletsVsEnemies (fst (beforeCollisions inp g w)) in
  Game.username pre = Game.username g /\
  Game.gameState pre = Game.gameState g /\
  Game.deathScore pre = Game.deathScore g.
Proof.
  unfold beforeCollisions, bind, ret.
  destruct (viewport.Move _ w) as [vp w1].
  match goal with |- context [spawnEnemies ?a w1] =>
    destruct (spawnEnemies_fields a w1) as (c & es1 & E1);
    destruct (spawnEnemies a w1) as [g1 w2] end.
  simpl in E1. subst g1.
  match goal with |- context [updateEnemies ?a w2] =>
    destruct (updateEnemies_fields a w2) as (es2 & ebs2 & E2);
    destruct (updateEnemies a w2) as [g2 w3] end.
  simpl in E2. subst g2. simpl.
  match goal with |- context [bulletsVsEnemies ?a] =>
    destruct (bulletsVsEnemies_fields a) as (bs3 & es3 & sc3 & E3);
    rewrite E3; clear E3 end.
  unfold updateBullets, rampDifficulty, shoot, updatePlayer. simpl.
  destruct (Game.player g) eqn:P; simpl; rewrite ?P;
    destruct (mouseLeftJustPressed inp); simpl; rewrite ?P; repeat split.
Qed.

Lemma dieAll_storedScore (gs : list Game.t) :
  forall w v, storedScore v w <= storedScore v (dieAll gs w).
Proof.
  induction gs as [|g gs IH]; intros w v; simpl; [lia|].
  destruct (die_storedScore g w) as (_ & _ & _ & _ & H).
  specialize (H v). specialize (IH (snd (die g w)) v). lia.
Qed.

Lemma UpdatePlaying_storedScore (inp : Input) (g : Game.t) (w : World) :
  forall v, storedScore v w <= storedScore v (snd (UpdatePlaying inp g w)).
Proof.
  intros v. rewrite UpdatePlaying_split.
  pose proof (beforeCollisions_store inp g w) as S.
  rewrite <- (sameStore_storedScore _ _ v S).
  set (pre := bulletsVsEnemies (fst (beforeCollisions inp g w))).
  set (w1 := snd (beforeCollisions inp g w)).
  destruct (playerDies pre) eqn:D.
  - destruct (playerCollisions_dies pre w1 D) as [ebs ->].
    apply die_storedScore.
  - destruct (playerCollisions_lives pre w1 D) as [-> _]. lia.
Qed.

Lemma playTicks_storedScore (inps : list Input) :
  forall g w v, storedScore v w <= storedScore v (snd (playTicks inps g w)).
Proof.
  induction inps as [|inp inps IH]; intros g w v; simpl; [lia|].
  unfold bind.
  pose proof (UpdatePlaying_storedScore inp g w v) as H.
  destruct (UpdatePlaying inp g w) as [g1 w1]. simpl in H.
  specialize (IH g1 w1 v). lia.
Qed.

Lemma nilTable_storedScore (w : World) (u : string) :
  HighScores (scores w) = None -> storedScore u w = 0.
Proof.
  intros T. unfold storedScore, getScore, entries. simpl. rewrite T.
  reflexivity.
Qed.

(** The death handling, by the table it finds. *)
Lemma die_spec (g : Game.t) (w : World) :
  let u := Game.username g in
  let sc := Game.score g in
  let g' := fst (die g w) in
  let w' := snd (die g w) in
  Game.deathScore g' = sc /\
  (forall m, HighScores (scores w) = Some m ->
   Game.gameState g' = "dead"%string /\ panics w' = panics w /\
   (u <> ""%string -> storedScore u w' = Z.max (storedScore u w) sc) /\
   (u <> ""%string -> storedScore u w < sc ->
    HighScores (scores w') = Some (<[u := sc]> m) /\
    saveLog w' = saveLog w ++ [scores w'] /\
    scoreFile w' =
      (if createOk w then Some (jsonEncode w (scores w'))
       else scoreFile w))) /\
  (u = ""%string \/ sc <= storedScore u w ->
   Game.gameState g' = "dead"%string /\ w' = w) /\
  (HighScores (scores w) = None -> u <> ""%string -> 0 < sc ->
   g' = Game.set_deathScore sc g /\
   w' = panic "assignment to entry in nil map" w).
Proof.
  intros u sc g' w'. subst g' w'. rewrite die_fields.
  destruct (die_storedScore g w) as (H1 & H2 & H3 & _).
  cbv zeta in H1, H2, H3. fold u sc in H1, H2, H3.
  split; [destruct (_ && _); reflexivity|]. split; [|split].
  - intros m T. destruct (H1 m T) as (A & B & C).
    unfold nilTable. rewrite T, andb_false_r.
    split; [reflexivity|]. split; [exact A|]. split; [exact B|exact C].
  - intros C. split; [|exact (H3 C)].
    unfold newRecord. fold u sc.
    destruct C as [C|C].
    + rewrite C. reflexivity.
    + destruct (Z.ltb_spec (storedScore u w) sc) as [L|L]; [lia|].
      rewrite andb_false_r. reflexivity.
  - intros T N L.
    pose proof (nilTable_storedScore w u T) as Z0.
    split; [|apply (H2 T N); lia].
    unfold newRecord, nilTable. fold u sc. rewrite T, Z0.
    destruct (String.eqb_spec u "") as [E|E]; [contradiction|].
    destruct (Z.ltb_spec 0 sc) as [L'|L']; [reflexivity|lia].
Qed.

(** A tick in which the player is hit, by the table it finds. *)
Lemma UpdatePlaying_death (inp : Input) (g : Game.t) (w : World) :
  let pre := bulletsVsEnemies (fst (beforeCollisions inp g w)) in
  let g' := fst (UpdatePlaying inp g w) in
  let w' := snd (UpdatePlaying inp g w) in
  let u := Game.username g in
  playerDies pre = true ->
  Game.deathScore g' = Game.score pre /\
  (forall m, HighScores (scores w) = Some m ->
   Game.gameState g' = "dead"%string /\ panics w' = panics w /\
   (u <> ""%string ->
    storedScore u w' = Z.max (storedScore u w) (Game.score pre)) /\
   (u <> ""%string -> storedScore u w < Game.score pre ->
    HighScores (scores w') = Some (<[u := Game.score pre]> m) /\
    saveLog w' = saveLog w ++ [scores w'])) /\
  (u = ""%string \/ Game.score pre <= storedScore u w ->
   Game.gameState g' = "dead"%string /\
   scores w' = scores w /\ saveLog w' = saveLog w /\
   scoreFile w' = scoreFile w /\ panics w' = panics w) /\
  (HighScores (scores w) = None -> u <> ""%string -> 0 < Game.score pre ->
   Game.gameState g' = Game.gameState g /\
   panics w' = panics w ++ ["assignment to entry in nil map"%string] /\
   scores w' = scores w /\ saveLog w' = saveLog w /\
   scoreFile w' = scoreFile w).
Proof.
  intros pre g' w' u D. subst g' w'.
  rewrite UpdatePlaying_split. fold pre.
  pose proof (beforeCollisions_store inp g w) as S.
  destruct (beforeCollisions_identity inp g w) as (Iu & Is & Id).
  fold pre in Iu, Is, Id.
  set (w1 := snd (beforeCollisions inp g w)) in *.
  assert (Sv : forall v, storedScore v w1 = storedScore v w)
    by (intros v; apply sameStore_storedScore, S).
  destruct S as (Ss & Sf & _ & Sl & _ & _ & _ & _ & Sp).
  destruct (playerCollisions_dies pre w1 D) as [ebs ->].
  destruct (die_spec (Game.set_enemyBullets ebs pre) w1)
    as (H0 & H1 & H2 & H3).
  cbv zeta in H0, H1, H2, H3. simpl in H0, H1, H2, H3.
  rewrite Iu in H1, H2, H3. rewrite Sv in H1, H2.
  fold u in H1, H2, H3.
  split; [exact H0|]. split; [|split].
  - intros m T. rewrite Ss in H1. destruct (H1 m T) as (A & B & C & E).
    split; [exact A|]. split; [rewrite B; exact Sp|].
    split; [exact C|]. intros N L. destruct (E N L) as (E1 & E2 & _).
    rewrite E1, E2, Sl. split; reflexivity.
  - intros C. destruct (H2 C) as [A B]. rewrite B.
    repeat split; assumption.
  - intros T N L. rewrite Ss in H3. destruct (H3 T N L) as [A B].
    rewrite A, B. unfold panic. simpl. rewrite Sp.
    repeat split; assumption.
Qed.

Lemma UpdatePlaying_survives (inp : Input) (g : Game.t) (w : World) :
  let pre := bulletsVsEnemies (fst (beforeCollisions inp g w)) in
  let g' := fst (UpdatePlaying inp g w) in
  let w' := snd (UpdatePlaying inp g w) in
  playerDies pre = false ->
  Game.gameState g' = Game.gameState g /\
  scores w' = scores w /\ saveLog w' = saveLog w /\
  scoreFile w' = scoreFile w /\ panics w' = panics w.
Proof.
  intros pre g' w' D. subst g' w'.
  rewrite UpdatePlaying_split. fold pre.
  pose proof (beforeCollisions_store inp g w) as S.
  destruct (beforeCollisions_identity inp g w) as (_ & Is & _).
  fold pre in Is.
  destruct S as (Ss & Sf & _ & Sl & _ & _ & _ & _ & Sp).
  destruct (playerCollisions_lives pre (snd (beforeCollisions inp g w)) D)
    as (-> & -> & _).
  repeat split; assumption.
Qed.

Lemma die_panics (g : Game.t) (w : World) :
  panics (snd (die g w)) =
  if newRecord g w && nilTable w
  then panics w ++ ["assignment to entry in nil map"%string]
  else panics w.
Proof.
  rewrite die_world. destruct (newRecord g w); [|reflexivity].
  unfold nilTable. cbn [andb].
  destruct (HighScores (scores w)) as [m|] eqn:T; [|reflexivity].
  rewrite saveScores_panics. unfold putScore. rewrite T. reflexivity.
Qed.

Lemma sameStore_newRecord (w w' : World) (g : Game.t) :
  sameStore w w' -> newRecord g w' = newRecord g w.
Proof.
  intros S. unfold newRecord.
  rewrite (sameStore_storedScore _ _ _ S). reflexivity.
Qed.

Lemma sameStore_nilTable (w w' : World) :
  sameStore w w' -> nilTable w' = nilTable w.
Proof. intros (S & _). unfold nilTable. rewrite S. reflexivity. Qed.

(** C3: a death keeps the score as the death score.  On a table that has
    been made it sets the mode to "dead" and, for a non-empty username
    [u], leaves [max (stored u) score] stored for [u]: the entry is
    overwritten, and [saveScores] called with the new table, exactly when
    the score is above the stored one, and nothing changes otherwise; a
    tick of the simulation does this when the player overlaps an enemy
    bullet or an enemy, and leaves the table alone when it does not; no
    stored score decreases through any deaths or ticks.  On the nil map,
    which [loadScores] leaves after a file that gives null for the table,
    the write of a record panics: a named player who dies with a positive
    score has nothing stored and nothing saved, and the mode is not set.
    The last part runs "Ann" with 50 points into an enemy bullet after
    such a file was loaded. *)
Theorem death_on_nil_table_panics :
  (forall (g : Game.t) (w : World),
      let u := Game.username g in
      let sc := Game.score g in
      let g' := fst (die g w) in
      let w' := snd (die g w) in
      Game.deathScore g' = sc /\
      (forall m, HighScores (scores w) = Some m ->
       Game.gameState g' = "dead"%string /\ panics w' = panics w /\
       (u <> ""%string -> storedScore u w' = Z.max (storedScore u w) sc) /\
       (u <> ""%string -> storedScore u w < sc ->
        HighScores (scores w') = Some (<[u := sc]> m) /\
        saveLog w' = saveLog w ++ [scores w'] /\
        scoreFile w' =
          (if createOk w then Some (jsonEncode w (scores w'))
           else scoreFile w))) /\
      (u = ""%string \/ sc <= storedScore u w ->
       Game.gameState g' = "dead"%string /\ w' = w) /\
      (HighScores (scores w) = None -> u <> ""%string -> 0 < sc ->
       g' = Game.set_deathScore sc g /\
       w' = panic "assignment to entry in nil map" w)) /\
  (forall (inp : Input) (g : Game.t) (w : World),
      let pre := bulletsVsEnemies (fst (beforeCollisions inp g w)) in
      let g' := fst (UpdatePlaying inp g w) in
      let w' := snd (UpdatePlaying inp g w) in
      let u := Game.username g in
      (playerDies pre = true ->
       Game.deathScore g' = Game.score pre /\
       (forall m, HighScores (scores w) = Some m ->
        Game.gameState g' = "dead"%string /\ panics w' = panics w /\
        (u <> ""%string ->
         storedScore u w' = Z.max (storedScore u w) (Game.score pre)) /\
        (u <> ""%string -> storedScore u w < Game.score pre ->
         HighScores (scores w') = Some (<[u := Game.score pre]> m) /\
         saveLog w' = saveLog w ++ [scores w'])) /\
       (u = ""%string \/ Game.score pre <= storedScore u w ->
        Game.gameState g' = "dead"%string /\
        scores w' = scores w /\ saveLog w' = saveLog w /\
        scoreFile w' = scoreFile w /\ panics w' = panics w) /\
       (HighScores (scores w) = None -> u <> ""%string ->
        0 < Game.score pre ->
        Game.gameState g' = Game.gameState g /\
        panics w' =
          panics w ++ ["assignment to entry in nil map"%string] /\
        scores w' = scores w /\ saveLog w' = saveLog w /\
        scoreFile w' = scoreFile w)) /\
      (playerDies pre = false ->
       Game.gameState g' = Game.gameState g /\
       scores w' = scores w /\ saveLog w' = saveLog w /\
       scoreFile w' = scoreFile w /\ panics w' = panics w)) /\
  (forall (gs : list Game.t) (w : World) (v : string),
      storedScore v w <= storedScore v (dieAll gs w)) /\
  (forall (inps : list Input) (g : Game.t) (w : World) (v : string),
      storedScore v w <= storedScore v (snd (playTicks inps g w))) /\
  (let w0 := snd (loadScores (jsonWorld (Some nullFile))) in
   let r := UpdatePlaying noInput annHit w0 in
   HighScores (scores w0) = None /\ panics w0 = [] /\
   Game.username annHit = "Ann"%string /\ Game.score annHit = 50 /\
   storedScore "Ann" w0 = 0 /\
   playerDies (bulletsVsEnemies (fst (beforeCollisions noInput annHit w0)))
     = true /\
   panics (snd r) = ["assignment to entry in nil map"%string] /\
   storedScore "Ann" (snd r) = 0 /\ saveLog (snd r) = [] /\
   scoreFile (snd r) = Some nullFile /\
   Game.gameState (fst r) = "playing"%string /\
   Game.deathScore (fst r) = 50).
Proof.
  split; [|split; [|split; [|split]]].
  - intros g w. apply die_spec.
  - intros inp g w pre g' w' u. split.
    + apply UpdatePlaying_death.
    + apply UpdatePlaying_survives.
  - intros gs w v. apply dieAll_storedScore.
  - intros inps g w v. apply playTicks_storedScore.
  - cbv zeta. repeat split; reflexivity.
Qed.

(** "Ann" dies with 50 when 30 is stored, then with 20. *)
Lemma death_on_nil_table_panics_witness :
  let w30 := set_scores {| HighScores := Some {["Ann"%string := 30]} |}
               sampleWorld in
  let w50 := snd (die (Game.set_score 50 annPlaying) w30) in
  storedScore "Ann" w30 = 30 /\
  storedScore "Ann" w50 = 50 /\
  saveLog w50 = [scores w50] /\
  snd (die (Game.set_score 20 annPlaying) w50) = w50.
Proof.
  intros w30 w50.
  destruct death_on_nil_table_panics as (H & _).
  destruct (H (Game.set_score 50 annPlaying) w30)
    as (_ & H1 & _).
  destruct (H1 _ eq_refl) as (_ & _ & H2 & H3).
  destruct (H (Game.set_score 20 annPlaying) w50)
    as (_ & _ & H4 & _).
  assert (N : Game.username (Game.set_score 50 annPlaying) <> ""%string)
    by discriminate.
  assert (S30 : storedScore "Ann" w30 = 30) by reflexivity.
  split; [exact S30|].
  assert (S50 : storedScore "Ann" w50 = 50).
  { etransitivity; [apply (H2 N)|]. reflexivity. }
  split; [exact S50|]. split.
  - apply (H3 N). reflexivity.
  - apply H4. right. simpl. rewrite S50. lia.
Defined.

(** * The cooldown of an enemy that has fired *)

Lemma add_60_exact (r : Z) : 0 <= r < 60 -> Go.add 60 r = 60 + r.
Proof.
  intros H. unfold Go.add. apply wrap_small.
  change (2 ^ 63) with 9223372036854775808. lia.
Qed.

(** * Loading the scores *)

(** C8: [loadScores] raises no panic and changes nothing but the table.
    With no file to open the table is the empty map; with a file it is
    what the decoder leaves, started on the empty map, whether or not the
    decoder reports an error.  So a file the decoder reads fills the
    table, and one it rejects without touching the table leaves it empty;
    but a file with an entry that is not a number leaves the entries the
    decoder stored before it reported the error, and a file that gives
    null for the table leaves the nil map. *)
Theorem loadScores_keeps_failed_decode :
  (forall w : World,
      let w' := snd (loadScores w) in
      panics w' = panics w /\
      (scoreFile w = None -> HighScores (scores w') = Some ∅) /\
      (forall content,
          scoreFile w = Some content ->
          scores w' =
            fst (jsonDecode w content {| HighScores := Some ∅ |})) /\
      (scoreFile w' = scoreFile w /\ createOk w' = createOk w /\
       saveLog w' = saveLog w /\ randPos w' = randPos w)) /\
  (let w := jsonWorld (Some brokenFile) in
   let w' := snd (loadScores w) in
   snd (jsonDecode w brokenFile {| HighScores := Some ∅ |}) = true /\
   entries (scores w') !! "Ann"%string = Some 50 /\
   entries (scores w') !! "Bob"%string = Some 0 /\
   entries (scores w') !! "Cy"%string = Some 3 /\
   HighScores (scores w') <> Some ∅ /\
   panics w' = []) /\
  (let w' := snd (loadScores (jsonWorld (Some nullFile))) in
   HighScores (scores w') = None /\ panics w' = []) /\
  HighScores (scores (snd (loadScores (jsonWorld None)))) = Some ∅ /\
  HighScores (scores (snd (loadScores (jsonWorld (Some "{"%string)))))
    = Some ∅.
Proof.
  split; [|split; [|split; [|split]]].
  - intros w. unfold loadScores. simpl.
    destruct (scoreFile w) as [c|] eqn:F; simpl.
    + split; [reflexivity|]. split; [discriminate|].
      split; [intros ? [= <-]; reflexivity|].
      rewrite F; repeat split.
    + split; [reflexivity|]. split; [reflexivity|].
      split; [discriminate|]. rewrite F. repeat split.
  - cbv zeta. split; [reflexivity|]. split; [reflexivity|].
    split; [reflexivity|]. split; [reflexivity|]. split; [|reflexivity].
    intros H.
    apply (f_equal (fun t => default ∅ t !! "Ann"%string)) in H.
    vm_compute in H. discriminate H.
  - cbv zeta. split; reflexivity.
  - reflexivity.
  - reflexivity.
Qed.

(** * Reset *)

(** C10: [Reset] puts a new player at (320, 240), empties the three entity
    lists, sets the spawn counter, the elapsed ticks and the score to 0 and
    the spawn interval to 90, and leaves every other field of the game, and
    the whole world with the high-score table, as they were. *)
Theorem Reset_frame (g : Game.t) (w : World) :
  let g' := fst (Reset g w) in
  (Game.player g' =
     Some {| Player.X := 320; Player.Y := 240; Player.Size := 32 |} /\
   Game.bullets g' = [] /\ Game.enemies g' = [] /\
   Game.enemyBullets g' = [] /\
   Game.spawnCounter g' = 0 /\ Game.spawnInterval g' = 90 /\
   Game.elapsedFrames g' = 0 /\ Game.score g' = 0) /\
  (Game.username g' = Game.username g /\
   Game.usernameInput g' = Game.usernameInput g /\
   Game.deathScore g' = Game.deathScore g /\
   Game.gameState g' = Game.gameState g /\
   Game.lastGameState g' = Game.lastGameState g /\
   Game.dropdownOpen g' = Game.dropdownOpen g /\
   Game.selectedScreen g' = Game.selectedScreen g /\
   Game.customWidth g' = Game.customWidth g /\
   Game.customHeight g' = Game.customHeight g /\
   Game.customInput g' = Game.customInput g /\
   Game.customInputStr g' = Game.customInputStr g /\
   Game.keys g' = Game.keys g /\
   Game.viewport g' = Game.viewport g) /\
  snd (Reset g w) = w.
Proof. repeat split. Qed.

(** * Further properties of the code *)

Import F64 F64Facts.

(** ** More facts about binary64 arithmetic *)

Lemma valid_emin (s : bool) (m : positive) (e : Z) :
  valid_binary (S754_finite s m e) = true -> emin <= e.
Proof.
  simpl. unfold bounded, canonical_mantissa. intros V.
  apply andb_true_iff in V. destruct V as [V _]. apply Z.eqb_eq in V.
  pose proof (fexp_ge_emin (Z.pos (digits2_pos m) + e)). lia.
Qed.

Lemma binary_round_pos (s : bool) (m : positive) (e : Z) :
  emin <= e ->
  match binary_round prec emax s m e with
  | S754_finite s' _ _ | S754_infinity s' => s' = s
  | _ => False
  end.
Proof.
  intros He. unfold binary_round, shl_align.
  set (f := fexp prec emax (Z.pos (digits2_pos m) + e)).
  pose proof (fexp_ge_emin (Z.pos (digits2_pos m) + e)) as Hf. fold f in Hf.
  destruct (f - e) as [|d|d] eqn:E.
  - apply binary_round_aux_pos; [lia|].
    destruct (Zdigits2_bounds (Z.pos m)) as [Hd _]; lia.
  - apply binary_round_aux_pos; [lia|].
    destruct (Zdigits2_bounds (Z.pos m)) as [Hd _]; lia.
  - apply binary_round_aux_pos; [lia|].
    destruct (Zdigits2_bounds (Z.pos (Pos.iter xO m d))) as [Hd _]; lia.
Qed.

Lemma SFpos_ltb (x : float) : (0 <? x)%float = true <-> SFpos (Prim2SF x).
Proof.
  rewrite FloatAxioms.ltb_spec, zero_spec. unfold SFltb.
  destruct (Prim2SF x) as [s|s| |s m e]; simpl;
    try (split; [discriminate|tauto]);
    destruct s; simpl; split; intros; congruence || reflexivity || discriminate.
Qed.

Lemma SFadd_pos (x y : spec_float) :
  valid_binary x = true -> valid_binary y = true ->
  SFnonneg x \/ (exists s, x = S754_zero s) -> x <> S754_nan -> SFpos y ->
  SFpos (SFadd prec emax x y).
Proof.
  intros Vx Vy Hx Nx Hy.
  assert (Sx : match x with
               | S754_infinity s | S754_finite s _ _ => s = false
               | _ => True
               end).
  { destruct x; try exact I; destruct Hx as [Hx|[s' Hx]];
      try discriminate; exact Hx. }
  destruct y as [sy|sy| |sy my ey]; simpl in Hy; try contradiction; subst sy;
    destruct x as [sx|sx| |sx mx ex]; try congruence; subst;
    try reflexivity.
  pose proof (valid_emin _ _ _ Vx). pose proof (valid_emin _ _ _ Vy).
  unfold SFadd.
  destruct (shl_align mx ex (Z.min ex ey)) as [a ea].
  destruct (shl_align my ey (Z.min ex ey)) as [b eb]. simpl.
  pose proof (binary_round_pos false (a + b) (Z.min ex ey)) as P.
  destruct (binary_round prec emax false (a + b) (Z.min ex ey));
    simpl; try (apply P; lia).
  all: exfalso; apply P; lia.
Qed.

(** Adding a positive float to one that is zero or above gives a positive
    float. *)
Lemma add_pos (x c : float) :
  (0 <=? x)%float = true -> (0 <? c)%float = true ->
  (0 <? x + c)%float = true.
Proof.
  intros Hx Hc. apply SFpos_ltb. apply SFpos_ltb in Hc.
  rewrite FloatAxioms.add_spec.
  apply SFadd_pos; try apply FloatAxioms.Prim2SF_valid; try exact Hc.
  - revert Hx. rewrite FloatAxioms.leb_spec, zero_spec. unfold SFleb.
    destruct (Prim2SF x) as [s|s| |s m e]; simpl; try discriminate.
    + intros _. right. eauto.
    + destruct s; [discriminate|]. intros _. left. reflexivity.
    + destruct s; [discriminate|]. intros _. left. reflexivity.
  - apply isNumber_spec. apply (leb_isNumber _ _ Hx).
Qed.

Lemma ltb_leb (x y : float) : (x <? y)%float = true -> (x <=? y)%float = true.
Proof.
  rewrite FloatAxioms.ltb_spec, FloatAxioms.leb_spec. unfold SFltb, SFleb.
  destruct (SFcompare _ _) as [[]|]; congruence.
Qed.

(** ** Fired bullets, and the loop over the enemies *)

Lemma firedBullet_advance (b : Bullet.t) :
  firedBullet b ->
  firedBullet (advanceBullet b) /\ bulletOnScreen (advanceBullet b) = true.
Proof.
  intros (HS & HZ & HY).
  assert (P : (0 <? Bullet.Y b + 8)%float = true)
    by (apply add_pos; [exact HY|reflexivity]).
  split.
  - split; [exact HS|]. split; [exact HZ|]. simpl. rewrite HS.
    apply ltb_leb, P.
  - unfold bulletOnScreen. simpl. rewrite HS, HZ.
    apply add_pos; [apply ltb_leb, P|reflexivity].
Qed.

Lemma moveBullets_fired (bs : list Bullet.t) :
  Forall firedBullet bs ->
  moveBullets bs = List.map advanceBullet bs /\
  Forall firedBullet (moveBullets bs).
Proof.
  induction 1 as [|b bs Hb Hbs [IH1 IH2]]; simpl; [split; constructor|].
  destruct (firedBullet_advance b Hb) as [Hf Ho]. rewrite Ho.
  split; [f_equal; exact IH1|constructor; assumption].
Qed.

Lemma newBullet_fired (p : Player.t) :
  Player.Size p = 32%float -> (0 <=? Player.Y p)%float = true ->
  firedBullet (newBullet p).
Proof.
  intros HS HY. repeat split. simpl. rewrite HS.
  apply ltb_leb, add_pos; [exact HY|reflexivity].
Qed.

Lemma inArena_Y (p : Player.t) :
  inArena p = true -> (0 <=? Player.Y p)%float = true.
Proof.
  unfold inArena. rewrite !andb_true_iff. tauto.
Qed.

Lemma beforeCollisions_score (inp : Input) (g : Game.t) (w : World) :
  Game.score (fst (beforeCollisions inp g w)) = Game.score g.
Proof.
  unfold beforeCollisions, bind, ret.
  destruct (viewport.Move _ w) as [vp w1].
  match goal with |- context [spawnEnemies ?a w1] =>
    destruct (spawnEnemies_fields a w1) as (c & es1 & E1);
    destruct (spawnEnemies a w1) as [g1 w2] end.
  simpl in E1. subst g1.
  match goal with |- context [updateEnemies ?a w2] =>
    destruct (updateEnemies_fields a w2) as (es2 & ebs2 & E2);
    destruct (updateEnemies a w2) as [g2 w3] end.
  simpl in E2. subst g2.
  unfold updateBullets, rampDifficulty, shoot, updatePlayer. simpl.
  destruct (Game.player g) eqn:P; simpl; rewrite ?P;
    destruct (mouseLeftJustPressed inp); simpl; rewrite ?P; reflexivity.
Qed.

Lemma UpdatePlaying_score (inp : Input) (g : Game.t) (w : World) :
  Game.score (fst (UpdatePlaying inp g w)) =
  snd (fst (collideBullets
              (moveBullets (Game.bullets (shoot inp (updatePlayer inp g))))
              (Game.enemies (fst (beforeCollisions inp g w)))
              (Game.score g) [])).
Proof.
  rewrite UpdatePlaying_split.
  destruct (playerCollisions_fields
              (bulletsVsEnemies (fst (beforeCollisions inp g w)))
              (snd (beforeCollisions inp g w))) as (ebs & st & ds & ->).
  simpl. unfold bulletsVsEnemies.
  rewrite beforeCollisions_bullets, beforeCollisions_score.
  destruct (collideBullets _ _ _ _) as [[es sc] rem]. reflexivity.
Qed.

(** One tick: every bullet of the list moves on, the one fired joins them,
    and those that hit an enemy leave for a point each. *)
Lemma UpdatePlaying_shots
    (inp : Input) (g : Game.t) (w : World) (p : Player.t) :
  Game.player g = Some p -> Player.Size p = 32%float -> inArena p = true ->
  Forall firedBullet (Game.bullets g) ->
  let g' := fst (UpdatePlaying inp g w) in
  Forall firedBullet (Game.bullets g') /\
  exists hits,
    (length (Game.bullets g)
     + (if mouseLeftJustPressed inp then 1 else 0))%nat =
      (length (Game.bullets g') + hits)%nat /\
    Game.score g' = Nat.iter hits (fun s => Go.add s 1) (Game.score g).
Proof.
  intros HP HS HA HF g'. subst g'.
  rewrite UpdatePlaying_bullets, UpdatePlaying_score, beforeCollisions_score.
  set (B := Game.bullets (shoot inp (updatePlayer inp g))).
  assert (HB : Forall firedBullet B /\
               length B = (length (Game.bullets g)
                           + (if mouseLeftJustPressed inp then 1 else 0))%nat).
  { subst B. unfold shoot, updatePlayer. rewrite HP. simpl.
    destruct (mouseLeftJustPressed inp); simpl.
    - split; [|rewrite length_app; reflexivity].
      apply Forall_app. split; [exact HF|]. constructor; [|constructor].
      destruct (inArena_isNumber p HA) as [NX NY].
      apply newBullet_fired; [exact HS|].
      apply inArena_Y, movePlayer_inArena; assumption.
    - split; [exact HF|lia]. }
  destruct HB as [HB HL].
  destruct (moveBullets_fired B HB) as [HM HMF].
  destruct (collideBullets_counts (moveBullets B)
              (Game.enemies (fst (beforeCollisions inp g w)))
              (Game.score g) [])
    as (kept & k & E1 & E2 & _ & E4 & E5).
  rewrite E1, E4. simpl. split.
  - apply List.Forall_forall. intros b Hb.
    rewrite List.Forall_forall in HMF. apply HMF, E5, Hb.
  - exists k. split; [|reflexivity].
    rewrite <- HL. rewrite HM, length_map in E2. lia.
Qed.

Lemma iter_add_one (k : nat) :
  forall sc, - 2 ^ 63 <= sc -> sc + Z.of_nat k < 2 ^ 63 ->
             Nat.iter k (fun s => Go.add s 1) sc = sc + Z.of_nat k.
Proof.
  induction k as [|k IH]; intros sc H1 H2; simpl; [lia|].
  rewrite IH by lia. rewrite add_one_exact by lia. lia.
Qed.

Lemma iter_add_one_plus (a b : nat) (sc : Z) :
  Nat.iter a (fun s => Go.add s 1) (Nat.iter b (fun s => Go.add s 1) sc) =
  Nat.iter (a + b) (fun s => Go.add s 1) sc.
Proof. symmetry. apply Nat.iter_add. Qed.

Lemma playTicks_shots (inps : list Input) :
  forall (g : Game.t) (w : World) (p : Player.t),
    Game.player g = Some p -> Player.Size p = 32%float -> inArena p = true ->
    Forall firedBullet (Game.bullets g) ->
    let g' := fst (playTicks inps g w) in
    Forall firedBullet (Game.bullets g') /\
    exists hits,
      (length (Game.bullets g) + shotsFired inps)%nat =
        (length (Game.bullets g') + hits)%nat /\
      Game.score g' = Nat.iter hits (fun s => Go.add s 1) (Game.score g).
Proof.
  induction inps as [|inp inps IH]; intros g w p HP HS HA HF.
  - simpl. split; [exact HF|]. exists 0%nat. split; [|reflexivity].
    unfold shotsFired. simpl. lia.
  - simpl playTicks. unfold bind.
    destruct (UpdatePlaying_shots inp g w p HP HS HA HF) as (F1 & k1 & L1 & S1).
    pose proof (UpdatePlaying_player inp g w) as P1. rewrite HP in P1.
    destruct (UpdatePlaying inp g w) as [g1 w1]. simpl in F1, L1, S1, P1.
    destruct (inArena_isNumber p HA) as [NX NY].
    destruct (IH g1 w1 (movePlayer inp p) P1 HS
                (movePlayer_inArena inp p HS NX NY) F1)
      as (F2 & k2 & L2 & S2).
    split; [exact F2|]. exists (k2 + k1)%nat. split.
    + unfold shotsFired in *. simpl.
      destruct (mouseLeftJustPressed inp); simpl length; lia.
    + rewrite S2, S1. apply iter_add_one_plus.
Qed.

(** * Enemies and their bullets through a tick *)

Lemma stepEnemy_cases (player : option Player.t) (e : Enemy.t) (w : World) :
  let r := fst (stepEnemy player e w) in
  match fst r with
  | None =>
      snd r = None /\
      (Enemy.Y e + Enemy.SpeedY e + Enemy.Size e <? 0)%float = true
  | Some e' =>
      movedEnemy e e' /\
      match snd r with
      | Some eb =>
          exists p, player = Some p /\ eb = aimedBullet p e' /\
                    (0 <? aim_dist p e')%float = true /\
                    60 <= Enemy.Cooldown e' < 120
      | None =>
          match player with
          | None => Enemy.Cooldown e' = Enemy.Cooldown e
          | Some _ => Enemy.Cooldown e' = Go.sub (Enemy.Cooldown e) 1
          end
      end
  end.
Proof.
  unfold stepEnemy, bind, ret. cbv zeta.
  change (Enemy.Y (set_Y (Enemy.Y e + Enemy.SpeedY e) e))
    with (Enemy.Y e + Enemy.SpeedY e)%float.
  change (Enemy.Size (set_Y (Enemy.Y e + Enemy.SpeedY e) e))
    with (Enemy.Size e).
  destruct (Enemy.Y e + Enemy.SpeedY e + Enemy.Size e <? 0)%float eqn:Off.
  - simpl. split; reflexivity.
  - destruct player as [p|].
    + destruct (Enemy.Cooldown (set_Cooldown _ _) <=? 0).
      * match goal with |- context [(0 <? ?d)%float] =>
          destruct (0 <? d)%float eqn:D end.
        -- pose proof (Intn_range 60 w eq_refl) as Hr.
           destruct (Intn 60 w) as [r w'] eqn:EI. cbn [fst snd] in *.
           split; [repeat split; exact Off|].
           exists p. split; [reflexivity|]. split; [reflexivity|].
           split; [exact D|].
           cbn [Enemy.Cooldown set_Cooldown].
           rewrite add_60_exact by exact Hr. lia.
        -- cbn [fst snd]. split; [repeat split; exact Off|reflexivity].
      * cbn [fst snd]. split; [repeat split; exact Off|reflexivity].
    + cbn [fst snd]. split; [repeat split; exact Off|reflexivity].
Qed.

(** The loop over the enemies: those kept follow the ones kept before, in
    order, each moved by its speed; the bullets fired follow the bullets
    there were, at most one for each enemy kept, each aimed from that enemy
    at the player. *)
Lemma moveEnemies_spec (player : option Player.t) (es : list Enemy.t) :
  forall moved ebs w,
  exists kept fired,
    fst (moveEnemies player es moved ebs w) = (moved ++ kept, ebs ++ fired) /\
    (length fired <= length kept <= length es)%nat /\
    (forall e', In e' kept -> exists e, In e es /\ keptEnemy player e e') /\
    (forall eb, In eb fired ->
       exists p e', player = Some p /\ In e' kept /\
                    eb = aimedBullet p e' /\
                    (0 <? aim_dist p e')%float = true) /\
    (player = None -> fired = []).
Proof.
  induction es as [|e es IH]; intros moved ebs w.
  - exists [], []. simpl. rewrite !app_nil_r.
    repeat split; auto; intros ? [].
  - simpl moveEnemies. unfold bind at 1.
    pose proof (stepEnemy_cases player e w) as C. cbv zeta in C.
    destruct (stepEnemy player e w) as [[oe ob] w1]. cbn [fst snd] in C |- *.
    destruct oe as [e'|].
    + destruct C as [Hm C].
      assert (HK : keptEnemy player e e').
      { split; [exact Hm|]. destruct ob as [eb|].
        - destruct C as (p & -> & _ & _ & R). right. exact R.
        - destruct player; [left|]; exact C. }
      clear Hm.
      assert (K1 : forall kept : list Enemy.t,
                 (forall x, In x kept ->
                            exists y, In y es /\ keptEnemy player y x) ->
                 forall x, In x (e' :: kept) ->
                           exists y, In y (e :: es) /\ keptEnemy player y x).
      { intros kept K x [<-|Hx].
        - exists e. split; [left; reflexivity|exact HK].
        - destruct (K x Hx) as (y & Hy & My). exists y.
          split; [right; exact Hy|exact My]. }
      destruct ob as [eb|].
      * destruct C as (p & EP & -> & D & _).
        destruct (IH (moved ++ [e']) (ebs ++ [aimedBullet p e']) w1)
          as (kept & fired & E & L & K & F & N).
        exists (e' :: kept), (aimedBullet p e' :: fired).
        rewrite E, <- !app_assoc. simpl.
        split; [reflexivity|]. split; [lia|].
        split; [exact (K1 kept K)|]. split.
        -- intros x [<-|Hx].
           ++ exists p, e'. split; [exact EP|]. split; [left; reflexivity|].
              split; [reflexivity|exact D].
           ++ destruct (F x Hx) as (q & y & Hq & Hy & Hxy). exists q, y.
              split; [exact Hq|]. split; [right; exact Hy|exact Hxy].
        -- intros EN. rewrite EN in EP. discriminate.
      * destruct (IH (moved ++ [e']) ebs w1)
          as (kept & fired & E & L & K & F & N).
        exists (e' :: kept), fired.
        rewrite E, <- !app_assoc. simpl.
        split; [reflexivity|]. split; [lia|].
        split; [exact (K1 kept K)|]. split.
        -- intros x Hx.
           destruct (F x Hx) as (q & y & Hq & Hy & Hxy). exists q, y.
           split; [exact Hq|]. split; [right; exact Hy|exact Hxy].
        -- exact N.
    + destruct C as [-> _].
      destruct (IH moved ebs w1) as (kept & fired & E & L & K & F & N).
      exists kept, fired. rewrite E.
      split; [reflexivity|]. split; [simpl; lia|]. split; [|split].
      * intros x Hx. destruct (K x Hx) as (y & Hy & My). exists y.
        split; [right; exact Hy|exact My].
      * exact F.
      * exact N.
Qed.

Lemma moveEnemyBullets_inv (ebs : list EnemyBullet.t) (eb' : EnemyBullet.t) :
  In eb' (moveEnemyBullets ebs) ->
  enemyBulletOnScreen eb' = true /\
  exists eb, In eb ebs /\ eb' = advanceEnemyBullet eb.
Proof.
  induction ebs as [|x ebs IH]; simpl; [tauto|].
  destruct (enemyBulletOnScreen (advanceEnemyBullet x)) eqn:E.
  - intros [<-|H].
    + split; [exact E|]. exists x. auto.
    + destruct (IH H) as [H1 (b & H2 & H3)]. split; [exact H1|].
      exists b. auto.
  - intros H. destruct (IH H) as [H1 (b & H2 & H3)]. split; [exact H1|].
    exists b. auto.
Qed.

Lemma moveEnemyBullets_In (ebs : list EnemyBullet.t) (eb : EnemyBullet.t) :
  In eb ebs -> enemyBulletOnScreen (advanceEnemyBullet eb) = true ->
  In (advanceEnemyBullet eb) (moveEnemyBullets ebs).
Proof.
  induction ebs as [|x ebs IH]; simpl; [tauto|].
  intros [->|H] Hs.
  - rewrite Hs. left. reflexivity.
  - destruct (enemyBulletOnScreen (advanceEnemyBullet x)); [right|]; auto.
Qed.

(** X1: the bullet movement never drops a bullet the player fired: such a
    bullet starts at or below the top with speed +8, and only the top edge
    is tested.  So from a reset and through any ticks, every listed bullet
    is a fired one, and the bullets still listed plus the score make up
    the number of presses of the fire button (as long as that number is
    below 2^63): a fired bullet leaves the list only by hitting an enemy. *)
Theorem fired_bullets_scored_or_listed
    (g0 : Game.t) (w0 w : World) (inps : list Input) :
  Z.of_nat (shotsFired inps) < 2 ^ 63 ->
  let g := fst (playTicks inps (fst (Reset g0 w0)) w) in
  Forall firedBullet (Game.bullets g) /\
  Z.of_nat (length (Game.bullets g)) + Game.score g =
    Z.of_nat (shotsFired inps).
Proof.
  intros HN g.
  destruct (playTicks_shots inps (fst (Reset g0 w0)) w
              (NewPlayer (Go.float64 (Go.quo screenWidth 2))
                         (Go.float64 (Go.quo screenHeight 2)))
              eq_refl eq_refl eq_refl (List.Forall_nil _))
    as (F & hits & L & S).
  fold g in F, L, S. split; [exact F|].
  simpl in L, S. rewrite S.
  rewrite iter_add_one; lia.
Qed.

Lemma fired_bullets_scored_or_listed_witness :
  let click := {| pressed := []; mouseLeftJustPressed := true |} in
  let idle := {| pressed := [KeyA]; mouseLeftJustPressed := false |} in
  let g := fst (playTicks [click; idle; click]
                  (fst (Reset initialGame sampleWorld)) sampleWorld) in
  Forall firedBullet (Game.bullets g) /\
  Z.of_nat (length (Game.bullets g)) + Game.score g = 2.
Proof.
  intros click idle.
  apply (fired_bullets_scored_or_listed initialGame sampleWorld sampleWorld
           [click; idle; click]).
  reflexivity.
Defined.

(** ** Spawning *)

Lemma beforeCollisions_phases (inp : Input) (g : Game.t) (w : World) :
  beforeCollisions inp g w =
  (g0 <- beforeSpawn inp g ;;
   g1 <- spawnEnemies g0 ;;
   g2 <- updateEnemies g1 ;;
   ret (updateBullets g2)) w.
Proof.
  unfold beforeCollisions, beforeSpawn, bind, ret.
  destruct (viewport.Move _ w) as [vp w1]. reflexivity.
Qed.

Lemma beforeSpawn_fields (inp : Input) (g : Game.t) (w : World) :
  let g0 := fst (beforeSpawn inp g w) in
  Game.player g0 = option_map (movePlayer inp) (Game.player g) /\
  Game.enemies g0 = Game.enemies g /\
  Game.enemyBullets g0 = Game.enemyBullets g /\
  Game.spawnCounter g0 = Game.spawnCounter g /\
  Game.spawnInterval g0 =
    rampInterval (Go.add (Game.elapsedFrames g) 1) (Game.spawnInterval g) /\
  Game.score g0 = Game.score g /\
  Game.gameState g0 = Game.gameState g.
Proof.
  unfold beforeSpawn, bind, ret.
  destruct (viewport.Move _ w) as [vp w1].
  unfold rampDifficulty, shoot, updatePlayer. simpl.
  destruct (Game.player g) eqn:P; simpl; rewrite ?P;
    destruct (mouseLeftJustPressed inp); simpl; rewrite ?P;
    repeat split.
Qed.

Lemma spawnX_checked :
  forallb (fun r => (32 <=? Go.float64 (Go.add 32 r))%float &&
                    (Go.float64 (Go.add 32 r) + 32 <=? 640)%float)
          (List.map Z.of_nat (seq 0 576)) = true.
Proof. vm_compute. reflexivity. Qed.

Lemma newEnemy_fresh (w : World) : freshEnemy (fst (newEnemy w)).
Proof.
  unfold newEnemy, bind, ret.
  pose proof (Intn_range (screenWidth - 64) w eq_refl) as R1.
  destruct (Intn (screenWidth - 64) w) as [x w1]. cbn [fst snd] in *.
  pose proof (Intn_range 60 w1 eq_refl) as R2.
  destruct (Intn 60 w1) as [c w2]. cbn [fst snd] in *.
  change (screenWidth - 64) with 576 in R1.
  pose proof spawnX_checked as C. rewrite forallb_forall in C.
  assert (I : In x (List.map Z.of_nat (seq 0 576))).
  { apply in_map_iff. exists (Z.to_nat x). split; [lia|].
    apply in_seq. lia. }
  specialize (C x I). apply andb_true_iff in C. destruct C as [C1 C2].
  unfold freshEnemy. cbn [Enemy.Y Enemy.Size Enemy.SpeedY Enemy.Dead
                          Enemy.Cooldown Enemy.X].
  split; [reflexivity|]. split; [reflexivity|]. split; [reflexivity|].
  split; [reflexivity|]. split; [|split; assumption].
  unfold Go.add. rewrite wrap_small.
  - lia.
  - change (2 ^ 63) with 9223372036854775808. lia.
Qed.

Lemma spawnBatch_spec (n : nat) :
  forall es w,
  exists new,
    fst (spawnBatch n es w) = es ++ new /\ length new = n /\
    Forall freshEnemy new.
Proof.
  induction n as [|n IH]; intros es w; simpl.
  - exists []. rewrite app_nil_r. repeat split. constructor.
  - unfold bind at 1.
    pose proof (newEnemy_fresh w) as F.
    destruct (newEnemy w) as [e w1]. cbn [fst snd] in *.
    destruct (IH (es ++ [e]) w1) as (new & E & L & FN).
    exists (e :: new). rewrite E, <- app_assoc. simpl.
    split; [reflexivity|]. split; [lia|]. constructor; assumption.
Qed.

Lemma numEnemies_range (i : Z) :
  10 <= i <= 90 -> numEnemies i = 1 + (90 - i) / 20 /\ 1 <= numEnemies i <= 5.
Proof.
  intros H. unfold numEnemies, Go.add, Go.quo, Go.sub.
  assert (Q : 0 <= (90 - i) / 20 <= 4).
  { split; [apply Z.div_pos; lia|].
    apply Z.div_le_upper_bound; lia. }
  rewrite (wrap_small (90 - i))
    by (change (2 ^ 63) with 9223372036854775808; lia).
  rewrite Z.quot_div_nonneg by lia.
  rewrite (wrap_small ((90 - i) / 20))
    by (change (2 ^ 63) with 9223372036854775808; lia).
  rewrite wrap_small by (change (2 ^ 63) with 9223372036854775808; lia).
  lia.
Qed.

Lemma spawnEnemies_spec (g : Game.t) (w : World) :
  let g' := fst (spawnEnemies g w) in
  let c := Go.add (Game.spawnCounter g) 1 in
  Game.player g' = Game.player g /\
  Game.enemyBullets g' = Game.enemyBullets g /\
  Game.spawnInterval g' = Game.spawnInterval g /\
  Game.score g' = Game.score g /\
  if Game.spawnInterval g <=? c
  then Game.spawnCounter g' = 0 /\
       exists new,
         Game.enemies g' = Game.enemies g ++ new /\
         length new = Z.to_nat (numEnemies (Game.spawnInterval g)) /\
         Forall freshEnemy new
  else Game.spawnCounter g' = c /\ Game.enemies g' = Game.enemies g.
Proof.
  unfold spawnEnemies, bind, ret. cbv zeta.
  cbn [Game.spawnInterval Game.spawnCounter Game.set_spawnCounter
       Game.enemies].
  destruct (_ <=? _).
  - match goal with |- context [spawnBatch ?n ?es w] =>
      destruct (spawnBatch_spec n es w) as (new & E & L & F);
      destruct (spawnBatch n es w) as [es' w'] end.
    cbn [fst snd] in *. subst es'.
    repeat split. exists new. repeat split; assumption.
  - repeat split.
Qed.

(** ** The collision passes *)

Lemma hitEnemy_alive_In (b : Bullet.t) (es es' : list Enemy.t) :
  hitEnemy b es = Some es' ->
  forall e, In e es' -> Enemy.Dead e = false -> In e es.
Proof.
  intros H e I D. apply hitEnemy_Some in H.
  destruct H as (l1 & e0 & l2 & -> & _ & _ & ->).
  apply in_app_or in I. apply in_or_app.
  destruct I as [I|[<-|I]]; [left; exact I| |right; right; exact I].
  discriminate.
Qed.

Lemma collideBullets_alive_In (bs : list Bullet.t) :
  forall es sc rem e,
    In e (fst (fst (collideBullets bs es sc rem))) ->
    Enemy.Dead e = false -> In e es.
Proof.
  induction bs as [|b bs IH]; intros es sc rem e I D; simpl in I.
  - exact I.
  - destruct (hitEnemy b es) as [es'|] eqn:H.
    + apply (hitEnemy_alive_In b es es' H); [|exact D].
      apply (IH _ _ _ _ I D).
    + apply (IH _ _ _ _ I D).
Qed.

Lemma bulletsVsEnemies_frame (g : Game.t) :
  let g' := bulletsVsEnemies g in
  Game.player g' = Game.player g /\
  Game.enemyBullets g' = Game.enemyBullets g /\
  Game.gameState g' = Game.gameState g /\
  Game.spawnCounter g' = Game.spawnCounter g /\
  Game.spawnInterval g' = Game.spawnInterval g /\
  forall e, In e (Game.enemies g') ->
            In e (Game.enemies g) /\ Enemy.Dead e = false.
Proof.
  unfold bulletsVsEnemies.
  pose proof (collideBullets_alive_In (Game.bullets g) (Game.enemies g)
                (Game.score g) []) as A.
  destruct (collideBullets _ _ _ _) as [[es sc] bs]. cbn [fst snd] in A.
  simpl. repeat split.
  - apply A; [|apply (removeDead_In es e H)].
    unfold removeDead in H. apply filter_In in H. apply H.
  - apply (removeDead_In es e H).
Qed.

(** What the player collisions leave, by cases on [playerDies]. *)
Lemma playerCollisions_cases (g : Game.t) (w : World) :
  let g' := fst (playerCollisions g w) in
  Game.player g' = Game.player g /\
  Game.enemies g' = Game.enemies g /\
  Game.bullets g' = Game.bullets g /\
  Game.score g' = Game.score g /\
  Game.spawnCounter g' = Game.spawnCounter g /\
  Game.spawnInterval g' = Game.spawnInterval g /\
  Game.enemyBullets g' =
    match Game.player g with
    | Some p => List.filter (fun eb => negb (enemyBulletHits p eb))
                            (Game.enemyBullets g)
    | None => Game.enemyBullets g
    end /\
  if playerDies g
  then Game.gameState g' =
         (if newRecord g w && nilTable w then Game.gameState g
          else "dead"%string) /\
       Game.deathScore g' = Game.score g
  else Game.gameState g' = Game.gameState g /\
       Game.deathScore g' = Game.deathScore g.
Proof.
  unfold playerCollisions, playerDies.
  destruct (Game.player g) as [p|] eqn:P; [|simpl; repeat split; exact P].
  cbv zeta. cbn [Game.enemies Game.set_enemyBullets].
  assert (N : forall ebs, newRecord (Game.set_enemyBullets ebs g) w
                          = newRecord g w) by reflexivity.
  destruct (existsb (enemyBulletHits p) _) eqn:E1.
  - rewrite die_fields, N.
    destruct (newRecord g w && nilTable w); simpl; repeat split; assumption.
  - destruct (existsb (enemyTouches p) _) eqn:E2.
    + rewrite die_fields, N.
      destruct (newRecord g w && nilTable w); simpl; repeat split;
        assumption.
    + simpl. repeat split; assumption.
Qed.

(** The mode and the panics of a tick, by cases on [playerDies]. *)
Lemma UpdatePlaying_contact (inp : Input) (g : Game.t) (w : World) :
  let pre := bulletsVsEnemies (fst (beforeCollisions inp g w)) in
  let g' := fst (UpdatePlaying inp g w) in
  let w' := snd (UpdatePlaying inp g w) in
  if playerDies pre
  then Game.deathScore g' = Game.score pre /\
       if newRecord pre w && nilTable w
       then Game.gameState g' = Game.gameState g /\
            panics w' =
              panics w ++ ["assignment to entry in nil map"%string]
       else Game.gameState g' = "dead"%string /\ panics w' = panics w
  else Game.gameState g' = Game.gameState g /\
       Game.deathScore g' = Game.deathScore g /\
       panics w' = panics w.
Proof.
  cbv zeta. rewrite UpdatePlaying_split.
  pose proof (beforeCollisions_store inp g w) as S.
  destruct (beforeCollisions_identity inp g w) as (_ & GS & DS).
  cbv zeta in GS, DS.
  set (pre := bulletsVsEnemies (fst (beforeCollisions inp g w))) in *.
  set (w1 := snd (beforeCollisions inp g w)) in *.
  destruct (playerCollisions_cases pre w1)
    as (_ & _ & _ & _ & _ & _ & _ & D).
  pose proof (sameStore_newRecord _ _ pre S) as NR.
  pose proof (sameStore_nilTable _ _ S) as NT.
  assert (SP : panics w1 = panics w) by apply S.
  destruct (playerDies pre) eqn:PD.
  - destruct D as [D1 D2]. split; [exact D2|].
    assert (PW : panics (snd (playerCollisions pre w1)) =
                 if newRecord pre w && nilTable w
                 then panics w ++ ["assignment to entry in nil map"%string]
                 else panics w).
    { destruct (playerCollisions_dies pre w1 PD) as [ebs E]. rewrite E.
      rewrite die_panics.
      change (newRecord (Game.set_enemyBullets ebs pre) w1)
        with (newRecord pre w1).
      rewrite NR, NT, SP. reflexivity. }
    rewrite NR, NT in D1. rewrite PW.
    destruct (newRecord pre w && nilTable w).
    + rewrite D1, GS. split; reflexivity.
    + split; [exact D1|reflexivity].
  - destruct D as [D1 D2]. rewrite D1, D2, GS, DS.
    destruct (playerCollisions_lives pre w1 PD) as (-> & _).
    repeat split. exact SP.
Qed.

(** The game as it enters the collision passes, over the game the tick
    started from. *)
Lemma beforeCollisions_entities (inp : Input) (g : Game.t) (w : World) :
  let b := fst (beforeCollisions inp g w) in
  let player' := option_map (movePlayer inp) (Game.player g) in
  let i := rampInterval (Go.add (Game.elapsedFrames g) 1)
                        (Game.spawnInterval g) in
  let c := Go.add (Game.spawnCounter g) 1 in
  Game.player b = player' /\
  Game.spawnInterval b = i /\
  Game.spawnCounter b = (if i <=? c then 0 else c) /\
  exists new fired,
    (if i <=? c then length new = Z.to_nat (numEnemies i) else new = []) /\
    Forall freshEnemy new /\
    Game.enemyBullets b = moveEnemyBullets (Game.enemyBullets g ++ fired) /\
    (length fired <= length (Game.enemies b)
                  <= length (Game.enemies g ++ new))%nat /\
    (forall e', In e' (Game.enemies b) ->
       exists e, In e (Game.enemies g ++ new) /\ keptEnemy player' e e') /\
    (forall eb, In eb fired ->
       exists p e', player' = Some p /\ In e' (Game.enemies b) /\
                    eb = aimedBullet p e' /\
                    (0 <? aim_dist p e')%float = true) /\
    (player' = None -> fired = []).
Proof.
  rewrite beforeCollisions_phases. unfold bind, ret.
  pose proof (beforeSpawn_fields inp g w) as F0. cbv zeta in F0.
  destruct (beforeSpawn inp g w) as [g0 w0]. cbn [fst snd] in F0.
  destruct F0 as (P0 & E0 & B0 & C0 & I0 & _).
  pose proof (spawnEnemies_spec g0 w0) as F1. cbv zeta in F1.
  destruct (spawnEnemies g0 w0) as [g1 w1]. cbn [fst snd] in F1.
  destruct F1 as (P1 & B1 & I1 & _ & S1).
  rewrite P0 in P1. rewrite B0 in B1. rewrite I0 in I1.
  rewrite I0, C0, E0 in S1.
  unfold updateEnemies, bind, ret.
  destruct (moveEnemies_spec (Game.player g1) (Game.enemies g1) []
              (Game.enemyBullets g1) w1)
    as (kept & fired & EM & L & K & F & N).
  destruct (moveEnemies _ _ _ _ w1) as [r w2]. cbn [fst snd] in *.
  subst r. cbn [fst snd]. unfold updateBullets. simpl.
  rewrite P1, I1, B1 in *.
  split; [reflexivity|]. split; [reflexivity|].
  destruct (_ <=? _).
  - destruct S1 as (SC & new & EN & LN & FN). rewrite EN in *.
    split; [exact SC|]. exists new, fired.
    repeat (split; [assumption || reflexivity|]). assumption.
  - destruct S1 as (SC & EN). rewrite EN in *.
    split; [exact SC|]. exists [], fired. rewrite app_nil_r.
    split; [reflexivity|]. split; [constructor|].
    repeat (split; [assumption || reflexivity|]). assumption.
Qed.

(** The game the tick leaves, over the game that enters the player
    collisions. *)
Lemma UpdatePlaying_over_pre (inp : Input) (g : Game.t) (w : World) :
  let b := fst (beforeCollisions inp g w) in
  let g' := fst (UpdatePlaying inp g w) in
  Game.player g' = Game.player b /\
  Game.spawnCounter g' = Game.spawnCounter b /\
  Game.spawnInterval g' = Game.spawnInterval b /\
  (forall e, In e (Game.enemies g') ->
             In e (Game.enemies b) /\ Enemy.Dead e = false) /\
  Game.enemyBullets g' =
    match Game.player b with
    | Some p => List.filter (fun eb => negb (enemyBulletHits p eb))
                            (Game.enemyBullets b)
    | None => Game.enemyBullets b
    end.
Proof.
  cbv zeta. rewrite UpdatePlaying_split.
  destruct (playerCollisions_cases
              (bulletsVsEnemies (fst (beforeCollisions inp g w)))
              (snd (beforeCollisions inp g w)))
    as (P & E & _ & _ & C & I & B & _).
  destruct (bulletsVsEnemies_frame (fst (beforeCollisions inp g w)))
    as (P' & B' & _ & C' & I' & E').
  rewrite P, E, C, I, B, P', B', C', I'.
  repeat split; try apply E'; assumption.
Qed.

(** ** Enemies fire at the player *)

(** One pass of the enemy loop with a player. *)
Lemma stepEnemy_fires (p : Player.t) (e : Enemy.t) (w : World) :
  stepEnemy (Some p) e w =
  if staysOn e
  then if fires p e
       then (Some (set_Cooldown (Go.add 60 (fst (Intn 60 w)))
                                (tickedEnemy e)),
             Some (aimedBullet p (tickedEnemy e)), snd (Intn 60 w))
       else (Some (tickedEnemy e), None, w)
  else (None, None, w).
Proof.
  unfold stepEnemy, fires, cooldownOver, staysOn, tickedEnemy. cbv zeta.
  cbn [Enemy.Y Enemy.Size Enemy.Cooldown set_Y set_Cooldown].
  destruct (_ <? 0)%float; [reflexivity|]. cbn [negb andb].
  destruct (_ <=? 0); [|reflexivity]. cbn [andb].
  destruct (0 <? _)%float; reflexivity.
Qed.

(** The enemy loop with a player: the bullets it appends and the enemies
    it keeps, in the order of the list. *)
Lemma moveEnemies_fires (p : Player.t) (es : list Enemy.t) :
  forall moved ebs w,
    snd (fst (moveEnemies (Some p) es moved ebs w)) =
      ebs ++ List.map (fun e => aimedBullet p (tickedEnemy e))
                      (List.filter (fires p) es) /\
    exists kept,
      fst (fst (moveEnemies (Some p) es moved ebs w)) = moved ++ kept /\
      Forall2 (afterLoop p) (List.filter staysOn es) kept.
Proof.
  induction es as [|e es IH]; intros moved ebs w; simpl.
  - rewrite app_nil_r. split; [reflexivity|].
    exists []. rewrite app_nil_r. split; [reflexivity|constructor].
  - unfold bind. rewrite stepEnemy_fires.
    assert (FS : fires p e = true -> staysOn e = true).
    { unfold fires, cooldownOver. intros H.
      apply andb_true_iff in H. destruct H as [H _].
      apply andb_true_iff in H. apply H. }
    destruct (staysOn e) eqn:S.
    + destruct (fires p e) eqn:F; cbn [fst snd].
      * match goal with |- context [moveEnemies _ es ?m ?b ?w'] =>
          destruct (IH m b w') as (I1 & kept & I2 & I3) end.
        rewrite I1, I2. simpl. rewrite <- !app_assoc.
        split; [reflexivity|].
        eexists. split; [reflexivity|]. constructor; [|exact I3].
        unfold afterLoop. rewrite F.
        pose proof (Intn_range 60 w eq_refl) as R.
        exists (Go.add 60 (fst (Intn 60 w))).
        split; [rewrite add_60_exact by exact R; lia|reflexivity].
      * match goal with |- context [moveEnemies _ es ?m ?b ?w'] =>
          destruct (IH m b w') as (I1 & kept & I2 & I3) end.
        rewrite I1, I2. rewrite <- !app_assoc.
        split; [reflexivity|].
        eexists. split; [reflexivity|]. constructor; [|exact I3].
        unfold afterLoop. rewrite F. reflexivity.
    + destruct (fires p e) eqn:F; [specialize (FS eq_refl); discriminate|].
      cbn [fst snd]. apply IH.
Qed.

(** An enemy that has just been spawned does not fire. *)
Lemma fresh_holds_fire (p : Player.t) (new : list Enemy.t) :
  Forall freshEnemy new -> List.filter (fires p) new = [].
Proof.
  induction 1 as [|e new F _ IH]; [reflexivity|]. simpl. rewrite IH.
  destruct F as (_ & _ & _ & _ & C & _).
  unfold fires, cooldownOver, tickedEnemy. cbv zeta.
  cbn [Enemy.Cooldown set_Cooldown set_Y].
  replace (Go.sub (Enemy.Cooldown e) 1 <=? 0) with false.
  - rewrite andb_false_r. reflexivity.
  - symmetry. apply Z.leb_gt. unfold Go.sub. rewrite wrap_small; [lia|].
    change (2 ^ 63) with 9223372036854775808. lia.
Qed.

(** The enemy bullets of a tick with a player. *)
Lemma beforeCollisions_fires (inp : Input) (g : Game.t) (w : World)
    (p : Player.t) :
  Game.player g = Some p ->
  let p' := movePlayer inp p in
  let b := fst (beforeCollisions inp g w) in
  Game.player b = Some p' /\
  Game.enemyBullets b =
    moveEnemyBullets
      (Game.enemyBullets g ++
       List.map (fun e => aimedBullet p' (tickedEnemy e))
                (List.filter (fires p') (Game.enemies g))) /\
  exists new,
    Forall freshEnemy new /\
    Forall2 (afterLoop p') (List.filter staysOn (Game.enemies g ++ new))
            (Game.enemies b).
Proof.
  intros HP p' b. subst b. rewrite beforeCollisions_phases.
  unfold bind, ret.
  destruct (beforeSpawn_fields inp g w) as (P0 & E0 & B0 & _).
  cbv zeta in P0, E0, B0.
  destruct (beforeSpawn inp g w) as [g0 w0]. cbn [fst snd] in *.
  destruct (spawnEnemies_spec g0 w0) as (P1 & B1 & _ & _ & S1).
  cbv zeta in P1, B1, S1.
  assert (N : exists new,
             Game.enemies (fst (spawnEnemies g0 w0)) = Game.enemies g0 ++ new
             /\ Forall freshEnemy new).
  { destruct (_ <=? _).
    - destruct S1 as (_ & new & E & _ & F). exists new. split; assumption.
    - exists []. rewrite app_nil_r. split; [apply S1|constructor]. }
  clear S1.
  destruct (spawnEnemies g0 w0) as [g1 w1]. cbn [fst snd] in *.
  destruct N as (new & E1 & F1).
  rewrite HP in P0. cbn [option_map] in P0. fold p' in P0.
  unfold updateEnemies, bind, ret. rewrite P1, P0.
  destruct (moveEnemies_fires p' (Game.enemies g1) [] (Game.enemyBullets g1)
              w1) as (L1 & kept & L2 & L3).
  destruct (moveEnemies (Some p') (Game.enemies g1) [] (Game.enemyBullets g1)
              w1) as [[es2 ebs2] w2].
  cbn [fst snd] in *. subst es2 ebs2.
  unfold updateBullets.
  cbn [Game.player Game.enemyBullets Game.enemies Game.set_bullets
       Game.set_enemyBullets Game.set_enemies].
  rewrite P1, P0, B1, B0, E1, E0.
  rewrite List.filter_app, (fresh_holds_fire p' new F1), app_nil_r.
  split; [reflexivity|]. split; [reflexivity|].
  exists new. split; [exact F1|].
  rewrite E1, E0 in L3. exact L3.
Qed.

(** C9: the enemy loop of a playing tick, with a player [p].  An enemy
    that is kept on the screen and whose cooldown, once decremented, is
    zero or below fires nothing when the squared distance [d] between its
    centre and the player's is zero, and its cooldown stays as
    decremented; when [0 < d] it fires exactly one bullet, from its
    centre, with velocity [(dx / sqrt d * 5, dy / sqrt d * 5)], where the
    divisor [sqrt d] is above zero, and its cooldown becomes [60 + r] with
    [r] drawn in [[0, 60)]; a bullet is fired only when [0 < d], and a [d]
    that is a number other than zero is above zero.  The loop as a whole
    appends to the enemy bullets one such bullet for each enemy that fires,
    in the order of the list, and nothing else; it keeps the enemies that
    have not left through the top, each moved and counted down, with the
    cooldown set anew in [[60, 120)] exactly for those that fired.  So in a
    tick the bullets the enemies fire at the player, where the tick has
    moved him, are those of the enemies of the list that fire (the
    enemies spawned in the tick do not); they are moved with the other
    enemy bullets, and those that reach the player are taken out by the
    collision pass. *)
Theorem enemy_fires_at_player :
  (forall (p : Player.t) (e : Enemy.t) (w : World),
     let e1 := set_Y (Enemy.Y e + Enemy.SpeedY e)%float e in
     let e2 := set_Cooldown (Go.sub (Enemy.Cooldown e) 1) e1 in
     let d := aim_dist p e2 in
     let r := fst (Intn 60 w) in
     (Enemy.Y e1 + Enemy.Size e1 <? 0)%float = false ->
     Enemy.Cooldown e2 <= 0 ->
     ((d =? 0)%float = true ->
      stepEnemy (Some p) e w = (Some e2, None, w) /\
      forall moved ebs,
        moveEnemies (Some p) [e] moved ebs w = (moved ++ [e2], ebs, w)) /\
     ((0 <? d)%float = true ->
      stepEnemy (Some p) e w =
        (Some (set_Cooldown (Go.add 60 r) e2), Some (aimedBullet p e2),
         snd (Intn 60 w)) /\
      (forall moved ebs,
        moveEnemies (Some p) [e] moved ebs w =
          (moved ++ [set_Cooldown (Go.add 60 r) e2],
           ebs ++ [aimedBullet p e2], snd (Intn 60 w))) /\
      Go.add 60 r = 60 + r /\ 60 <= 60 + r < 120 /\
      EnemyBullet.SpeedX (aimedBullet p e2) =
        (aim_dx p e2 / PrimFloat.sqrt d * 5)%float /\
      EnemyBullet.SpeedY (aimedBullet p e2) =
        (aim_dy p e2 / PrimFloat.sqrt d * 5)%float /\
      (0 <? PrimFloat.sqrt d)%float = true) /\
     (snd (fst (stepEnemy (Some p) e w)) <> None -> (0 <? d)%float = true) /\
     (F64.isNumber d = true -> (d =? 0)%float = false ->
      (0 <? d)%float = true)) /\
  (forall (p : Player.t) (e : Enemy.t),
     let d := aim_dist p (tickedEnemy e) in
     ((d =? 0)%float = true -> fires p e = false) /\
     (cooldownOver e = true -> F64.isNumber d = true ->
      (d =? 0)%float = false -> fires p e = true) /\
     (fires p e = true ->
      cooldownOver e = true /\ (0 <? d)%float = true /\
      (0 <? PrimFloat.sqrt d)%float = true)) /\
  (forall (p : Player.t) (es moved : list Enemy.t)
          (ebs : list EnemyBullet.t) (w : World),
     let r := fst (moveEnemies (Some p) es moved ebs w) in
     snd r = ebs ++ List.map (fun e => aimedBullet p (tickedEnemy e))
                             (List.filter (fires p) es) /\
     exists kept,
       fst r = moved ++ kept /\
       Forall2 (afterLoop p) (List.filter staysOn es) kept) /\
  (forall (g : Game.t) (w : World) (p : Player.t),
     Game.player g = Some p ->
     let g' := fst (updateEnemies g w) in
     Game.enemyBullets g' =
       Game.enemyBullets g ++
       List.map (fun e => aimedBullet p (tickedEnemy e))
                (List.filter (fires p) (Game.enemies g)) /\
     Forall2 (afterLoop p) (List.filter staysOn (Game.enemies g))
             (Game.enemies g')) /\
  (forall (inp : Input) (g : Game.t) (w : World) (p : Player.t),
     Game.player g = Some p ->
     let p' := movePlayer inp p in
     let fired := List.map (fun e => aimedBullet p' (tickedEnemy e))
                           (List.filter (fires p') (Game.enemies g)) in
     let b := fst (beforeCollisions inp g w) in
     let g' := fst (UpdatePlaying inp g w) in
     Game.enemyBullets b = moveEnemyBullets (Game.enemyBullets g ++ fired) /\
     Game.enemyBullets g' =
       List.filter (fun eb => negb (enemyBulletHits p' eb))
                   (moveEnemyBullets (Game.enemyBullets g ++ fired)) /\
     exists new,
       Forall freshEnemy new /\
       List.filter (fires p') new = [] /\
       Forall2 (afterLoop p') (List.filter staysOn (Game.enemies g ++ new))
               (Game.enemies b)).
Proof.
  split; [|split; [|split; [|split]]].
  - intros p e w e1 e2 d r Hon Hc.
    assert (Hc' : (Enemy.Cooldown e2 <=? 0) = true) by (apply Z.leb_le, Hc).
    assert (Step : stepEnemy (Some p) e w =
                   if (0 <? d)%float
                   then (Some (set_Cooldown (Go.add 60 r) e2),
                         Some (aimedBullet p e2), snd (Intn 60 w))
                   else (Some e2, None, w)).
    { unfold stepEnemy. cbv zeta. fold e1. rewrite Hon.
      change (set_Cooldown (Go.sub (Enemy.Cooldown e1) 1) e1) with e2.
      rewrite Hc'. fold d. destruct (0 <? d)%float; reflexivity. }
    assert (Move : forall moved ebs,
               moveEnemies (Some p) [e] moved ebs w =
               if (0 <? d)%float
               then (moved ++ [set_Cooldown (Go.add 60 r) e2],
                     ebs ++ [aimedBullet p e2], snd (Intn 60 w))
               else (moved ++ [e2], ebs, w)).
    { intros moved ebs. simpl. unfold bind. rewrite Step.
      destruct (0 <? d)%float; reflexivity. }
    pose proof (Intn_range 60 w eq_refl) as Hr. fold r in Hr.
    split; [|split; [|split]].
    + intros Hz. apply F64Facts.eqb_zero_not_pos in Hz.
      rewrite Step. split; [|intros moved ebs; rewrite Move]; rewrite Hz;
        reflexivity.
    + intros Hp. rewrite Step. split; [rewrite Hp; reflexivity|].
      split; [intros moved ebs; rewrite Move, Hp; reflexivity|].
      split; [apply add_60_exact, Hr|]. split; [lia|].
      split; [reflexivity|]. split; [reflexivity|].
      apply F64Facts.sqrt_pos, Hp.
    + rewrite Step. destruct (0 <? d)%float; [reflexivity|].
      simpl. congruence.
    + apply F64Facts.sum_of_squares_pos.
  - intros p e d. unfold fires. fold d. split; [|split].
    + intros Hz. apply F64Facts.eqb_zero_not_pos in Hz. rewrite Hz.
      apply andb_false_r.
    + intros C N Z0. rewrite C.
      unfold d, aim_dist in *.
      rewrite (F64Facts.sum_of_squares_pos _ _ N Z0). reflexivity.
    + intros H. apply andb_true_iff in H. destruct H as [C P].
      split; [exact C|]. split; [exact P|].
      apply F64Facts.sqrt_pos, P.
  - intros p es moved ebs w. apply moveEnemies_fires.
  - intros g w p HP. cbv zeta. unfold updateEnemies, bind, ret. rewrite HP.
    destruct (moveEnemies_fires p (Game.enemies g) [] (Game.enemyBullets g) w)
      as (L1 & kept & L2 & L3).
    destruct (moveEnemies (Some p) (Game.enemies g) [] (Game.enemyBullets g)
                w) as [[es2 ebs2] w2].
    cbn [fst snd] in *. subst es2 ebs2.
    split; [reflexivity|exact L3].
  - intros inp g w p HP p' fired b g'.
    destruct (beforeCollisions_fires inp g w p HP) as (PB & EB & new & F & K).
    cbv zeta in PB, EB, K. fold p' in PB, EB, K. fold fired in EB.
    split; [exact EB|]. split.
    + subst g'. rewrite UpdatePlaying_split.
      destruct (playerCollisions_cases
                  (bulletsVsEnemies (fst (beforeCollisions inp g w)))
                  (snd (beforeCollisions inp g w)))
        as (_ & _ & _ & _ & _ & _ & E & _).
      destruct (bulletsVsEnemies_frame (fst (beforeCollisions inp g w)))
        as (P2 & B2 & _).
      cbv zeta in E, P2, B2. rewrite E, P2, B2, PB, EB. reflexivity.
    + exists new. split; [exact F|].
      split; [apply fresh_holds_fire, F|exact K].
Qed.

(** An enemy below and to the left of the player fires; one whose centre
    is the player's centre does not. *)
Lemma enemy_fires_at_player_witness :
  let p := NewPlayer 320 240 in
  let shooter :=
    {| Enemy.X := 100; Enemy.Y := 402; Enemy.Size := 32;
       Enemy.SpeedY := (-2)%float; Enemy.Cooldown := 1;
       Enemy.Dead := false |} in
  let onTop :=
    {| Enemy.X := 320; Enemy.Y := 242; Enemy.Size := 32;
       Enemy.SpeedY := (-2)%float; Enemy.Cooldown := 1;
       Enemy.Dead := false |} in
  let shot :=
    {| EnemyBullet.X := 113; EnemyBullet.Y := 413;
       EnemyBullet.SpeedX := (220 / PrimFloat.sqrt 74000 * 5)%float;
       EnemyBullet.SpeedY := (-160 / PrimFloat.sqrt 74000 * 5)%float;
       EnemyBullet.Size := 6 |} in
  let g := Game.set_enemies [onTop; shooter] annPlaying in
  snd (fst (stepEnemy (Some p) shooter sampleWorld)) = Some shot /\
  option_map Enemy.Cooldown (fst (fst (stepEnemy (Some p) shooter sampleWorld)))
    = Some 73 /\
  snd (fst (stepEnemy (Some p) onTop sampleWorld)) = None /\
  Game.enemyBullets (fst (updateEnemies g sampleWorld)) = [shot] /\
  Game.enemyBullets (fst (beforeCollisions noInput g sampleWorld)) =
    [advanceEnemyBullet shot].
Proof.
  intros p shooter onTop shot g.
  destruct enemy_fires_at_player as (A & _ & _ & U & T).
  destruct (A p shooter sampleWorld eq_refl)
    as (_ & H & _); [vm_compute; discriminate|].
  destruct (H eq_refl) as (-> & _).
  destruct (A p onTop sampleWorld eq_refl)
    as (H0 & _); [vm_compute; discriminate|].
  destruct (H0 eq_refl) as (-> & _).
  destruct (U g sampleWorld p eq_refl) as (-> & _).
  destruct (T noInput g sampleWorld p eq_refl) as (-> & _).
  repeat split.
Defined.

(** X2: an enemy listed after a tick is not dead and not past the top
    edge, and it is an enemy of the list before the tick, or one spawned in
    this tick, moved by its speed along y with x, size, speed and the dead
    flag unchanged; its cooldown is the old one without a player, and with
    a player the old one less one or, after a shot, a new one in
    [60, 120). *)
Theorem enemies_after_tick
    (inp : Input) (g : Game.t) (w : World) (e' : Enemy.t) :
  let g' := fst (UpdatePlaying inp g w) in
  In e' (Game.enemies g') ->
  Enemy.Dead e' = false /\
  (Enemy.Y e' + Enemy.Size e' <? 0)%float = false /\
  exists e, (In e (Game.enemies g) \/ freshEnemy e) /\
            keptEnemy (Game.player g') e e'.
Proof.
  intros g' H.
  destruct (UpdatePlaying_over_pre inp g w) as (P & _ & _ & E & _).
  destruct (beforeCollisions_entities inp g w)
    as (P' & _ & _ & new & fired & _ & FN & _ & _ & K & _).
  fold g' in P, E. rewrite <- P in P'. rewrite <- P' in K.
  destruct (E e' H) as [H1 H2]. split; [exact H2|].
  destruct (K e' H1) as (e & I & KE).
  split; [apply KE|].
  exists e. split; [|exact KE].
  apply in_app_or in I. destruct I as [I|I]; [left; exact I|right].
  rewrite List.Forall_forall in FN. apply FN, I.
Qed.

Lemma enemies_after_tick_witness :
  let e := {| Enemy.X := 100; Enemy.Y := 400; Enemy.Size := 32;
              Enemy.SpeedY := (-2)%float; Enemy.Cooldown := 40;
              Enemy.Dead := false |} in
  let e' := {| Enemy.X := 100; Enemy.Y := 398; Enemy.Size := 32;
               Enemy.SpeedY := (-2)%float; Enemy.Cooldown := 39;
               Enemy.Dead := false |} in
  let inp := {| pressed := []; mouseLeftJustPressed := false |} in
  let g' := fst (UpdatePlaying inp (Game.set_enemies [e] annPlaying)
                   sampleWorld) in
  Enemy.Dead e' = false /\
  (Enemy.Y e' + Enemy.Size e' <? 0)%float = false /\
  exists e0, (In e0 [e] \/ freshEnemy e0) /\ keptEnemy (Game.player g') e0 e'.
Proof.
  intros e e' inp.
  apply (enemies_after_tick inp (Game.set_enemies [e] annPlaying)
           sampleWorld e').
  left. reflexivity.
Defined.

(** X3: an enemy bullet listed after a tick is on the screen by all four
    edges, does not overlap the player, and is one step of flight after a
    bullet listed before the tick or after a bullet fired in this tick,
    aimed at the moved player from an enemy at a distance above zero: a
    new enemy bullet makes its first step in the tick it is fired in. *)
Theorem enemy_bullets_after_tick
    (inp : Input) (g : Game.t) (w : World) (eb' : EnemyBullet.t) :
  let g' := fst (UpdatePlaying inp g w) in
  In eb' (Game.enemyBullets g') ->
  enemyBulletOnScreen eb' = true /\
  (forall p, Game.player g' = Some p -> enemyBulletHits p eb' = false) /\
  exists eb,
    eb' = advanceEnemyBullet eb /\
    (In eb (Game.enemyBullets g) \/
     exists p e e0,
       Game.player g' = Some p /\ eb = aimedBullet p e /\
       (0 <? aim_dist p e)%float = true /\
       (In e0 (Game.enemies g) \/ freshEnemy e0) /\
       keptEnemy (Some p) e0 e).
Proof.
  intros g' H.
  destruct (UpdatePlaying_over_pre inp g w) as (P & _ & _ & _ & B).
  destruct (beforeCollisions_entities inp g w)
    as (P' & _ & _ & new & fired & _ & FN & EB & _ & K & F & _).
  fold g' in P, B. rewrite <- P in P', B. rewrite <- P' in K, F.
  rewrite B in H. clear B.
  assert (H1 : In eb' (Game.enemyBullets (fst (beforeCollisions inp g w))) /\
               forall p, Game.player g' = Some p ->
                         enemyBulletHits p eb' = false).
  { destruct (Game.player g') as [p|].
    - apply filter_In in H. destruct H as [H1 H2].
      split; [exact H1|]. intros q [= <-].
      apply negb_true_iff in H2. exact H2.
    - split; [exact H|]. discriminate. }
  destruct H1 as [H1 H2]. rewrite EB in H1.
  apply moveEnemyBullets_inv in H1. destruct H1 as (S & eb & I & ->).
  split; [exact S|]. split; [exact H2|].
  exists eb. split; [reflexivity|].
  apply in_app_or in I. destruct I as [I|I]; [left; exact I|right].
  destruct (F eb I) as (p & e & EP & IE & -> & D).
  destruct (K e IE) as (e0 & I0 & K0). rewrite EP in K0.
  exists p, e, e0. split; [exact EP|]. split; [reflexivity|].
  split; [exact D|]. split; [|exact K0].
  apply in_app_or in I0. destruct I0 as [I0|I0]; [left; exact I0|right].
  rewrite List.Forall_forall in FN. apply FN, I0.
Qed.

Lemma enemy_bullets_after_tick_witness :
  let eb := {| EnemyBullet.X := 100; EnemyBullet.Y := 400;
               EnemyBullet.SpeedX := 3; EnemyBullet.SpeedY := (-4)%float;
               EnemyBullet.Size := 6 |} in
  let inp := {| pressed := [KeyD]; mouseLeftJustPressed := false |} in
  let g := Game.set_enemyBullets [eb] annPlaying in
  let g' := fst (UpdatePlaying inp g sampleWorld) in
  Game.enemyBullets g' = [advanceEnemyBullet eb] /\
  enemyBulletOnScreen (advanceEnemyBullet eb) = true /\
  forall p, Game.player g' = Some p ->
            enemyBulletHits p (advanceEnemyBullet eb) = false.
Proof.
  intros eb inp g g'.
  assert (E : Game.enemyBullets g' = [advanceEnemyBullet eb])
    by reflexivity.
  split; [exact E|].
  destruct (enemy_bullets_after_tick inp g sampleWorld
              (advanceEnemyBullet eb)) as (H1 & H2 & _).
  - fold g'. rewrite E. left. reflexivity.
  - split; [exact H1|exact H2].
Defined.

Lemma filter_all {A : Type} (f : A -> bool) (l : list A) :
  (forall x, In x l -> f x = true) -> List.filter f l = l.
Proof.
  induction l as [|x l IH]; intros H; simpl; [reflexivity|].
  rewrite (H x (or_introl eq_refl)). f_equal.
  apply IH. intros y I. apply H. right. exact I.
Qed.

(** X4: the player collisions write neither the player, the enemies, the
    player's bullets nor the score.  When the player overlaps an enemy
    bullet or an enemy as he enters them, the death score becomes the
    score, kills of this tick included, and the tick ends in the mode
    "dead" without a panic, unless a record is to be stored (a username
    that is not empty, a score above the stored one) and the table is the
    nil map: then the write panics and the mode is left as it was.  When
    he does not, the mode and the death score stay, nothing panics, no
    enemy bullet is removed, and no enemy and no enemy bullet left by the
    tick overlaps the player. *)
Theorem tick_kills_on_contact (inp : Input) (g : Game.t) (w : World) :
  let pre := bulletsVsEnemies (fst (beforeCollisions inp g w)) in
  let g' := fst (UpdatePlaying inp g w) in
  let w' := snd (UpdatePlaying inp g w) in
  Game.player g' = Game.player pre /\
  Game.enemies g' = Game.enemies pre /\
  Game.bullets g' = Game.bullets pre /\
  Game.score g' = Game.score pre /\
  (playerDies pre = true ->
   let nilWrite := negb (String.eqb (Game.username g) "")
                   && (storedScore (Game.username g) w <? Game.score g')
                   && nilTable w in
   Game.deathScore g' = Game.score g' /\
   (nilWrite = true ->
    Game.gameState g' = Game.gameState g /\
    panics w' = panics w ++ ["assignment to entry in nil map"%string]) /\
   (nilWrite = false ->
    Game.gameState g' = "dead"%string /\ panics w' = panics w)) /\
  (playerDies pre = false ->
   Game.gameState g' = Game.gameState g /\
   Game.deathScore g' = Game.deathScore g /\
   panics w' = panics w /\
   Game.enemyBullets g' = Game.enemyBullets pre /\
   forall p, Game.player g' = Some p ->
     Forall (fun e => enemyTouches p e = false) (Game.enemies g') /\
     Forall (fun eb => enemyBulletHits p eb = false)
            (Game.enemyBullets g')).
Proof.
  cbv zeta.
  pose proof (UpdatePlaying_contact inp g w) as C. cbv zeta in C.
  destruct (beforeCollisions_identity inp g w) as (IU & _ & _).
  cbv zeta in IU.
  revert C. rewrite UpdatePlaying_split. intros C.
  destruct (playerCollisions_cases
              (bulletsVsEnemies (fst (beforeCollisions inp g w)))
              (snd (beforeCollisions inp g w)))
    as (P & E & B & S & _ & _ & EB & _).
  set (pre := bulletsVsEnemies (fst (beforeCollisions inp g w))) in *.
  set (g' := fst (playerCollisions pre (snd (beforeCollisions inp g w))))
    in *.
  split; [exact P|]. split; [exact E|]. split; [exact B|].
  split; [exact S|]. split.
  - intros HD. rewrite HD in C. destruct C as [C1 C2].
    rewrite S. split; [exact C1|].
    unfold newRecord in C2. rewrite IU in C2.
    split; intros X; rewrite X in C2; exact C2.
  - intros HD. rewrite HD in C. destruct C as (C1 & C2 & C3).
    split; [exact C1|]. split; [exact C2|]. split; [exact C3|].
    unfold playerDies in HD. rewrite P, E.
    destruct (Game.player pre) as [p|].
    + apply orb_false_iff in HD. destruct HD as [HB HE].
      assert (A : forall eb, In eb (Game.enemyBullets pre) ->
                             enemyBulletHits p eb = false).
      { intros eb I. destruct (enemyBulletHits p eb) eqn:X; [|reflexivity].
        rewrite <- HB. symmetry. apply existsb_exists.
        exists eb. split; assumption. }
      assert (EQ : Game.enemyBullets g' = Game.enemyBullets pre).
      { rewrite EB. apply filter_all. intros eb I.
        rewrite (A eb I). reflexivity. }
      split; [exact EQ|]. intros q [= <-]. split.
      * apply List.Forall_forall. intros e I.
        destruct (enemyTouches p e) eqn:X; [|reflexivity].
        rewrite <- HE. symmetry. apply existsb_exists.
        exists e. split; assumption.
      * rewrite EQ. apply List.Forall_forall. exact A.
    + split; [exact EB|]. discriminate.
Qed.

(** An enemy on the player, with a table that has been made and after the
    score file gave null for it. *)
Lemma tick_kills_on_contact_witness :
  let e := {| Enemy.X := 330; Enemy.Y := 250; Enemy.Size := 32;
              Enemy.SpeedY := (-2)%float; Enemy.Cooldown := 40;
              Enemy.Dead := false |} in
  let inp := {| pressed := []; mouseLeftJustPressed := false |} in
  let g := Game.set_score 7 (Game.set_enemies [e] annPlaying) in
  let g' := fst (UpdatePlaying inp g sampleWorld) in
  let nil := snd (loadScores (jsonWorld (Some nullFile))) in
  let r := UpdatePlaying inp g nil in
  (Game.gameState g' = "dead"%string /\
   Game.deathScore g' = Game.score g') /\
  (Game.gameState (fst r) = "playing"%string /\
   Game.deathScore (fst r) = Game.score (fst r) /\
   panics (snd r) = ["assignment to entry in nil map"%string]).
Proof.
  intros e inp g g' nil r. split.
  - destruct (tick_kills_on_contact inp g sampleWorld)
      as (_ & _ & _ & _ & H & _).
    destruct (H eq_refl) as (H1 & _ & H2). split; [|exact H1].
    apply (H2 eq_refl).
  - destruct (tick_kills_on_contact inp g nil)
      as (_ & _ & _ & _ & H & _).
    destruct (H eq_refl) as (H1 & H2 & _).
    split; [|split; [exact H1|]]; apply (H2 eq_refl).
Defined.

(** X5: [spawnEnemies] at an interval [i] between 10 and 90 counts the
    spawn counter up by one; when the counter reaches [i] it is set back
    to 0 and [1 + (90 - i) / 20] enemies, between one and five, are
    appended to the list, each at y = 480 with size 32 and speed -2, not
    dead, with a cooldown in [30, 90) and its box between the left and
    the right edge of the screen; otherwise the list is unchanged. *)
Theorem spawn_batch_at_interval (g : Game.t) (w : World) :
  10 <= Game.spawnInterval g <= 90 ->
  0 <= Game.spawnCounter g < 2 ^ 63 - 1 ->
  let g' := fst (spawnEnemies g w) in
  let i := Game.spawnInterval g in
  Game.spawnInterval g' = i /\
  if i <=? Game.spawnCounter g + 1
  then Game.spawnCounter g' = 0 /\
       exists new,
         Game.enemies g' = Game.enemies g ++ new /\
         Z.of_nat (length new) = 1 + (90 - i) / 20 /\
         (1 <= length new <= 5)%nat /\
         Forall freshEnemy new
  else Game.spawnCounter g' = Game.spawnCounter g + 1 /\
       Game.enemies g' = Game.enemies g.
Proof.
  intros HI HC g' i.
  destruct (spawnEnemies_spec g w) as (_ & _ & I & _ & S).
  fold g' in I, S. split; [exact I|].
  rewrite add_one_exact in S by lia. fold i in S.
  destruct (i <=? Game.spawnCounter g + 1); [|exact S].
  destruct S as (SC & new & E & L & F).
  split; [exact SC|]. exists new.
  destruct (numEnemies_range i HI) as [N1 N2].
  split; [exact E|]. split; [lia|]. split; [lia|exact F].
Qed.

Lemma spawn_batch_at_interval_witness :
  let g := Game.set_spawnCounter 49 (Game.set_spawnInterval 50 annPlaying) in
  let g' := fst (spawnEnemies g sampleWorld) in
  Game.spawnCounter g' = 0 /\
  exists new,
    Game.enemies g' = Game.enemies g ++ new /\
    Z.of_nat (length new) = 3 /\
    (1 <= length new <= 5)%nat /\
    Forall freshEnemy new.
Proof.
  intros g g'.
  destruct (spawn_batch_at_interval g sampleWorld) as [_ H].
  - simpl. lia.
  - simpl. lia.
  - exact H.
Defined.

Lemma UpdatePlaying_spawnCounter (inp : Input) (g : Game.t) (w : World) :
  let g' := fst (UpdatePlaying inp g w) in
  let i := rampInterval (Go.add (Game.elapsedFrames g) 1)
                        (Game.spawnInterval g) in
  let c := Go.add (Game.spawnCounter g) 1 in
  Game.spawnInterval g' = i /\
  Game.spawnCounter g' = (if i <=? c then 0 else c).
Proof.
  cbv zeta.
  destruct (UpdatePlaying_over_pre inp g w) as (_ & C & I & _).
  destruct (beforeCollisions_entities inp g w) as (_ & I' & C' & _).
  rewrite C, I, I', C'. split; reflexivity.
Qed.

Lemma rampInterval_range (n i : Z) :
  10 <= i <= 90 -> 10 <= rampInterval n i <= i.
Proof.
  intros H. unfold rampInterval.
  destruct (_ && _); [|lia].
  unfold Go.sub. rewrite wrap_small
    by (change (2 ^ 63) with 9223372036854775808; lia).
  cbv zeta. destruct (i - 5 <? 10) eqn:E; [lia|].
  apply Z.ltb_ge in E. lia.
Qed.

Lemma playTicks_spawnCounter (inps : list Input) :
  forall g w,
    10 <= Game.spawnInterval g <= 90 ->
    0 <= Game.spawnCounter g <= 90 ->
    let g' := fst (playTicks inps g w) in
    10 <= Game.spawnInterval g' <= Game.spawnInterval g /\
    0 <= Game.spawnCounter g' <= 90 /\
    (inps <> [] -> Game.spawnCounter g' < Game.spawnInterval g').
Proof.
  induction inps as [|inp inps IH] using rev_ind; intros g w HI HC.
  - simpl. split; [lia|]. split; [lia|]. intros N. contradiction.
  - cbv zeta. rewrite playTicks_snoc.
    pose proof (IH g w HI HC) as H1. cbv zeta in H1.
    destruct H1 as (I1 & C1 & _).
    destruct (UpdatePlaying_spawnCounter inp (fst (playTicks inps g w))
                (snd (playTicks inps g w))) as [I2 C2].
    rewrite I2, C2. clear I2 C2.
    assert (HI1 : 10 <= Game.spawnInterval (fst (playTicks inps g w)) <= 90)
      by lia.
    assert (R := rampInterval_range
                   (Go.add (Game.elapsedFrames (fst (playTicks inps g w))) 1)
                   (Game.spawnInterval (fst (playTicks inps g w))) HI1).
    rewrite (add_one_exact (Game.spawnCounter (fst (playTicks inps g w))))
      by (change (2 ^ 63) with 9223372036854775808; lia).
    destruct (rampInterval _ _ <=? _) eqn:E.
    + split; [lia|]. split; [lia|]. intros _. lia.
    + apply Z.leb_gt in E. split; [lia|]. split; [lia|]. intros _. lia.
Qed.

(** X6: from a reset and through any ticks the spawn interval stays
    between 10 and 90 and the spawn counter stays below it, although the
    interval shrinks on the way: a tick sets the counter to 0 when the
    counter plus one reaches the interval this tick has ramped to, and to
    the counter plus one otherwise. *)
Theorem spawnCounter_below_interval
    (g0 : Game.t) (w0 w : World) (inps : list Input) (inp : Input) :
  let g := fst (playTicks inps (fst (Reset g0 w0)) w) in
  let g' :=
    fst (UpdatePlaying inp g
           (snd (playTicks inps (fst (Reset g0 w0)) w))) in
  10 <= Game.spawnInterval g <= 90 /\
  0 <= Game.spawnCounter g < Game.spawnInterval g /\
  Game.spawnCounter g' =
    (if Game.spawnInterval g' <=? Game.spawnCounter g + 1
     then 0 else Game.spawnCounter g + 1).
Proof.
  intros g g'.
  assert (HI : 10 <= Game.spawnInterval (fst (Reset g0 w0)) <= 90)
    by (simpl; lia).
  assert (HC : 0 <= Game.spawnCounter (fst (Reset g0 w0)) <= 90)
    by (simpl; lia).
  pose proof (playTicks_spawnCounter inps _ w HI HC) as H1.
  cbv zeta in H1. destruct H1 as (I & C & L).
  fold g in I, C, L. simpl in I.
  split; [lia|]. split.
  - destruct inps as [|x l].
    + subst g. simpl. lia.
    + split; [lia|]. apply L. discriminate.
  - destruct (UpdatePlaying_spawnCounter inp g
                (snd (playTicks inps (fst (Reset g0 w0)) w))) as [I2 C2].
    fold g' in I2, C2. rewrite C2, <- I2.
    rewrite (add_one_exact (Game.spawnCounter g))
      by (change (2 ^ 63) with 9223372036854775808; lia).
    reflexivity.
Qed.

(** ** The score file and the scrolling background *)

(** X7: [saveScores] leaves the table alone and logs the call; when the
    file cannot be created it leaves the file alone, and otherwise the
    file holds the encoded table.  [loadScores] after it leaves what the
    decoder makes of that content from an empty table: with a codec that
    reads back what it wrote, the table, and every stored score, is the
    one that was saved. *)
Theorem save_then_load_round_trip (w : World) :
  let w1 := snd (saveScores w) in
  let w2 := snd (loadScores w1) in
  scores w1 = scores w /\
  saveLog w1 = saveLog w ++ [scores w] /\
  (createOk w = false -> scoreFile w1 = scoreFile w) /\
  (createOk w = true ->
   scoreFile w1 = Some (jsonEncode w (scores w)) /\
   scoreFile w2 = scoreFile w1 /\
   scores w2 =
     fst (jsonDecode w (jsonEncode w (scores w))
            {| HighScores := Some ∅ |}) /\
   (fst (jsonDecode w (jsonEncode w (scores w)) {| HighScores := Some ∅ |})
      = scores w ->
    scores w2 = scores w /\
    forall name, storedScore name w2 = storedScore name w)).
Proof.
  unfold saveScores, loadScores. cbv zeta.
  cbn [createOk set_saveLog scores saveLog scoreFile jsonEncode].
  destruct (createOk w) eqn:C; cbn [snd scores saveLog scoreFile set_scoreFile
                                    set_scores set_saveLog jsonDecode].
  - split; [reflexivity|]. split; [reflexivity|].
    split; [discriminate|]. intros _.
    split; [reflexivity|]. split; [reflexivity|]. split; [reflexivity|].
    intros E. split; [exact E|]. intros name.
    unfold storedScore, getScore. cbn [fst scores set_scores]. rewrite E.
    reflexivity.
  - split; [reflexivity|]. split; [reflexivity|].
    split; [reflexivity|]. discriminate.
Qed.

Lemma save_then_load_round_trip_witness :
  let w1 := snd (saveScores annWorld) in
  let w2 := snd (loadScores w1) in
  scoreFile w1 = Some "Ann=50"%string /\
  scores w2 = scores annWorld /\
  storedScore "Ann" w2 = 50.
Proof.
  intros w1 w2.
  destruct (save_then_load_round_trip annWorld) as (_ & _ & _ & H).
  destruct (H eq_refl) as (H1 & _ & _ & H2).
  destruct (H2 eq_refl) as [H3 H4].
  split; [exact H1|]. split; [exact H3|]. apply (H4 "Ann"%string).
Defined.

(** X8: with a background tile of height [h] (positive, below 2^58) and an
    offset in [0, 16 h), [viewport.Move] leaves x16 and the world alone
    and sets y16 to [(y16 + h / 32) mod (16 h)], which is in [0, 16 h)
    again. *)
Theorem viewport_Move_wraps (p : viewport.t) (w : World) (h : Z) :
  bgImage w = Some h -> 0 < h < 2 ^ 58 ->
  0 <= viewport.y16 p < 16 * h ->
  let p' := fst (viewport.Move p w) in
  snd (viewport.Move p w) = w /\
  viewport.x16 p' = viewport.x16 p /\
  viewport.y16 p' = (viewport.y16 p + h / 32) mod (16 * h) /\
  0 <= viewport.y16 p' < 16 * h.
Proof.
  intros HB HH HY. unfold viewport.Move. rewrite HB. cbn [fst snd
    viewport.x16 viewport.y16].
  split; [reflexivity|]. split; [reflexivity|].
  assert (P58 : 2 ^ 58 = 288230376151711744) by reflexivity.
  assert (Q : 0 <= h / 32 <= h).
  { split; [apply Z.div_pos; lia|].
    apply Z.div_le_upper_bound; lia. }
  assert (E : Go.rem (Go.add (viewport.y16 p) (Go.quo h 32))
                     (Go.wrap (h * 16)) =
              (viewport.y16 p + h / 32) mod (16 * h)).
  { unfold Go.rem, Go.add, Go.quo.
    rewrite Z.quot_div_nonneg by lia.
    rewrite (wrap_small (h / 32))
      by (change (2 ^ 63) with 9223372036854775808; lia).
    rewrite (wrap_small (h * 16))
      by (change (2 ^ 63) with 9223372036854775808; lia).
    rewrite wrap_small
      by (change (2 ^ 63) with 9223372036854775808; lia).
    rewrite Z.rem_mod_nonneg by lia. f_equal. lia. }
  rewrite E. split; [reflexivity|].
  apply Z.mod_pos_bound. lia.
Qed.

Lemma viewport_Move_wraps_witness :
  let p := {| viewport.x16 := 5; viewport.y16 := 3835 |} in
  let p' := fst (viewport.Move p sampleWorld) in
  viewport.x16 p' = 5 /\ viewport.y16 p' = 2.
Proof.
  intros p p'.
  destruct (viewport_Move_wraps p sampleWorld 240) as (_ & H1 & H2 & _).
  - reflexivity.
  - simpl. lia.
  - simpl. lia.
  - split; [exact H1|exact H2].
Defined.

(** ** The text fields *)

Lemma allChars_append (P : Z -> bool) (s1 s2 : string) :
  allChars P (String.append s1 s2) = allChars P s1 && allChars P s2.
Proof.
  induction s1 as [|c s1 IH]; simpl; [reflexivity|].
  rewrite IH. apply andb_assoc.
Qed.

Lemma length_append (s1 s2 : string) :
  String.length (String.append s1 s2) =
  (String.length s1 + String.length s2)%nat.
Proof. induction s1 as [|c s1 IH]; simpl; [reflexivity|]. rewrite IH. lia. Qed.

Lemma allChars_runeString (P : Z -> bool) (r : Z) :
  0 <= r < 256 -> allChars P (runeString r) = P r.
Proof.
  intros H. unfold runeString. simpl.
  rewrite Ascii.N_ascii_embedding by lia.
  rewrite Z2N.id by lia. apply andb_true_r.
Qed.

Lemma allChars_prefix (P : Z -> bool) (n : nat) :
  forall s, allChars P s = true ->
            allChars P (String.substring 0 n s) = true.
Proof.
  induction n as [|n IH]; intros [|c s] H; simpl; try reflexivity.
  simpl in H. apply andb_true_iff in H. destruct H as [H1 H2].
  rewrite H1. simpl. apply IH, H2.
Qed.

Lemma length_prefix (n : nat) :
  forall s, (n <= String.length s)%nat ->
            String.length (String.substring 0 n s) = n.
Proof.
  induction n as [|n IH]; intros [|c s] H; simpl in *; try reflexivity;
    try lia.
  rewrite IH by lia. reflexivity.
Qed.

Lemma len_dropLast (s : string) : 0 < len s -> len (dropLast s) = len s - 1.
Proof.
  unfold len, dropLast. intros H. rewrite length_prefix by lia. lia.
Qed.

Lemma len_zero (s : string) : len s = 0 <-> s = ""%string.
Proof.
  unfold len. destruct s; simpl; split; intros H; try reflexivity;
    try discriminate; lia.
Qed.

Lemma nameChar_byte (r : Z) : nameChar r = true -> 0 <= r < 256.
Proof. unfold nameChar. lia. Qed.

Lemma customChar_byte (r : Z) : customChar r = true -> 0 <= r < 256.
Proof. unfold customChar. lia. Qed.

Lemma typeName_plain (rs : list Z) :
  forall s, plainName s -> plainName (typeName s rs).
Proof.
  unfold typeName.
  induction rs as [|r rs IH]; intros s H; simpl; [exact H|].
  apply IH. destruct (len s <? 12) eqn:L; [|exact H].
  destruct (nameChar r) eqn:C; [|exact H]. simpl.
  destruct H as [H1 H2]. apply Z.ltb_lt in L. split.
  - unfold len in *. rewrite length_append. simpl. lia.
  - rewrite allChars_append, H2, allChars_runeString
      by (apply nameChar_byte, C).
    exact C.
Qed.

Lemma dropLast_plain (s : string) : plainName s -> plainName (dropLast s).
Proof.
  intros [H1 H2]. split.
  - destruct (Z.eq_dec (len s) 0) as [E|E].
    + apply len_zero in E. subst s. simpl. unfold len. simpl. lia.
    + rewrite len_dropLast; unfold len in *; lia.
  - apply allChars_prefix, H2.
Qed.

Lemma typeCustom_chars (rs : list Z) :
  forall s, allChars customChar s = true ->
            allChars customChar (typeCustom s rs) = true.
Proof.
  unfold typeCustom.
  induction rs as [|r rs IH]; intros s H; simpl; [exact H|].
  apply IH. destruct (customChar r) eqn:C; [|exact H].
  rewrite allChars_append, H, allChars_runeString
    by (apply customChar_byte, C).
  exact C.
Qed.

(** ** The pages of [Update] *)

(** Doubling an [int] above 100: the result is positive, and then the
    double, up to [2 ^ 62]; from there on it wraps to a negative number. *)
Lemma double_int (a : Z) :
  - 2 ^ 63 <= a < 2 ^ 63 -> 100 < a ->
  (0 < Go.wrap (a * 2) -> Go.wrap (a * 2) = a * 2) /\
  (Go.wrap (a * 2) <= 0 -> 2 ^ 62 <= a) /\
  (a < 2 ^ 62 -> 0 < Go.wrap (a * 2)) /\
  (2 ^ 62 <= a -> Go.wrap (a * 2) < 0).
Proof.
  intros R H. unfold Go.wrap.
  change (2 ^ 63) with 9223372036854775808 in *.
  change (2 ^ 64) with 18446744073709551616.
  change (2 ^ 62) with 4611686018427387904.
  destruct (Z_lt_le_dec a 4611686018427387904) as [L|L].
  - rewrite Z.mod_small by lia. repeat split; intros; lia.
  - replace (a * 2 + 9223372036854775808)
      with (a * 2 - 9223372036854775808 + 1 * 18446744073709551616) by lia.
    rewrite Z.mod_add by lia. rewrite Z.mod_small by lia.
    repeat split; intros; lia.
Qed.

(** Enter in the custom-size field: nothing happens, the size is taken, or
    the call of [SetWindowSize] panics. *)
Lemma acceptCustom_cases (lib : Strings) (g : Game.t) (w : World) :
  acceptCustom lib g w = (g, [], true, w) \/
  (exists a b,
     100 < a /\ 100 < b /\ 0 < Go.wrap (a * 2) /\ 0 < Go.wrap (b * 2) /\
     (atoiInt lib -> Go.wrap (a * 2) = a * 2 /\ Go.wrap (b * 2) = b * 2) /\
     acceptCustom lib g w =
     (set_customInputStr ""%string (set_customInput false
        (set_selectedScreen 3 (set_customHeight b (set_customWidth a g)))),
      [(Go.wrap (a * 2), Go.wrap (b * 2))], true, w)) \/
  (exists a b,
     100 < a /\ 100 < b /\ (Go.wrap (a * 2) <= 0 \/ Go.wrap (b * 2) <= 0) /\
     (atoiInt lib -> 2 ^ 62 <= a \/ 2 ^ 62 <= b) /\
     acceptCustom lib g w =
     (set_customHeight b (set_customWidth a g), [], false,
      panic "ebiten: width and height must be positive" w)).
Proof.
  unfold acceptCustom.
  destruct (Split lib _ _) as [|p0 [|p1 [|p2 ps]]]; try (left; reflexivity).
  pose proof (fun I : atoiInt lib => I (TrimSpace lib p0)) as IA.
  pose proof (fun I : atoiInt lib => I (TrimSpace lib p1)) as IB.
  destruct (Atoi lib (TrimSpace lib p0)) as [a e1].
  destruct (Atoi lib (TrimSpace lib p1)) as [b e2].
  cbn [fst] in IA, IB.
  destruct (negb e1 && negb e2 && (100 <? a) && (100 <? b)) eqn:E;
    [|left; reflexivity].
  apply andb_true_iff in E. destruct E as [E E4].
  apply andb_true_iff in E. destruct E as [E E3].
  apply Z.ltb_lt in E3, E4.
  right. unfold bind, SetWindowSize, ret.
  destruct (Z.leb_spec (Go.wrap (a * 2)) 0) as [A|A]; cbn [orb].
  - right. exists a, b. repeat split; try assumption; [left; exact A|].
    intros I. left. apply (double_int a (IA I) E3), A.
  - destruct (Z.leb_spec (Go.wrap (b * 2)) 0) as [B|B].
    + right. exists a, b. repeat split; try assumption; [right; exact B|].
      intros I. right. apply (double_int b (IB I) E4), B.
    + left. exists a, b. repeat split; try assumption.
      * apply (double_int a (IA H) E3), A.
      * apply (double_int b (IB H) E4), B.
Qed.

(** The custom-size dialog: the game [g1] with the typed runes and
    Backspace taken, then Enter as [acceptCustom] has it, then Escape
    unless that call panicked. *)
Lemma customDialog_cases (lib : Strings) (f : Frame) (g : Game.t)
    (w : World) :
  exists g1,
    Game.customInputStr g1 =
      (let s := typeCustom (Game.customInputStr g) (inputChars f) in
       if backspaceJustPressed f && (0 <? len s) then dropLast s else s) /\
    (forall g2, g2 = set_customInputStr (Game.customInputStr g1) g ->
                g1 = g2) /\
    let esc := fun g2 =>
      if escapeJustPressed f
      then set_customInputStr ""%string (set_customInput false g2)
      else g2 in
    (customDialog lib f g w = (esc g1, [], w)) \/
    (enterJustPressed f = true /\
     exists a b,
       100 < a /\ 100 < b /\ 0 < Go.wrap (a * 2) /\ 0 < Go.wrap (b * 2) /\
       (atoiInt lib ->
        Go.wrap (a * 2) = a * 2 /\ Go.wrap (b * 2) = b * 2) /\
       customDialog lib f g w =
       (esc (set_customInputStr ""%string (set_customInput false
               (set_selectedScreen 3
                  (set_customHeight b (set_customWidth a g1))))),
        [(Go.wrap (a * 2), Go.wrap (b * 2))], w)) \/
    (enterJustPressed f = true /\
     exists a b,
       100 < a /\ 100 < b /\
       (Go.wrap (a * 2) <= 0 \/ Go.wrap (b * 2) <= 0) /\
       (atoiInt lib -> 2 ^ 62 <= a \/ 2 ^ 62 <= b) /\
       customDialog lib f g w =
       (set_customHeight b (set_customWidth a g1), [],
        panic "ebiten: width and height must be positive" w)).
Proof.
  unfold customDialog. cbv zeta.
  match goal with |- context [if backspaceJustPressed f && ?c
                              then set_customInputStr ?a ?a' else ?b] =>
    set (g1 := if backspaceJustPressed f && c
               then set_customInputStr a a' else b) end.
  exists g1. split; [|split].
  - subst g1. destruct (backspaceJustPressed f && _); reflexivity.
  - intros g2 ->. subst g1.
    destruct (backspaceJustPressed f && _); reflexivity.
  - unfold bind. destruct (enterJustPressed f).
    + destruct (acceptCustom_cases lib g1 w)
        as [E|[(a & b & Ha & Hb & Pa & Pb & X & E)
              |(a & b & Ha & Hb & Pab & X & E)]]; rewrite E; unfold ret;
        cbn [andb].
      * left. reflexivity.
      * right. left. split; [reflexivity|]. exists a, b. auto 10.
      * right. right. split; [reflexivity|]. exists a, b. auto 10.
    + left. reflexivity.
Qed.

(** The identity fields ([gameState], [lastGameState], [username]) and the
    dropdown through the custom-size dialog. *)
Lemma customDialog_frame (lib : Strings) (f : Frame) (g : Game.t)
    (w : World) :
  let g' := fst (fst (customDialog lib f g w)) in
  Game.gameState g' = Game.gameState g /\
  Game.lastGameState g' = Game.lastGameState g /\
  Game.username g' = Game.username g /\
  Game.usernameInput g' = Game.usernameInput g /\
  Game.dropdownOpen g' = Game.dropdownOpen g.
Proof.
  destruct (customDialog_cases lib f g w) as (g1 & _ & G1 & C).
  rewrite (G1 _ eq_refl) in C. cbv zeta in C. cbv zeta.
  destruct C as [E|[(_ & a & b & _ & _ & _ & _ & _ & E)
                   |(_ & a & b & _ & _ & _ & _ & E)]]; rewrite E; cbn [fst];
    try destruct (escapeJustPressed f); repeat split.
Qed.

Lemma clickOption_cases (xf yf : float) (opts : list (Z * (string * Z * Z)))
    (g : Game.t) :
  clickOption xf yf opts g = (g, []) \/
  (exists i lab W H,
     In (i, (lab, W, H)) opts /\ i <> 3 /\
     clickOption xf yf opts g =
     (set_dropdownOpen false (set_selectedScreen i g),
      [(Go.wrap (W * 2), Go.wrap (H * 2))])) \/
  clickOption xf yf opts g =
  (set_dropdownOpen false
     (set_customInputStr ""%string (set_customInput true g)), []).
Proof.
  induction opts as [|[i [[lab W] H]] opts IH]; simpl; [left; reflexivity|].
  destruct (inBox _ _ _ _ _ _).
  - destruct (i =? 3) eqn:E.
    + right. right. reflexivity.
    + right. left. apply Z.eqb_neq in E. exists i, lab, W, H.
      split; [left; reflexivity|]. split; [exact E|reflexivity].
  - destruct IH as [IH|[(j & l & W' & H' & I & N & E)|IH]].
    + left. exact IH.
    + right. left. exists j, l, W', H'.
      split; [right; exact I|]. split; [exact N|exact E].
    + right. right. exact IH.
Qed.

Lemma screenSizes_rows (i : Z) (lab : string) (W H : Z) :
  In (i, (lab, W, H)) (indexed screenSizes) -> i <> 3 ->
  0 <= i <= 2 /\
  ((W, H) = (640, 480) \/ (W, H) = (800, 600) \/ (W, H) = (1024, 768)).
Proof.
  unfold indexed, screenSizes. simpl.
  intros [E|[E|[E|[E|[]]]]] N; inversion E; subst; try contradiction;
    (split; [lia|]); auto.
Qed.

(** The page fields the simulation never writes. *)
Lemma UpdatePlaying_page_fields (inp : Input) (g : Game.t) (w : World) :
  let g' := fst (UpdatePlaying inp g w) in
  Game.username g' = Game.username g /\
  Game.usernameInput g' = Game.usernameInput g /\
  Game.lastGameState g' = Game.lastGameState g /\
  Game.dropdownOpen g' = Game.dropdownOpen g /\
  Game.selectedScreen g' = Game.selectedScreen g /\
  Game.customWidth g' = Game.customWidth g /\
  Game.customHeight g' = Game.customHeight g /\
  Game.customInput g' = Game.customInput g /\
  Game.customInputStr g' = Game.customInputStr g.
Proof. tick_fields inp g w; repeat split. Qed.

Lemma UpdatePlaying_gameState (inp : Input) (g : Game.t) (w : World) :
  let g' := fst (UpdatePlaying inp g w) in
  Game.gameState g' = Game.gameState g \/ Game.gameState g' = "dead"%string.
Proof.
  pose proof (UpdatePlaying_contact inp g w) as C. cbv zeta in C. cbv zeta.
  destruct (playerDies _).
  - destruct C as [_ C]. destruct (_ && _); [left|right]; apply C.
  - left. apply C.
Qed.

(** The settings page: the mode it leaves, and the fields it keeps. *)
Lemma updateSettings_modes (lib : Strings) (f : Frame) (g : Game.t)
    (w : World) :
  let g' := fst (fst (updateSettings lib f g w)) in
  Game.lastGameState g' = Game.lastGameState g /\
  Game.username g' = Game.username g /\
  Game.usernameInput g' = Game.usernameInput g /\
  (Game.gameState g' = Game.gameState g \/
   Game.customInput g = false /\ mouseLeftJustPressed (sim f) = true /\
   Game.gameState g' =
     (if negb (String.eqb (Game.lastGameState g) "")
      then Game.lastGameState g else "menu"%string)).
Proof.
  unfold updateSettings.
  destruct (Game.customInput g) eqn:CI.
  - destruct (customDialog_frame lib f g w) as (H1 & H2 & H3 & H4 & _).
    repeat split; auto.
  - unfold ret. cbn [fst].
    destruct (mouseLeftJustPressed (sim f)); [|repeat split; auto].
    destruct (cursorPosition f) as [x y]. cbv zeta.
    assert (B : forall g1 calls,
               Game.lastGameState g1 = Game.lastGameState g ->
               Game.username g1 = Game.username g ->
               Game.usernameInput g1 = Game.usernameInput g ->
               Game.gameState g1 = Game.gameState g ->
               let g' := fst (backButton (Go.float64 x) (Go.float64 y) g1,
                              calls : list WindowSize) in
               Game.lastGameState g' = Game.lastGameState g /\
               Game.username g' = Game.username g /\
               Game.usernameInput g' = Game.usernameInput g /\
               (Game.gameState g' = Game.gameState g \/
                false = false /\ true = true /\
                Game.gameState g' =
                  (if negb (String.eqb (Game.lastGameState g) "")
                   then Game.lastGameState g else "menu"%string))).
    { intros g1 calls L U UI GS. cbn [fst]. unfold backButton.
      destruct (inBox _ _ _ _ _ _); [|repeat split; auto].
      rewrite L. destruct (negb _); cbn; repeat split; auto. }
    destruct (inBox _ _ _ _ _ _); [apply B; reflexivity|].
    destruct (Game.dropdownOpen g); [|apply B; reflexivity].
    destruct (clickOption_cases (Go.float64 x) (Go.float64 y)
                (indexed screenSizes) g)
      as [E|[(i & lab & W & H & _ & _ & E)|E]];
      rewrite E; apply B; reflexivity.
Qed.

Lemma Reset_page_fields (g : Game.t) (w : World) :
  let g' := fst (Reset g w) in
  snd (Reset g w) = w /\
  Game.gameState g' = Game.gameState g /\
  Game.lastGameState g' = Game.lastGameState g /\
  Game.username g' = Game.username g /\
  Game.usernameInput g' = Game.usernameInput g /\
  Game.deathScore g' = Game.deathScore g /\
  Game.dropdownOpen g' = Game.dropdownOpen g /\
  Game.selectedScreen g' = Game.selectedScreen g /\
  Game.customWidth g' = Game.customWidth g /\
  Game.customHeight g' = Game.customHeight g /\
  Game.customInput g' = Game.customInput g /\
  Game.customInputStr g' = Game.customInputStr g.
Proof. repeat split. Qed.

(** The start menu. *)
Lemma updateMenu_modes (f : Frame) (g : Game.t) (w : World) :
  let g' := fst (updateMenu f g w) in
  snd (updateMenu f g w) = w /\
  (Game.lastGameState g' = Game.lastGameState g \/
   Game.lastGameState g' = "menu"%string) /\
  (Game.username g' = Game.username g /\
   (Game.gameState g' = Game.gameState g \/
    Game.gameState g' = "settings"%string) \/
   Game.username g' = Game.usernameInput g' /\
   Game.username g' <> ""%string /\
   (Game.gameState g' = "playing"%string \/
    Game.gameState g' = "settings"%string)).
Proof.
  unfold updateMenu, bind, ret, Reset. cbv zeta.
  set (s1 := typeName (Game.usernameInput g) (inputChars f)).
  cbn [Game.usernameInput set_usernameInput].
  destruct (backspaceJustPressed f && (0 <? len s1));
    cbn [Game.usernameInput set_usernameInput];
    match goal with |- context [enterJustPressed f && (0 <? len ?s)] =>
      destruct (enterJustPressed f && (0 <? len s)) eqn:EN end;
    destruct (mouseLeftJustPressed (sim f));
    try destruct (cursorPosition f) as [x y];
    try destruct (inBox _ _ _ _ _ _);
    cbn; (split; [reflexivity|]); (split; [auto|]);
    try (left; split; [reflexivity|auto]; fail);
    right; (split; [reflexivity|]);
    apply andb_true_iff in EN; destruct EN as [_ EN];
    apply Z.ltb_lt in EN;
    (split; [intros Z0; rewrite Z0 in EN; unfold len in EN; simpl in EN; lia
            |auto]).
Qed.

(** The death screen. *)
Lemma updateDead_modes (f : Frame) (g : Game.t) (w : World) :
  let g' := fst (updateDead f g w) in
  snd (updateDead f g w) = w /\
  Game.username g' = Game.username g /\
  Game.usernameInput g' = Game.usernameInput g /\
  Game.deathScore g' = Game.deathScore g /\
  (Game.lastGameState g' = Game.lastGameState g \/
   Game.lastGameState g' = "dead"%string) /\
  (Game.gameState g' = Game.gameState g \/
   Game.gameState g' = "menu"%string \/
   Game.gameState g' = "playing"%string \/
   Game.gameState g' = "settings"%string).
Proof.
  unfold updateDead, deadButtons, restart, bind, ret, Reset. cbv zeta.
  destruct (mouseLeftJustPressed (sim f));
    try destruct (cursorPosition f) as [x y];
    try destruct (inBox _ _ _ DeadPage.menuBtnY _ _);
    try destruct (inBox _ _ _ DeadPage.playAgainBtnY _ _);
    try destruct (inBox _ _ _ DeadPage.settingsBtnY _ _);
    destruct (enterJustPressed f); destruct (escapeJustPressed f);
    cbn; repeat split; auto.
Qed.

Lemma modeOk_initialGame : modeOk initialGame.
Proof.
  unfold modeOk. simpl. split; [auto|]. split; [auto|].
  intros _. repeat split; discriminate.
Qed.

Lemma Update_modeOk
    (lib : Strings) (f : Frame) (g : Game.t) (w : World) :
  modeOk g -> modeOk (fst (fst (Update lib f g w))).
Proof.
  intros (M & L & U). unfold Update. cbv zeta.
  cbn [Game.gameState Game.set_keys].
  set (g0 := Game.set_keys (pressed (sim f)) g).
  assert (M0 : Game.gameState g0 = Game.gameState g) by reflexivity.
  assert (L0 : Game.lastGameState g0 = Game.lastGameState g) by reflexivity.
  assert (U0 : Game.username g0 = Game.username g) by reflexivity.
  destruct (String.eqb_spec (Game.gameState g) "settings") as [ES|NS].
  - destruct (updateSettings_modes lib f g0 w) as (HL & HU & _ & HG).
    cbv zeta in *. rewrite L0 in HL. rewrite U0 in HU.
    rewrite M0, L0 in HG. unfold modeOk. rewrite HL, HU.
    destruct HG as [HG|(_ & _ & HG)]; rewrite HG.
    + split; [exact M|]. split; [exact L|exact U].
    + destruct L as [L|[L|L]]; rewrite L in *; simpl.
      * split; [auto|]. split; [auto|]. intros E.
        repeat split; discriminate.
      * split; [auto|]. split; [auto|]. intros E.
        repeat split; discriminate.
      * split; [auto|]. split; [auto|]. intros E.
        destruct (U E) as (_ & _ & X). contradiction.
  - destruct (String.eqb_spec (Game.gameState g) "menu") as [EM|NM].
    + unfold bind, ret.
      destruct (updateMenu_modes f g0 w) as (_ & HL & HU).
      destruct (updateMenu f g0 w) as [g1 w1]. cbn [fst] in *.
      rewrite L0 in HL. rewrite U0, M0 in HU. rewrite EM in HU.
      unfold modeOk.
      split; [|split].
      * destruct HU as [[_ [H|H]]|(_ & _ & [H|H])]; rewrite H; auto.
      * destruct HL as [H|H]; rewrite H; auto.
      * intros E.
        destruct HU as [[HU [H|H]]|(_ & N & _)]; [| |contradiction].
        -- rewrite HU in E. destruct (U E) as (_ & _ & X).
           rewrite H. repeat split; try discriminate.
           destruct HL as [H'|H']; rewrite H'; [exact X|discriminate].
        -- rewrite HU in E. destruct (U E) as (_ & _ & X).
           rewrite H. repeat split; try discriminate.
           destruct HL as [H'|H']; rewrite H'; [exact X|discriminate].
    + destruct (String.eqb_spec (Game.gameState g) "dead") as [ED|ND].
      * unfold bind, ret.
        destruct (updateDead_modes f g0 w) as (_ & HU & _ & _ & HL & HG).
        destruct (updateDead f g0 w) as [g1 w1]. cbn [fst] in *.
        rewrite L0 in HL. rewrite U0 in HU. rewrite M0, ED in HG.
        assert (N : Game.username g <> ""%string).
        { intros E. destruct (U E) as (_ & X & _). contradiction. }
        unfold modeOk. rewrite HU. split; [|split].
        -- destruct HG as [H|[H|[H|H]]]; rewrite H; auto.
        -- destruct HL as [H|H]; rewrite H; auto.
        -- intros E. contradiction.
      * unfold bind, ret.
        destruct (UpdatePlaying_page_fields (sim f) g0 w)
          as (HU & _ & HL & _).
        pose proof (UpdatePlaying_gameState (sim f) g0 w) as HG.
        destruct (UpdatePlaying (sim f) g0 w) as [g1 w1]. cbn [fst] in *.
        rewrite L0 in HL. rewrite U0 in HU. rewrite M0 in HG.
        assert (P : Game.gameState g = "playing"%string).
        { destruct M as [H|[H|[H|H]]]; try contradiction; exact H. }
        assert (N : Game.username g <> ""%string).
        { intros E. destruct (U E) as (X & _). contradiction. }
        unfold modeOk. rewrite HU, HL. split; [|split].
        -- destruct HG as [H|H]; rewrite H; [rewrite P|]; auto.
        -- exact L.
        -- intros E. contradiction.
Qed.

Lemma runFrames_invariant (P : Game.t -> Prop) (lib : Strings) :
  (forall f g w, P g -> P (fst (fst (Update lib f g w)))) ->
  forall fs g w, P g -> P (fst (fst (runFrames lib fs g w))).
Proof.
  intros HP fs. induction fs as [|f fs IH]; intros g w H; simpl; [exact H|].
  unfold bind, ret. specialize (HP f g w H).
  destruct (Update lib f g w) as [[g1 c1] w1]. cbn [fst snd] in *.
  specialize (IH g1 w1 HP).
  destruct (runFrames lib fs g1 w1) as [[g2 c2] w2]. exact IH.
Qed.

Lemma Update_playing (lib : Strings) (f : Frame) (g : Game.t) (w : World) :
  Game.gameState g <> "settings"%string ->
  Game.gameState g <> "menu"%string ->
  Game.gameState g <> "dead"%string ->
  Update lib f g w =
  (fst (UpdatePlaying (sim f) g w), [], snd (UpdatePlaying (sim f) g w)).
Proof.
  intros N1 N2 N3. unfold Update. cbv zeta.
  cbn [Game.gameState Game.set_keys].
  apply String.eqb_neq in N1, N2, N3. rewrite N1, N2, N3.
  unfold bind, ret.
  change (UpdatePlaying (sim f) (Game.set_keys (pressed (sim f)) g) w)
    with (UpdatePlaying (sim f) g w).
  destruct (UpdatePlaying (sim f) g w). reflexivity.
Qed.

Lemma Update_settings (lib : Strings) (f : Frame) (g : Game.t) (w : World) :
  Game.gameState g = "settings"%string ->
  Update lib f g w =
  updateSettings lib f (Game.set_keys (pressed (sim f)) g) w.
Proof.
  intros E. unfold Update. cbv zeta. cbn [Game.gameState Game.set_keys].
  rewrite E. reflexivity.
Qed.

Lemma Update_menu (lib : Strings) (f : Frame) (g : Game.t) (w : World) :
  Game.gameState g = "menu"%string ->
  Update lib f g w =
  (fst (updateMenu f (Game.set_keys (pressed (sim f)) g) w), [],
   snd (updateMenu f (Game.set_keys (pressed (sim f)) g) w)).
Proof.
  intros E. unfold Update. cbv zeta. cbn [Game.gameState Game.set_keys].
  rewrite E. cbn [String.eqb Ascii.eqb Bool.eqb]. unfold bind, ret.
  destruct (updateMenu _ _ _). reflexivity.
Qed.

Lemma Update_dead (lib : Strings) (f : Frame) (g : Game.t) (w : World) :
  Game.gameState g = "dead"%string ->
  Update lib f g w =
  (fst (updateDead f (Game.set_keys (pressed (sim f)) g) w), [],
   snd (updateDead f (Game.set_keys (pressed (sim f)) g) w)).
Proof.
  intros E. unfold Update. cbv zeta. cbn [Game.gameState Game.set_keys].
  rewrite E. cbn [String.eqb Ascii.eqb Bool.eqb]. unfold bind, ret.
  destruct (updateDead _ _ _). reflexivity.
Qed.

(** The four ways through [Update]. *)
Lemma Update_branches (lib : Strings) (f : Frame) (g : Game.t) (w : World)
    (P : Game.t * list WindowSize * World -> Prop) :
  (Game.gameState g = "settings"%string ->
   P (updateSettings lib f (Game.set_keys (pressed (sim f)) g) w)) ->
  (Game.gameState g = "menu"%string ->
   P (fst (updateMenu f (Game.set_keys (pressed (sim f)) g) w), [],
      snd (updateMenu f (Game.set_keys (pressed (sim f)) g) w))) ->
  (Game.gameState g = "dead"%string ->
   P (fst (updateDead f (Game.set_keys (pressed (sim f)) g) w), [],
      snd (updateDead f (Game.set_keys (pressed (sim f)) g) w))) ->
  (Game.gameState g <> "settings"%string ->
   Game.gameState g <> "menu"%string ->
   Game.gameState g <> "dead"%string ->
   P (fst (UpdatePlaying (sim f) g w), [],
      snd (UpdatePlaying (sim f) g w))) ->
  P (Update lib f g w).
Proof.
  intros H1 H2 H3 H4.
  destruct (String.eqb_spec (Game.gameState g) "settings") as [E1|N1].
  { rewrite Update_settings by exact E1. apply H1, E1. }
  destruct (String.eqb_spec (Game.gameState g) "menu") as [E2|N2].
  { rewrite Update_menu by exact E2. apply H2, E2. }
  destruct (String.eqb_spec (Game.gameState g) "dead") as [E3|N3].
  { rewrite Update_dead by exact E3. apply H3, E3. }
  rewrite Update_playing by assumption. apply H4; assumption.
Qed.

Lemma updateMenu_settings_fields (f : Frame) (g : Game.t) (w : World) :
  let g' := fst (updateMenu f g w) in
  Game.dropdownOpen g' = Game.dropdownOpen g /\
  Game.selectedScreen g' = Game.selectedScreen g /\
  Game.customWidth g' = Game.customWidth g /\
  Game.customHeight g' = Game.customHeight g /\
  Game.customInput g' = Game.customInput g /\
  Game.customInputStr g' = Game.customInputStr g /\
  Game.deathScore g' = Game.deathScore g.
Proof.
  unfold updateMenu, bind, ret, Reset. cbv zeta.
  set (s1 := typeName (Game.usernameInput g) (inputChars f)).
  cbn [Game.usernameInput set_usernameInput].
  destruct (backspaceJustPressed f && (0 <? len s1));
    cbn [Game.usernameInput set_usernameInput];
    match goal with |- context [enterJustPressed f && (0 <? len ?s)] =>
      destruct (enterJustPressed f && (0 <? len s)) end;
    destruct (mouseLeftJustPressed (sim f));
    try destruct (cursorPosition f) as [x y];
    try destruct (inBox _ _ _ _ _ _);
    cbn; repeat split.
Qed.

Lemma updateDead_settings_fields (f : Frame) (g : Game.t) (w : World) :
  let g' := fst (updateDead f g w) in
  Game.dropdownOpen g' = Game.dropdownOpen g /\
  Game.selectedScreen g' = Game.selectedScreen g /\
  Game.customWidth g' = Game.customWidth g /\
  Game.customHeight g' = Game.customHeight g /\
  Game.customInput g' = Game.customInput g /\
  Game.customInputStr g' = Game.customInputStr g.
Proof.
  unfold updateDead, deadButtons, restart, bind, ret, Reset. cbv zeta.
  destruct (mouseLeftJustPressed (sim f));
    try destruct (cursorPosition f) as [x y];
    try destruct (inBox _ _ _ DeadPage.menuBtnY _ _);
    try destruct (inBox _ _ _ DeadPage.playAgainBtnY _ _);
    try destruct (inBox _ _ _ DeadPage.settingsBtnY _ _);
    destruct (enterJustPressed f); destruct (escapeJustPressed f);
    cbn; repeat split.
Qed.

(** The name field after a frame of the menu. *)
Lemma updateMenu_names (f : Frame) (g : Game.t) (w : World) :
  let g' := fst (updateMenu f g w) in
  plainName (Game.usernameInput g) ->
  plainName (Game.usernameInput g') /\
  (Game.username g' = Game.username g \/
   Game.username g' = Game.usernameInput g').
Proof.
  unfold updateMenu, bind, ret, Reset. cbv zeta. intros H.
  pose proof (typeName_plain (inputChars f) _ H) as H1.
  set (s1 := typeName (Game.usernameInput g) (inputChars f)) in *.
  pose proof (dropLast_plain s1 H1) as H2.
  cbn [Game.usernameInput set_usernameInput].
  destruct (backspaceJustPressed f && (0 <? len s1));
    cbn [Game.usernameInput set_usernameInput];
    match goal with |- context [enterJustPressed f && (0 <? len ?s)] =>
      destruct (enterJustPressed f && (0 <? len s)) end;
    destruct (mouseLeftJustPressed (sim f));
    try destruct (cursorPosition f) as [x y];
    try destruct (inBox _ _ _ _ _ _);
    cbn; split; auto.
Qed.

(** The selection and the window sizes asked for by a frame of the
    settings page. *)
Lemma backButton_fields (xf yf : float) (g : Game.t) :
  let g' := backButton xf yf g in
  Game.selectedScreen g' = Game.selectedScreen g /\
  Game.customWidth g' = Game.customWidth g /\
  Game.customHeight g' = Game.customHeight g /\
  Game.customInput g' = Game.customInput g /\
  Game.customInputStr g' = Game.customInputStr g /\
  Game.dropdownOpen g' = Game.dropdownOpen g /\
  Game.deathScore g' = Game.deathScore g.
Proof.
  unfold backButton. destruct (inBox _ _ _ _ _ _); [|repeat split].
  destruct (negb _); repeat split.
Qed.

Lemma updateSettings_selection (lib : Strings) (f : Frame) (g : Game.t)
    (w : World) :
  let r := fst (updateSettings lib f g w) in
  let w' := snd (updateSettings lib f g w) in
  (w' = w /\ snd r = [] /\
   Game.selectedScreen (fst r) = Game.selectedScreen g /\
   Game.customWidth (fst r) = Game.customWidth g /\
   Game.customHeight (fst r) = Game.customHeight g) \/
  (exists i lab W H,
     In (i, (lab, W, H)) (indexed screenSizes) /\ i <> 3 /\
     Game.customInput g = false /\ w' = w /\
     snd r = [(Go.wrap (W * 2), Go.wrap (H * 2))] /\
     Game.selectedScreen (fst r) = i /\
     Game.customWidth (fst r) = Game.customWidth g /\
     Game.customHeight (fst r) = Game.customHeight g) \/
  (exists a b,
     100 < a /\ 100 < b /\ 0 < Go.wrap (a * 2) /\ 0 < Go.wrap (b * 2) /\
     (atoiInt lib -> Go.wrap (a * 2) = a * 2 /\ Go.wrap (b * 2) = b * 2) /\
     Game.customInput g = true /\ w' = w /\
     snd r = [(Go.wrap (a * 2), Go.wrap (b * 2))] /\
     Game.selectedScreen (fst r) = 3 /\
     Game.customWidth (fst r) = a /\ Game.customHeight (fst r) = b) \/
  (exists a b,
     100 < a /\ 100 < b /\ (Go.wrap (a * 2) <= 0 \/ Go.wrap (b * 2) <= 0) /\
     Game.customInput g = true /\
     w' = panic "ebiten: width and height must be positive" w /\
     snd r = [] /\
     Game.selectedScreen (fst r) = Game.selectedScreen g /\
     Game.customWidth (fst r) = a /\ Game.customHeight (fst r) = b).
Proof.
  unfold updateSettings.
  destruct (Game.customInput g) eqn:CI.
  - destruct (customDialog_cases lib f g w) as (g1 & _ & G1 & C).
    rewrite (G1 _ eq_refl) in C. cbv zeta in C. cbv zeta.
    destruct C as [E|[(_ & a & b & Ha & Hb & Pa & Pb & X & E)
                     |(_ & a & b & Ha & Hb & Pab & _ & E)]]; rewrite E;
      cbn [fst snd].
    + left. destruct (escapeJustPressed f); cbn; auto.
    + right. right. left. exists a, b.
      destruct (escapeJustPressed f); cbn; auto 12.
    + right. right. right. exists a, b. cbn. auto 12.
  - unfold ret. cbn [fst snd].
    destruct (mouseLeftJustPressed (sim f)); [|left; auto].
    destruct (cursorPosition f) as [x y]. cbv zeta.
    destruct (inBox _ _ SettingsPage.ddX _ _ _).
    { left. cbn [fst snd].
      destruct (backButton_fields (Go.float64 x) (Go.float64 y)
                  (set_dropdownOpen (negb (Game.dropdownOpen g)) g))
        as (B1 & B2 & B3 & _).
      rewrite B1, B2, B3. auto. }
    destruct (Game.dropdownOpen g).
    + destruct (clickOption_cases (Go.float64 x) (Go.float64 y)
                  (indexed screenSizes) g)
        as [E|[(i & lab & W & H & I & N & E)|E]]; rewrite E; cbn [fst snd].
      * left.
        destruct (backButton_fields (Go.float64 x) (Go.float64 y) g)
          as (B1 & B2 & B3 & _).
        rewrite B1, B2, B3. auto.
      * right. left. exists i, lab, W, H.
        destruct (backButton_fields (Go.float64 x) (Go.float64 y)
                    (set_dropdownOpen false (set_selectedScreen i g)))
          as (B1 & B2 & B3 & _).
        rewrite B1, B2, B3. cbn. auto 10.
      * left.
        destruct (backButton_fields (Go.float64 x) (Go.float64 y)
                    (set_dropdownOpen false
                       (set_customInputStr ""%string
                          (set_customInput true g))))
          as (B1 & B2 & B3 & _).
        rewrite B1, B2, B3. cbn. auto.
    + left. cbn [fst snd].
      destruct (backButton_fields (Go.float64 x) (Go.float64 y) g)
        as (B1 & B2 & B3 & _).
      rewrite B1, B2, B3. auto.
Qed.

Lemma updateSettings_text (lib : Strings) (f : Frame) (g : Game.t)
    (w : World) :
  allChars customChar (Game.customInputStr g) = true ->
  allChars customChar
    (Game.customInputStr (fst (fst (updateSettings lib f g w)))) = true.
Proof.
  intros H. unfold updateSettings.
  destruct (Game.customInput g) eqn:CI.
  - destruct (customDialog_cases lib f g w) as (g1 & S1 & _ & C).
    cbv zeta in S1, C.
    pose proof (typeCustom_chars (inputChars f) _ H) as H1.
    set (s1 := typeCustom (Game.customInputStr g) (inputChars f)) in *.
    assert (F1 : allChars customChar (Game.customInputStr g1) = true).
    { rewrite S1. destruct (backspaceJustPressed f && _); [|exact H1].
      unfold dropLast. apply allChars_prefix, H1. }
    destruct C as [E|[(_ & a & b & _ & _ & _ & _ & _ & E)
                     |(_ & a & b & _ & _ & _ & _ & E)]]; rewrite E;
      cbn [fst]; try destruct (escapeJustPressed f); cbn; auto.
  - unfold ret. cbn [fst].
    destruct (mouseLeftJustPressed (sim f)); [|exact H].
    destruct (cursorPosition f) as [x y]. cbv zeta.
    destruct (inBox _ _ SettingsPage.ddX _ _ _).
    { cbn [fst].
      destruct (backButton_fields (Go.float64 x) (Go.float64 y)
                  (set_dropdownOpen (negb (Game.dropdownOpen g)) g))
        as (_ & _ & _ & _ & B & _).
      rewrite B. exact H. }
    destruct (Game.dropdownOpen g).
    + destruct (clickOption_cases (Go.float64 x) (Go.float64 y)
                  (indexed screenSizes) g)
        as [E|[(i & lab & W & H' & I & N & E)|E]]; rewrite E; cbn [fst];
        match goal with |- context [backButton ?a ?b ?c] =>
          destruct (backButton_fields a b c) as (_ & _ & _ & _ & B & _);
          rewrite B end; cbn; auto.
    + cbn [fst].
      destruct (backButton_fields (Go.float64 x) (Go.float64 y) g)
        as (_ & _ & _ & _ & B & _).
      rewrite B. exact H.
Qed.

(** X9: [Update] keeps the mode among "menu", "playing", "dead" and
    "settings", and the mode to return to among "", "menu" and "dead", and
    with an empty username the game is neither in play nor dead nor bound
    to return to the death screen.  From the game [main] starts with, this
    holds after any frames: a game in play, and a dead one, has a
    username, so the guard [g.username != ""] of the death handling never
    fails there. *)
Theorem Update_keeps_modes (lib : Strings) :
  (forall f g w, modeOk g -> modeOk (fst (fst (Update lib f g w)))) /\
  (forall fs w,
     let g := fst (fst (runFrames lib fs initialGame w)) in
     modeOk g /\
     (Game.gameState g = "playing"%string \/
      Game.gameState g = "dead"%string -> Game.username g <> ""%string)).
Proof.
  split; [intros f g w; apply Update_modeOk|].
  intros fs w g.
  assert (H : modeOk g).
  { apply (runFrames_invariant modeOk lib); [|apply modeOk_initialGame].
    intros f g1 w1. apply Update_modeOk. }
  split; [exact H|].
  destruct H as (_ & _ & U). intros [E|E] N; destruct (U N) as (A & B & _);
    contradiction.
Qed.

Lemma Update_keeps_modes_witness :
  let g := fst (fst (Update sampleStrings (typing [65; 110; 110] true)
                       initialGame sampleWorld)) in
  Game.gameState g = "playing"%string /\ Game.username g = "Ann"%string /\
  modeOk g.
Proof.
  intros g. split; [reflexivity|]. split; [reflexivity|].
  destruct (Update_keeps_modes sampleStrings) as [H _].
  apply (H (typing [65; 110; 110] true) initialGame sampleWorld).
  unfold modeOk. simpl. split; [auto|]. split; [auto|].
  intros _. repeat split; discriminate.
Defined.

Lemma UpdatePlaying_score_pre (inp : Input) (g : Game.t) (w : World) :
  Game.score (fst (UpdatePlaying inp g w)) =
  Game.score (bulletsVsEnemies (fst (beforeCollisions inp g w))).
Proof.
  rewrite UpdatePlaying_split.
  apply (playerCollisions_cases
           (bulletsVsEnemies (fst (beforeCollisions inp g w)))
           (snd (beforeCollisions inp g w))).
Qed.

Lemma scores_storedScore (w w' : World) (u : string) :
  scores w' = scores w -> storedScore u w' = storedScore u w.
Proof.
  intros E. unfold storedScore, getScore. simpl. rewrite E. reflexivity.
Qed.

(** X10: a frame of a game in play (in a state [Update] can reach) asks
    for no window size and keeps the username, which is not empty.  It
    panics exactly when the player is hit with a score above the stored
    one while the table is the nil map: then the mode is still "playing",
    the death score is the score, and the table, the trace of saves and
    the score file are unchanged.  Otherwise it returns in play or dead:
    dead exactly when the player was hit, and then the death score is the
    score and the score stored for the user is the larger of the stored
    one and the score, so not below it; in play with the table, the trace
    of saves and the score file unchanged. *)
Theorem death_in_play_is_recorded
    (lib : Strings) (f : Frame) (g : Game.t) (w : World) :
  modeOk g -> Game.gameState g = "playing"%string ->
  let r := Update lib f g w in
  let g' := fst (fst r) in
  let w' := snd r in
  let u := Game.username g in
  let hit :=
    playerDies (bulletsVsEnemies (fst (beforeCollisions (sim f) g w))) in
  let nilWrite := (storedScore u w <? Game.score g') && nilTable w in
  u <> ""%string /\ Game.username g' = u /\
  snd (fst r) = [] /\
  (hit && nilWrite = true ->
   panics w' = panics w ++ ["assignment to entry in nil map"%string] /\
   Game.gameState g' = "playing"%string /\
   Game.deathScore g' = Game.score g' /\
   scores w' = scores w /\ saveLog w' = saveLog w /\
   scoreFile w' = scoreFile w) /\
  (hit && nilWrite = false ->
   panics w' = panics w /\
   (Game.gameState g' = "playing"%string \/
    Game.gameState g' = "dead"%string) /\
   (Game.gameState g' = "dead"%string ->
    hit = true /\
    Game.deathScore g' = Game.score g' /\
    Game.score g' <= storedScore u w' /\
    storedScore u w' = Z.max (storedScore u w) (Game.score g')) /\
   (Game.gameState g' = "playing"%string ->
    hit = false /\
    scores w' = scores w /\ saveLog w' = saveLog w /\
    scoreFile w' = scoreFile w)).
Proof.
  intros (_ & _ & U) P. cbv zeta.
  assert (N : Game.username g <> ""%string).
  { intros E. destruct (U E) as (X & _). contradiction. }
  rewrite Update_playing by (rewrite P; discriminate). cbn [fst snd].
  destruct (UpdatePlaying_page_fields (sim f) g w) as (HU & _).
  cbv zeta in HU.
  pose proof (UpdatePlaying_contact (sim f) g w) as C.
  pose proof (UpdatePlaying_death (sim f) g w) as D.
  pose proof (UpdatePlaying_survives (sim f) g w) as L.
  destruct (beforeCollisions_identity (sim f) g w) as (IU & _ & _).
  cbv zeta in C, D, L, IU.
  rewrite (UpdatePlaying_score_pre (sim f) g w).
  set (pre := bulletsVsEnemies (fst (beforeCollisions (sim f) g w))) in *.
  set (g' := fst (UpdatePlaying (sim f) g w)) in *.
  set (w' := snd (UpdatePlaying (sim f) g w)) in *.
  unfold newRecord in C. rewrite IU in C.
  apply String.eqb_neq in N as NB. rewrite NB in C. cbn [negb andb] in C.
  split; [exact N|]. split; [exact HU|]. split; [reflexivity|].
  destruct (playerDies pre) eqn:HD; cbn [andb].
  - destruct C as [C1 C2]. specialize (D eq_refl).
    destruct D as (_ & D1 & D2 & D3). split.
    + intros X. rewrite X in C2. destruct C2 as [C2 C3].
      apply andb_true_iff in X. destruct X as [X1 X2].
      apply Z.ltb_lt in X1. unfold nilTable in X2.
      destruct (HighScores (scores w)) as [m|] eqn:T; [discriminate|].
      rewrite (nilTable_storedScore w _ T) in X1.
      destruct (D3 eq_refl N X1) as (_ & _ & E1 & E2 & E3).
      rewrite C2, P. repeat split; assumption.
    + intros X. rewrite X in C2. destruct C2 as [C2 C3].
      split; [exact C3|]. split; [right; exact C2|]. split.
      * intros _. split; [reflexivity|]. split; [exact C1|].
        assert (M : storedScore (Game.username g) w' =
                    Z.max (storedScore (Game.username g) w)
                          (Game.score pre)).
        { destruct (HighScores (scores w)) as [m|] eqn:T.
          - apply (D1 m eq_refl), N.
          - unfold nilTable in X. rewrite T, andb_true_r in X.
            apply Z.ltb_ge in X.
            destruct D2 as (_ & E & _); [right; exact X|].
            rewrite (scores_storedScore _ _ _ E). lia. }
        split; [lia|exact M].
      * intros E. rewrite C2 in E. discriminate E.
  - destruct C as (C1 & C2 & C3). split; [discriminate|]. intros _.
    specialize (L eq_refl). destruct L as (_ & L1 & L2 & L3 & _).
    rewrite C1, P. split; [exact C3|]. split; [left; reflexivity|].
    split; [discriminate|]. intros _. repeat split; assumption.
Qed.

(** An enemy on "Ann", with 7 points: on a table that has been made, and
    after the score file gave null for it. *)
Lemma death_in_play_is_recorded_witness :
  let e := {| Enemy.X := 330; Enemy.Y := 250; Enemy.Size := 32;
              Enemy.SpeedY := (-2)%float; Enemy.Cooldown := 40;
              Enemy.Dead := false |} in
  let g := Game.set_score 7 (Game.set_enemies [e] annPlaying) in
  let r := Update sampleStrings (typing [] false) g sampleWorld in
  let nil := snd (loadScores (jsonWorld (Some nullFile))) in
  let r' := Update sampleStrings (typing [] false) g nil in
  (Game.gameState (fst (fst r)) = "dead"%string /\
   Game.deathScore (fst (fst r)) = 7 /\
   storedScore "Ann" (snd r) = 7) /\
  (Game.gameState (fst (fst r')) = "playing"%string /\
   panics (snd r') = ["assignment to entry in nil map"%string] /\
   storedScore "Ann" (snd r') = 0).
Proof.
  intros e g r nil r'.
  assert (M : modeOk g).
  { unfold modeOk. simpl. split; [auto|]. split; [auto|]. discriminate. }
  split.
  - destruct (death_in_play_is_recorded sampleStrings (typing [] false) g
                sampleWorld M eq_refl) as (_ & _ & _ & _ & D).
    destruct (D eq_refl) as (_ & _ & D1 & _).
    assert (E : Game.gameState (fst (fst r)) = "dead"%string)
      by reflexivity.
    destruct (D1 E) as (_ & D2 & _ & D3).
    split; [exact E|]. split; [exact D2|exact D3].
  - destruct (death_in_play_is_recorded sampleStrings (typing [] false) g
                nil M eq_refl) as (_ & _ & _ & D & _).
    destruct (D eq_refl) as (D1 & D2 & _ & D3 & _).
    split; [exact D2|]. split; [exact D1|].
    apply (scores_storedScore _ _ "Ann"%string D3).
Defined.

(** X11: the name field and the username hold at most twelve bytes, each
    of them a letter, a digit, '_' or '-': [Update] keeps this, and it
    holds after any frames from the game [main] starts with. *)
Theorem names_stay_plain (lib : Strings) :
  (forall f g w,
     plainName (Game.usernameInput g) -> plainName (Game.username g) ->
     let g' := fst (fst (Update lib f g w)) in
     plainName (Game.usernameInput g') /\ plainName (Game.username g')) /\
  (forall fs w,
     let g := fst (fst (runFrames lib fs initialGame w)) in
     plainName (Game.usernameInput g) /\ plainName (Game.username g)).
Proof.
  assert (S : forall f g w,
             plainName (Game.usernameInput g) /\ plainName (Game.username g) ->
             let g' := fst (fst (Update lib f g w)) in
             plainName (Game.usernameInput g') /\
             plainName (Game.username g')).
  { intros f g w [HI HU]. cbv zeta.
    apply (Update_branches lib f g w
             (fun r => plainName (Game.usernameInput (fst (fst r))) /\
                       plainName (Game.username (fst (fst r))))).
    - intros _. cbn [fst].
      destruct (updateSettings_modes lib f
                  (Game.set_keys (pressed (sim f)) g) w)
        as (_ & E1 & E2 & _).
      cbv zeta in E1, E2. rewrite E1, E2. split; assumption.
    - intros _. cbn [fst].
      destruct (updateMenu_names f (Game.set_keys (pressed (sim f)) g) w HI)
        as [N1 [N2|N2]]; rewrite N2; split; assumption.
    - intros _. cbn [fst].
      destruct (updateDead_modes f (Game.set_keys (pressed (sim f)) g) w)
        as (_ & E1 & E2 & _).
      cbv zeta in E1, E2. rewrite E1, E2. split; assumption.
    - intros _ _ _. cbn [fst].
      destruct (UpdatePlaying_page_fields (sim f) g w) as (E1 & E2 & _).
      cbv zeta in E1, E2. rewrite E1, E2. split; assumption. }
  split.
  - intros f g w HI HU. apply S. split; assumption.
  - intros fs w.
    apply (runFrames_invariant
             (fun g => plainName (Game.usernameInput g) /\
                       plainName (Game.username g)) lib S).
    split; split; simpl; try reflexivity; unfold len; simpl; lia.
Qed.

Lemma names_stay_plain_witness :
  let f := typing [65; 32; 110; 95; 233; 49; 50; 51; 52; 53; 54; 55; 56; 57;
                   48; 97] false in
  let g' := fst (fst (Update sampleStrings f initialGame sampleWorld)) in
  Game.usernameInput g' = "An_123456789"%string /\
  plainName (Game.usernameInput g').
Proof.
  intros f g'. split; [reflexivity|].
  destruct (names_stay_plain sampleStrings) as [H _].
  apply (H f initialGame sampleWorld).
  - split; [unfold len; simpl; lia|reflexivity].
  - split; [unfold len; simpl; lia|reflexivity].
Defined.

(** X12: the text of the custom-size field holds digits and commas only:
    [Update] keeps this, and it holds after any frames from the game
    [main] starts with.  (The field has no length limit.) *)
Theorem custom_text_is_digits_and_commas (lib : Strings) :
  (forall f g w,
     allChars customChar (Game.customInputStr g) = true ->
     allChars customChar
       (Game.customInputStr (fst (fst (Update lib f g w)))) = true) /\
  (forall fs w,
     allChars customChar
       (Game.customInputStr (fst (fst (runFrames lib fs initialGame w))))
     = true).
Proof.
  assert (S : forall f g w,
             allChars customChar (Game.customInputStr g) = true ->
             allChars customChar
               (Game.customInputStr (fst (fst (Update lib f g w)))) = true).
  { intros f g w H.
    apply (Update_branches lib f g w
             (fun r => allChars customChar
                         (Game.customInputStr (fst (fst r))) = true)).
    - intros _. cbn [fst]. apply updateSettings_text. exact H.
    - intros _. cbn [fst].
      destruct (updateMenu_settings_fields f
                  (Game.set_keys (pressed (sim f)) g) w)
        as (_ & _ & _ & _ & _ & E & _).
      cbv zeta in E. rewrite E. exact H.
    - intros _. cbn [fst].
      destruct (updateDead_settings_fields f
                  (Game.set_keys (pressed (sim f)) g) w)
        as (_ & _ & _ & _ & _ & E).
      cbv zeta in E. rewrite E. exact H.
    - intros _ _ _. cbn [fst].
      destruct (UpdatePlaying_page_fields (sim f) g w)
        as (_ & _ & _ & _ & _ & _ & _ & _ & E).
      cbv zeta in E. rewrite E. exact H. }
  split; [exact S|].
  intros fs w.
  apply (runFrames_invariant
           (fun g => allChars customChar (Game.customInputStr g) = true)
           lib S).
  reflexivity.
Qed.

Lemma custom_text_is_digits_and_commas_witness :
  let g := set_customInput true (Game.set_gameState "settings" initialGame) in
  let f := typing [56; 48; 48; 120; 44; 32; 54; 48; 48] false in
  let g' := fst (fst (Update sampleStrings f g sampleWorld)) in
  Game.customInputStr g' = "800,600"%string /\
  allChars customChar (Game.customInputStr g') = true.
Proof.
  intros g f g'. split; [reflexivity|].
  destruct (custom_text_is_digits_and_commas sampleStrings) as [H _].
  apply (H f g sampleWorld). reflexivity.
Defined.

Lemma screenSizes_nth (i : Z) (lab : string) (W H : Z) :
  In (i, (lab, W, H)) (indexed screenSizes) ->
  0 <= i <= 3 /\
  nth_error screenSizes (Z.to_nat i) = Some (lab, W, H).
Proof.
  unfold indexed, screenSizes. simpl.
  intros [E|[E|[E|[E|[]]]]]; inversion E; subst; (split; [lia|reflexivity]).
Qed.

Lemma updateSettings_screenOk (lib : Strings) (f : Frame) (g : Game.t)
    (w : World) :
  screenOk g -> screenOk (fst (fst (updateSettings lib f g w))).
Proof.
  intros [R C].
  destruct (updateSettings_selection lib f g w)
    as [(_ & _ & S1 & S2 & S3)
       |[(i & lab & W & H & I & N & _ & _ & _ & S1 & S2 & S3)
        |[(a & b & Ha & Hb & _ & _ & _ & _ & _ & _ & S1 & S2 & S3)
         |(a & b & Ha & Hb & _ & _ & _ & _ & S1 & S2 & S3)]]];
    unfold screenOk; rewrite S1, S2, S3.
  - split; assumption.
  - destruct (screenSizes_nth i lab W H I) as [Ri _].
    split; [exact Ri|intros X; contradiction].
  - split; [lia|intros _; split; assumption].
  - split; [exact R|intros _; split; assumption].
Qed.

Lemma Update_screenOk (lib : Strings) (f : Frame) (g : Game.t) (w : World) :
  screenOk g -> screenOk (fst (fst (Update lib f g w))).
Proof.
  intros H.
  assert (K : forall g', Game.selectedScreen g' = Game.selectedScreen g ->
                         Game.customWidth g' = Game.customWidth g ->
                         Game.customHeight g' = Game.customHeight g ->
                         screenOk g').
  { intros g' E1 E2 E3. unfold screenOk in *. rewrite E1, E2, E3. exact H. }
  apply (Update_branches lib f g w (fun r => screenOk (fst (fst r)))).
  - intros _.
    apply (updateSettings_screenOk lib f
             (Game.set_keys (pressed (sim f)) g) w). exact H.
  - intros _. cbn [fst snd].
    destruct (updateMenu_settings_fields f
                (Game.set_keys (pressed (sim f)) g) w)
      as (_ & E1 & E2 & E3 & _).
    apply K; assumption.
  - intros _. cbn [fst snd].
    destruct (updateDead_settings_fields f
                (Game.set_keys (pressed (sim f)) g) w)
      as (_ & E1 & E2 & E3 & _).
    apply K; assumption.
  - intros _ _ _. cbn [fst snd].
    destruct (UpdatePlaying_page_fields (sim f) g w)
      as (_ & _ & _ & _ & E1 & E2 & E3 & _).
    apply K; assumption.
Qed.

(** A frame adds to the trace of panics, if anything. *)
Lemma Update_panics (lib : Strings) (f : Frame) (g : Game.t) (w : World) :
  panics (snd (Update lib f g w)) = panics w \/
  exists msg, panics (snd (Update lib f g w)) = panics w ++ [msg].
Proof.
  apply (Update_branches lib f g w
           (fun r => panics (snd r) = panics w \/
                     exists msg, panics (snd r) = panics w ++ [msg])).
  - intros _.
    destruct (updateSettings_selection lib f
                (Game.set_keys (pressed (sim f)) g) w)
      as [(E & _)
         |[(i & lab & W & H & _ & _ & _ & E & _)
          |[(a & b & _ & _ & _ & _ & _ & _ & E & _)
           |(a & b & _ & _ & _ & _ & E & _)]]];
      cbv zeta in E; rewrite E; [left; reflexivity ..|].
    right. eexists. reflexivity.
  - intros _. cbn [snd].
    destruct (updateMenu_modes f (Game.set_keys (pressed (sim f)) g) w)
      as (W & _).
    rewrite W. left. reflexivity.
  - intros _. cbn [snd].
    destruct (updateDead_modes f (Game.set_keys (pressed (sim f)) g) w)
      as (W & _).
    rewrite W. left. reflexivity.
  - intros _ _ _. cbn [snd].
    pose proof (UpdatePlaying_contact (sim f) g w) as C. cbv zeta in C.
    destruct (playerDies _).
    + destruct C as [_ C]. destruct (_ && _).
      * right. eexists. apply C.
      * left. apply C.
    + left. apply C.
Qed.

Lemma runFrames_panics (lib : Strings) (fs : list Frame) :
  forall g w, exists l,
    panics (snd (runFrames lib fs g w)) = panics w ++ l.
Proof.
  induction fs as [|f fs IH]; intros g w; simpl.
  - exists []. rewrite app_nil_r. reflexivity.
  - unfold bind, ret.
    pose proof (Update_panics lib f g w) as U.
    destruct (Update lib f g w) as [[g1 c1] w1]. cbn [fst snd] in *.
    destruct (IH g1 w1) as [l L].
    destruct (runFrames lib fs g1 w1) as [[g2 c2] w2]. cbn [fst snd] in *.
    destruct U as [U|[msg U]]; rewrite L, U.
    + exists l. reflexivity.
    + exists (msg :: l). rewrite <- app_assoc. reflexivity.
Qed.

Lemma app_same_nil {A : Type} (l k : list A) : l ++ k = l -> k = [].
Proof.
  intros H. apply (f_equal (@length A)) in H. rewrite length_app in H.
  destruct k; [reflexivity|]. simpl in H. lia.
Qed.

(** The window sizes of a frame of the settings page that returns. *)
Lemma updateSettings_window (lib : Strings) (f : Frame) (g : Game.t)
    (w : World) :
  atoiInt lib ->
  let r := fst (updateSettings lib f g w) in
  let w' := snd (updateSettings lib f g w) in
  (w' = w /\
   (snd r = [] /\ windowFor (fst r) = windowFor g \/
    snd r = [windowFor (fst r)] /\
    0 < fst (windowFor (fst r)) /\ 0 < snd (windowFor (fst r)))) \/
  (panics w' = panics w ++ ["ebiten: width and height must be positive"%string]
   /\ snd r = []).
Proof.
  intros I. cbv zeta.
  destruct (updateSettings_selection lib f g w)
    as [(EW & E & S1 & S2 & S3)
       |[(i & lab & W & H & IN & N & _ & EW & E & S1 & S2 & S3)
        |[(a & b & Ha & Hb & Pa & Pb & X & _ & EW & E & S1 & S2 & S3)
         |(a & b & Ha & Hb & _ & _ & EW & E & _)]]].
  - left. split; [exact EW|]. left. split; [exact E|].
    unfold windowFor. rewrite S1, S2, S3. reflexivity.
  - left. split; [exact EW|]. right.
    destruct (screenSizes_nth i lab W H IN) as [Ri Ni].
    destruct (screenSizes_rows i lab W H IN N) as [_ Rows].
    unfold windowFor. rewrite S1, Ni. apply Z.eqb_neq in N. rewrite N.
    rewrite E. cbn [fst snd].
    destruct Rows as [R|[R|R]]; injection R as -> ->;
      (split; [reflexivity|split; reflexivity]).
  - left. split; [exact EW|]. right.
    destruct (X I) as [Xa Xb].
    assert (N3 : exists l W H, nth_error screenSizes (Z.to_nat 3)
                               = Some (l, W, H))
      by (vm_compute; eauto).
    destruct N3 as (l & W & H & N3).
    unfold windowFor. rewrite S1, S2, S3, N3, E, Xa, Xb.
    change (3 =? 3) with true. cbn [fst snd].
    split; [reflexivity|]. lia.
  - right. rewrite EW. split; [reflexivity|exact E].
Qed.

Lemma Update_window (lib : Strings) (f : Frame) (g : Game.t) (w : World) :
  atoiInt lib ->
  let r := fst (Update lib f g w) in
  let w' := snd (Update lib f g w) in
  (panics w' = panics w ->
   snd r = [] /\ windowFor (fst r) = windowFor g \/
   snd r = [windowFor (fst r)] /\
   0 < fst (windowFor (fst r)) /\ 0 < snd (windowFor (fst r)) /\
   Game.gameState g = "settings"%string) /\
  (panics w' <> panics w -> snd r = []).
Proof.
  intros I. cbv zeta.
  assert (K : forall g', Game.selectedScreen g' = Game.selectedScreen g ->
                         Game.customWidth g' = Game.customWidth g ->
                         Game.customHeight g' = Game.customHeight g ->
                         windowFor g' = windowFor g).
  { intros g' E1 E2 E3. unfold windowFor. rewrite E1, E2, E3. reflexivity. }
  apply (Update_branches lib f g w
           (fun r => (panics (snd r) = panics w ->
                      snd (fst r) = [] /\
                      windowFor (fst (fst r)) = windowFor g \/
                      snd (fst r) = [windowFor (fst (fst r))] /\
                      0 < fst (windowFor (fst (fst r))) /\
                      0 < snd (windowFor (fst (fst r))) /\
                      Game.gameState g = "settings"%string) /\
                     (panics (snd r) <> panics w -> snd (fst r) = []))).
  - intros S.
    destruct (updateSettings_window lib f
                (Game.set_keys (pressed (sim f)) g) w I)
      as [(EW & [[E1 E2]|(E1 & E2 & E3)])|(EP & E)].
    + split; [|intros _; exact E1]. intros _. left.
      split; [exact E1|exact E2].
    + split; [|intros X; rewrite EW in X; contradiction].
      intros _. right. repeat split; assumption.
    + split; [|intros _; exact E]. intros X. rewrite EP in X.
      apply app_same_nil in X. discriminate X.
  - intros _. cbn [fst snd].
    destruct (updateMenu_settings_fields f
                (Game.set_keys (pressed (sim f)) g) w)
      as (_ & E1 & E2 & E3 & _).
    split; [|reflexivity]. intros _. left.
    split; [reflexivity|apply K; assumption].
  - intros _. cbn [fst snd].
    destruct (updateDead_settings_fields f
                (Game.set_keys (pressed (sim f)) g) w)
      as (_ & E1 & E2 & E3 & _).
    split; [|reflexivity]. intros _. left.
    split; [reflexivity|apply K; assumption].
  - intros _ _ _. cbn [fst snd].
    destruct (UpdatePlaying_page_fields (sim f) g w)
      as (_ & _ & _ & _ & E1 & E2 & E3 & _).
    split; [|reflexivity]. intros _. left.
    split; [reflexivity|apply K; assumption].
Qed.

(** X13: [Update] keeps the selected row in 0..3, and keeps the custom
    width and height above 100 whenever the row is 3; from the game
    [main] starts with this holds after any frames, so the index
    [screenSizes[g.selectedScreen]] of [Draw] is in range. *)
Theorem selection_stays_in_range (lib : Strings) :
  (forall f g w, screenOk g -> screenOk (fst (fst (Update lib f g w)))) /\
  (forall fs w,
     let g := fst (fst (runFrames lib fs initialGame w)) in
     screenOk g /\
     exists row, nth_error screenSizes (Z.to_nat (Game.selectedScreen g))
                 = Some row).
Proof.
  assert (S : forall f g w,
             screenOk g -> screenOk (fst (fst (Update lib f g w)))).
  { intros f g w H. apply (Update_screenOk lib f g w H). }
  split; [exact S|]. intros fs w g.
  assert (H : screenOk g).
  { apply (runFrames_invariant screenOk lib S).
    split; simpl; [lia|discriminate]. }
  split; [exact H|]. destruct H as [[H1 H2] _].
  assert (C : Z.to_nat (Game.selectedScreen g) = 0%nat \/
              Z.to_nat (Game.selectedScreen g) = 1%nat \/
              Z.to_nat (Game.selectedScreen g) = 2%nat \/
              Z.to_nat (Game.selectedScreen g) = 3%nat) by lia.
  destruct C as [C|[C|[C|C]]]; rewrite C; simpl; eexists; reflexivity.
Qed.

Lemma selection_stays_in_range_witness :
  let g := set_dropdownOpen true (Game.set_gameState "settings" initialGame) in
  let g' := fst (fst (Update sampleStrings (click 300 300) g sampleWorld)) in
  Game.selectedScreen g' = 2 /\ screenOk g'.
Proof.
  intros g g'. split; [reflexivity|].
  destruct (selection_stays_in_range sampleStrings) as [H _].
  apply (H (click 300 300) g sampleWorld).
  split; simpl; [lia|discriminate].
Defined.

Lemma last_default {A : Type} (x : A) (l : list A) (d d' : A) :
  List.last (x :: l) d = List.last (x :: l) d'.
Proof.
  revert x. induction l as [|y l IH]; intros x; [reflexivity|].
  change (List.last (y :: l) d = List.last (y :: l) d'). apply IH.
Qed.

Lemma runFrames_window (lib : Strings) (fs : list Frame) :
  atoiInt lib ->
  forall g w,
    let r := fst (runFrames lib fs g w) in
    panics (snd (runFrames lib fs g w)) = panics w ->
    List.last (snd r) (windowFor g) = windowFor (fst r).
Proof.
  intros I. induction fs as [|f fs IH]; intros g w; simpl.
  - reflexivity.
  - unfold bind, ret.
    destruct (Update_window lib f g w I) as [H2 _].
    pose proof (Update_panics lib f g w) as U.
    destruct (Update lib f g w) as [[g1 c1] w1]. cbn [fst snd] in *.
    specialize (IH g1 w1).
    destruct (runFrames_panics lib fs g1 w1) as [l L].
    destruct (runFrames lib fs g1 w1) as [[g2 c2] w2]. cbn [fst snd] in *.
    intros P.
    assert (P1 : panics w1 = panics w).
    { destruct U as [U|[msg U]]; [exact U|].
      rewrite L, U, <- app_assoc in P. apply app_same_nil in P.
      discriminate P. }
    assert (P2 : panics w2 = panics w1) by (rewrite P1; exact P).
    specialize (IH P2). rewrite <- IH.
    destruct (H2 P1) as [[-> E]|(-> & _)].
    + simpl. rewrite E. reflexivity.
    + destruct c2 as [|c c2]; [reflexivity|].
      change (List.last ([windowFor g1] ++ c :: c2) (windowFor g))
        with (List.last (c :: c2) (windowFor g)).
      apply last_default.
Qed.

Lemma digitsValue_nonneg (s : string) :
  forall acc n, 0 <= acc -> digitsValue acc s = Some n -> 0 <= n.
Proof.
  induction s as [|a s IH]; intros acc n H; simpl.
  - intros [= <-]. exact H.
  - destruct (_ && _) eqn:D; [|discriminate].
    apply andb_true_iff in D. destruct D as [D1 D2].
    apply Z.leb_le in D1. apply IH. lia.
Qed.

Lemma sampleStrings_int : atoiInt sampleStrings.
Proof.
  intros s. unfold sampleStrings. cbn [Atoi].
  change (2 ^ 63) with 9223372036854775808.
  destruct s as [|a s]; [simpl; lia|].
  destruct (digitsValue 0 (String a s)) as [n|] eqn:D; [|simpl; lia].
  pose proof (digitsValue_nonneg _ 0 n ltac:(lia) D) as N.
  destruct (Z.ltb_spec n 9223372036854775808); simpl; lia.
Qed.

(** X14: the window follows the selection.  [main] asks for 1280 x 960,
    the size of row 0.  With an [Atoi] that returns an [int], a frame that
    returns is given at most one window size by [SetWindowSize], and then
    the one of the selection it leaves: twice the size of the row, or
    twice the custom size for row 3, positive on both sides, and only on
    the settings page; a frame that returns without a call leaves the
    selection's size as it was; a frame that panics has made no call that
    returned.  So after any frames without a panic the last size asked
    for is the one of the current selection. *)
Theorem window_follows_selection
    (lib : Strings) (fs : list Frame) (f : Frame) (g : Game.t) (w : World) :
  atoiInt lib ->
  let run := runFrames lib fs initialGame w in
  let r := Update lib f g w in
  windowFor initialGame = (1280, 960) /\
  (panics (snd run) = panics w ->
   List.last (snd (fst run)) (1280, 960) = windowFor (fst (fst run))) /\
  (panics (snd r) = panics w ->
   snd (fst r) = [] /\ windowFor (fst (fst r)) = windowFor g \/
   snd (fst r) = [windowFor (fst (fst r))] /\
   0 < fst (windowFor (fst (fst r))) /\
   0 < snd (windowFor (fst (fst r))) /\
   Game.gameState g = "settings"%string) /\
  (panics (snd r) <> panics w -> snd (fst r) = []) /\
  (Game.gameState g <> "settings"%string -> snd (fst r) = []).
Proof.
  intros I. cbv zeta.
  split; [reflexivity|]. split; [|split; [|split]].
  - apply (runFrames_window lib fs I initialGame w).
  - apply (Update_window lib f g w I).
  - apply (Update_window lib f g w I).
  - intros N.
    apply (Update_branches lib f _ _ (fun r => snd (fst r) = []));
      try reflexivity.
    intros E. contradiction.
Qed.

(** The size 800 x 600 typed into the dialog of the settings page. *)
Lemma window_follows_selection_witness :
  let g := set_customInputStr "800,600"
             (set_customInput true
                (Game.set_gameState "settings" initialGame)) in
  let r := Update sampleStrings (typing [] true) g sampleWorld in
  snd (fst r) = [(1600, 1200)] /\
  windowFor (fst (fst r)) = (1600, 1200).
Proof.
  intros g r.
  destruct (window_follows_selection sampleStrings [] (typing [] true) g
              sampleWorld sampleStrings_int) as (_ & _ & H & _).
  destruct (H eq_refl) as [[H1 _]|(H1 & H2 & _)].
  - discriminate H1.
  - split; [reflexivity|]. clear H1 H2. reflexivity.
Defined.

(** ** Where the buttons are *)

Lemma inBox_spans (xf yf x y w h : float) :
  inBox xf yf x y w h = inSpan xf x w && inSpan yf y h.
Proof. unfold inBox, inSpan. rewrite !andb_assoc. reflexivity. Qed.

Lemma zBox_spans (x y x0 y0 x1 y1 : Z) :
  zBox x y x0 y0 x1 y1 =
  ((x0 <=? x) && (x <=? x1)) && ((y0 <=? y) && (y <=? y1)).
Proof. unfold zBox. rewrite !andb_assoc. reflexivity. Qed.

Lemma spans_x_checked :
  forallb (fun x => spanIs btnX btnW 260 380 x &&
                    spanIs SettingsPage.ddX SettingsPage.ddW 220 420 x)
          (List.map Z.of_nat (seq 0 640)) = true.
Proof. vm_compute. reflexivity. Qed.

Lemma spans_y_checked :
  forallb (fun y => spanIs MenuPage.btnY btnH 386 426 y &&
                    spanIs DeadPage.menuBtnY btnH 230 270 y &&
                    spanIs DeadPage.playAgainBtnY btnH 286 326 y &&
                    spanIs DeadPage.settingsBtnY btnH 342 382 y &&
                    spanIs SettingsPage.btnY btnH 326 366 y &&
                    spanIs SettingsPage.ddY SettingsPage.ddH 190 222 y &&
                    forallb (fun i => spanIs (optY i) SettingsPage.ddH
                                        (222 + 32 * i) (254 + 32 * i) y)
                            [0; 1; 2; 3])
          (List.map Z.of_nat (seq 0 480)) = true.
Proof. vm_compute. reflexivity. Qed.

Lemma in_range (n : nat) (v : Z) :
  0 <= v < Z.of_nat n -> In v (List.map Z.of_nat (seq 0 n)).
Proof.
  intros H. apply in_map_iff. exists (Z.to_nat v). split; [lia|].
  apply in_seq. lia.
Qed.

Lemma boxes_onScreen (x y : Z) :
  0 <= x < 640 -> 0 <= y < 480 ->
  let xf := Go.float64 x in
  let yf := Go.float64 y in
  inBox xf yf btnX MenuPage.btnY btnW btnH = zBox x y 260 386 380 426 /\
  inBox xf yf btnX DeadPage.menuBtnY btnW btnH = zBox x y 260 230 380 270 /\
  inBox xf yf btnX DeadPage.playAgainBtnY btnW btnH =
    zBox x y 260 286 380 326 /\
  inBox xf yf btnX DeadPage.settingsBtnY btnW btnH =
    zBox x y 260 342 380 382 /\
  inBox xf yf btnX SettingsPage.btnY btnW btnH = zBox x y 260 326 380 366 /\
  inBox xf yf SettingsPage.ddX SettingsPage.ddY
        SettingsPage.ddW SettingsPage.ddH = zBox x y 220 190 420 222 /\
  (forall i, 0 <= i <= 3 ->
     inBox xf yf SettingsPage.ddX (optY i)
           SettingsPage.ddW SettingsPage.ddH =
     zBox x y 220 (222 + 32 * i) 420 (254 + 32 * i)).
Proof.
  intros Hx Hy xf yf.
  pose proof spans_x_checked as CX. rewrite forallb_forall in CX.
  specialize (CX x (in_range 640 x Hx)).
  pose proof spans_y_checked as CY. rewrite forallb_forall in CY.
  specialize (CY y (in_range 480 y Hy)).
  apply andb_true_iff in CX. destruct CX as [X1 X2].
  repeat (apply andb_true_iff in CY;
          let H := fresh "Y" in destruct CY as [CY H]).
  rewrite forallb_forall in Y.
  unfold spanIs in *. apply eqb_prop in X1, X2, CY, Y0, Y1, Y2, Y3, Y4.
  fold xf in X1, X2. fold yf in CY, Y0, Y1, Y2, Y3, Y4.
  rewrite !inBox_spans, !zBox_spans, X1, X2, CY, Y0, Y1, Y2, Y3, Y4.
  repeat (split; [reflexivity|]).
  intros i Hi. rewrite inBox_spans, zBox_spans, X2.
  assert (I : In i [0; 1; 2; 3]) by (simpl; lia).
  specialize (Y i I). apply eqb_prop in Y. fold yf in Y. rewrite Y.
  reflexivity.
Qed.

(** X15: for a cursor on the screen (0 <= x < 640, 0 <= y < 480) the click
    tests are membership in these rectangles of integer points, borders
    included: the settings button of the menu 260..380 x 386..426; the
    three buttons of the death screen 260..380 x 230..270, 286..326 and
    342..382; the Back button 260..380 x 326..366; the dropdown header
    220..420 x 190..222 and its row [i] 220..420 x (222 + 32 i)..(254 + 32
    i).  The buttons of the death screen are disjoint; the header and row
    0, and each row and the next, share their border line; the Back
    button overlaps the fourth row ("Custom...") in 260..380 x 326..350
    and none of the other rows nor the header. *)
Theorem click_boxes (x y : Z) :
  0 <= x < 640 -> 0 <= y < 480 ->
  let xf := Go.float64 x in
  let yf := Go.float64 y in
  let menuSettings := inBox xf yf btnX MenuPage.btnY btnW btnH in
  let deadMenu := inBox xf yf btnX DeadPage.menuBtnY btnW btnH in
  let deadAgain := inBox xf yf btnX DeadPage.playAgainBtnY btnW btnH in
  let deadSettings := inBox xf yf btnX DeadPage.settingsBtnY btnW btnH in
  let back := inBox xf yf btnX SettingsPage.btnY btnW btnH in
  let header := inBox xf yf SettingsPage.ddX SettingsPage.ddY
                      SettingsPage.ddW SettingsPage.ddH in
  let row i := inBox xf yf SettingsPage.ddX (optY i)
                     SettingsPage.ddW SettingsPage.ddH in
  menuSettings = zBox x y 260 386 380 426 /\
  deadMenu = zBox x y 260 230 380 270 /\
  deadAgain = zBox x y 260 286 380 326 /\
  deadSettings = zBox x y 260 342 380 382 /\
  back = zBox x y 260 326 380 366 /\
  header = zBox x y 220 190 420 222 /\
  (forall i, 0 <= i <= 3 ->
             row i = zBox x y 220 (222 + 32 * i) 420 (254 + 32 * i)) /\
  deadMenu && deadAgain = false /\ deadAgain && deadSettings = false /\
  deadMenu && deadSettings = false /\
  (header && row 0 = zBox x y 220 222 420 222) /\
  (forall i, 0 <= i <= 2 ->
             row i && row (i + 1) =
             zBox x y 220 (254 + 32 * i) 420 (254 + 32 * i)) /\
  (back && row 3 = zBox x y 260 326 380 350) /\
  (back && (header || row 0 || row 1 || row 2) = false).
Proof.
  intros Hx Hy. cbv zeta.
  destruct (boxes_onScreen x y Hx Hy) as (B1 & B2 & B3 & B4 & B5 & B6 & R).
  cbv zeta in *.
  rewrite B1, B2, B3, B4, B5, B6, (R 0), (R 1), (R 2), (R 3) by lia.
  repeat (split; [reflexivity|]).
  split; [exact R|].
  unfold zBox.
  split; [lia|]. split; [lia|]. split; [lia|]. split; [lia|].
  split; [|split; [lia|lia]].
  intros i Hi. rewrite (R i), (R (i + 1)) by lia. unfold zBox. lia.
Qed.

Lemma click_boxes_witness :
  inBox (Go.float64 380) (Go.float64 326) btnX DeadPage.playAgainBtnY
        btnW btnH = true /\
  inBox (Go.float64 380) (Go.float64 326) btnX SettingsPage.btnY
        btnW btnH = true /\
  inBox (Go.float64 380) (Go.float64 326) SettingsPage.ddX (optY 3)
        SettingsPage.ddW SettingsPage.ddH = true.
Proof.
  assert (Hx : 0 <= 380 < 640) by lia.
  assert (Hy : 0 <= 326 < 480) by lia.
  destruct (click_boxes 380 326 Hx Hy)
    as (_ & _ & H1 & _ & H2 & _ & H3 & _).
  assert (H4 : 0 <= 3 <= 3) by lia.
  specialize (H3 3 H4).
  split; [exact H1|]. split; [exact H2|exact H3].
Defined.

Lemma clickOption_cons (xf yf : float) (i : Z) (lab : string) (W H : Z)
    (rest : list (Z * (string * Z * Z))) (g : Game.t) :
  clickOption xf yf ((i, (lab, W, H)) :: rest) g =
  if inBox xf yf SettingsPage.ddX (optY i) SettingsPage.ddW SettingsPage.ddH
  then (set_dropdownOpen false
          (fst (if i =? 3
                then (set_customInputStr ""%string (set_customInput true g),
                      @nil WindowSize)
                else (set_selectedScreen i g,
                      [(Go.wrap (W * 2), Go.wrap (H * 2))]))),
        snd (if i =? 3
             then (set_customInputStr ""%string (set_customInput true g),
                   @nil WindowSize)
             else (set_selectedScreen i g,
                   [(Go.wrap (W * 2), Go.wrap (H * 2))])))
  else clickOption xf yf rest g.
Proof.
  simpl. fold (optY i). destruct (inBox _ _ _ _ _ _); [|reflexivity].
  destruct (i =? 3); reflexivity.
Qed.

Lemma updateSettings_click
    (lib : Strings) (f : Frame) (g : Game.t) (w : World) (x y : Z) :
  Game.customInput g = false -> mouseLeftJustPressed (sim f) = true ->
  cursorPosition f = (x, y) ->
  updateSettings lib f g w =
  (backButton (Go.float64 x) (Go.float64 y)
     (fst (dropdownClick (Go.float64 x) (Go.float64 y) g)),
   snd (dropdownClick (Go.float64 x) (Go.float64 y) g), w).
Proof.
  intros C M P. unfold updateSettings, dropdownClick, ret.
  rewrite C, M, P. cbv zeta.
  destruct (inBox _ _ SettingsPage.ddX _ _ _); [reflexivity|].
  destruct (Game.dropdownOpen g); [|reflexivity].
  destruct (clickOption _ _ _ _). reflexivity.
Qed.

(** The Back button on a game with the remembered mode of [g]. *)
Lemma backButton_target (x y : Z) (g g1 : Game.t) :
  0 <= x < 640 -> 0 <= y < 480 ->
  Game.lastGameState g1 = Game.lastGameState g ->
  backButton (Go.float64 x) (Go.float64 y) g1 =
  if zBox x y 260 326 380 366
  then Game.set_gameState (backTarget g) g1 else g1.
Proof.
  intros Hx Hy L.
  destruct (boxes_onScreen x y Hx Hy) as (_ & _ & _ & _ & B & _).
  cbv zeta in B. unfold backButton, backTarget. rewrite B, L.
  destruct (zBox x y 260 326 380 366); [|reflexivity].
  destruct (negb _); reflexivity.
Qed.

(** X16: a click on the settings page with the dialog closed and the
    dropdown open, at a point of the screen.  On the header of the
    dropdown (220..420 x 190..222) it closes the dropdown and selects
    nothing: the line y = 222 belongs to the header, not to row 0.
    Elsewhere the first row that holds the point is taken: rows 0, 1 and
    2 select themselves, close the dropdown and call [SetWindowSize] with
    1280 x 960, 1600 x 1200 and 2048 x 1536; row 3 opens the custom-size
    dialog with an empty text and closes the dropdown; a border line
    between two rows belongs to the upper one; a click on no row leaves
    the dropdown and the selection.  After that the Back button is
    tested: a point in 260..380 x 326..366 also sets the mode to the
    remembered one, or "menu".  The world is unchanged. *)
Theorem dropdown_rows
    (lib : Strings) (f : Frame) (g : Game.t) (w : World) (x y : Z) :
  Game.gameState g = "settings"%string -> Game.customInput g = false ->
  Game.dropdownOpen g = true ->
  mouseLeftJustPressed (sim f) = true -> cursorPosition f = (x, y) ->
  0 <= x < 640 -> 0 <= y < 480 ->
  let g0 := Game.set_keys (pressed (sim f)) g in
  let back := fun g1 =>
    if zBox x y 260 326 380 366
    then Game.set_gameState (backTarget g) g1 else g1 in
  Update lib f g w =
  (if zBox x y 220 190 420 222
   then (back (set_dropdownOpen false g0), [])
   else if zBox x y 220 222 420 254
   then (back (set_dropdownOpen false (set_selectedScreen 0 g0)),
         [(1280, 960)])
   else if zBox x y 220 254 420 286
   then (back (set_dropdownOpen false (set_selectedScreen 1 g0)),
         [(1600, 1200)])
   else if zBox x y 220 286 420 318
   then (back (set_dropdownOpen false (set_selectedScreen 2 g0)),
         [(2048, 1536)])
   else if zBox x y 220 318 420 350
   then (back (set_dropdownOpen false
                 (set_customInputStr ""%string (set_customInput true g0))),
         [])
   else (back g0, []),
   w).
Proof.
  intros S C D M P Hx Hy. cbv zeta.
  rewrite Update_settings by exact S.
  rewrite (updateSettings_click lib f _ w x y) by assumption.
  destruct (boxes_onScreen x y Hx Hy) as (_ & _ & _ & _ & _ & H & R).
  cbv zeta in H, R.
  unfold dropdownClick. rewrite H.
  cbn [Game.dropdownOpen Game.set_keys]. rewrite D.
  change (indexed screenSizes)
    with [(0, ("640 x 480"%string, 640, 480));
          (1, ("800 x 600"%string, 800, 600));
          (2, ("1024 x 768"%string, 1024, 768));
          (3, ("Custom..."%string, 0, 0))].
  rewrite !clickOption_cons.
  rewrite (R 0), (R 1), (R 2), (R 3) by lia.
  change (222 + 32 * 0) with 222. change (254 + 32 * 0) with 254.
  change (222 + 32 * 1) with 254. change (254 + 32 * 1) with 286.
  change (222 + 32 * 2) with 286. change (254 + 32 * 2) with 318.
  change (222 + 32 * 3) with 318. change (254 + 32 * 3) with 350.
  destruct (zBox x y 220 190 420 222);
    [|destruct (zBox x y 220 222 420 254);
      [|destruct (zBox x y 220 254 420 286);
        [|destruct (zBox x y 220 286 420 318);
          [|destruct (zBox x y 220 318 420 350)]]]];
    cbn [Z.eqb Pos.eqb fst snd negb];
    rewrite (backButton_target x y g) by (assumption || reflexivity);
    reflexivity.
Qed.

(** The line y = 254 belongs to row 0, the line y = 222 to the header. *)
Lemma dropdown_rows_witness :
  let g := set_dropdownOpen true (Game.set_gameState "settings" initialGame) in
  Update sampleStrings (click 300 254) g sampleWorld =
    (set_dropdownOpen false (set_selectedScreen 0 g), [(1280, 960)],
     sampleWorld) /\
  Update sampleStrings (click 300 222) g sampleWorld =
    (set_dropdownOpen false g, [], sampleWorld).
Proof.
  intros g.
  assert (Hx : 0 <= 300 < 640) by lia.
  assert (Hy : 0 <= 254 < 480) by lia.
  assert (Hy' : 0 <= 222 < 480) by lia.
  split.
  - apply (dropdown_rows sampleStrings (click 300 254) g sampleWorld
             300 254 eq_refl eq_refl eq_refl eq_refl eq_refl Hx Hy).
  - apply (dropdown_rows sampleStrings (click 300 222) g sampleWorld
             300 222 eq_refl eq_refl eq_refl eq_refl eq_refl Hx Hy').
Defined.

Lemma dropdownClick_fields (xf yf : float) (g : Game.t) :
  let g' := fst (dropdownClick xf yf g) in
  Game.gameState g' = Game.gameState g /\
  Game.lastGameState g' = Game.lastGameState g.
Proof.
  unfold dropdownClick.
  destruct (inBox _ _ _ _ _ _); [split; reflexivity|].
  destruct (Game.dropdownOpen g); [|split; reflexivity].
  destruct (clickOption_cases xf yf (indexed screenSizes) g)
    as [E|[(i & lab & W & H & _ & _ & E)|E]]; rewrite E; split; reflexivity.
Qed.

(** X17: on the settings page without the dialog, a click at a point of
    the screen leaves the mode "settings" exactly when the point is in the
    Back button, and then for the remembered mode, or "menu" when none is
    remembered; the remembered mode and the world are unchanged.  In a
    state [Update] can reach the target is "menu" or "dead", never a game
    in play. *)
Theorem settings_back_button
    (lib : Strings) (f : Frame) (g : Game.t) (w : World) (x y : Z) :
  Game.gameState g = "settings"%string -> Game.customInput g = false ->
  mouseLeftJustPressed (sim f) = true -> cursorPosition f = (x, y) ->
  0 <= x < 640 -> 0 <= y < 480 ->
  let r := Update lib f g w in
  let g' := fst (fst r) in
  snd r = w /\
  Game.lastGameState g' = Game.lastGameState g /\
  Game.gameState g' =
    (if zBox x y 260 326 380 366 then backTarget g
     else "settings"%string) /\
  (modeOk g -> backTarget g = "menu"%string \/ backTarget g = "dead"%string).
Proof.
  intros S C M P Hx Hy. cbv zeta.
  rewrite Update_settings by exact S. cbn [fst snd].
  rewrite (updateSettings_click lib f _ w x y) by assumption. cbn [fst].
  destruct (dropdownClick_fields (Go.float64 x) (Go.float64 y)
              (Game.set_keys (pressed (sim f)) g)) as [G L].
  cbv zeta in G, L. cbn [Game.gameState Game.lastGameState Game.set_keys]
    in G, L.
  destruct (boxes_onScreen x y Hx Hy) as (_ & _ & _ & _ & B & _).
  cbv zeta in B.
  split; [reflexivity|]. unfold backButton. rewrite B.
  destruct (zBox x y 260 326 380 366).
  - unfold backTarget. rewrite L.
    destruct (negb (String.eqb (Game.lastGameState g) "")) eqn:E;
      cbn [Game.gameState Game.lastGameState Game.set_gameState];
      (split; [exact L|]); (split; [reflexivity|]).
    + intros (_ & [X|[X|X]] & _); rewrite X in *; auto. discriminate.
    + auto.
  - split; [exact L|]. split; [rewrite G; exact S|].
    intros (_ & [X|[X|X]] & _); unfold backTarget; rewrite X; simpl; auto.
Qed.

Lemma settings_back_button_witness :
  let g := set_lastGameState "dead"
             (Game.set_gameState "settings" annPlaying) in
  let r := Update sampleStrings (click 300 340) g sampleWorld in
  Game.gameState (fst (fst r)) = "dead"%string.
Proof.
  intros g r.
  assert (Hx : 0 <= 300 < 640) by lia.
  assert (Hy : 0 <= 340 < 480) by lia.
  destruct (settings_back_button sampleStrings (click 300 340) g sampleWorld
              300 340 eq_refl eq_refl eq_refl eq_refl Hx Hy)
    as (_ & _ & H & _).
  exact H.
Defined.

(** X18: with the dropdown open, a click in 260..380 x 326..350 hits the
    row "Custom..." and the Back button at once: the frame opens the
    custom-size dialog with an empty text, closes the dropdown, asks for
    no window size and goes back to the remembered mode, so (in a state
    [Update] can reach) the settings page is left with the dialog open. *)
Theorem custom_row_under_back_button
    (lib : Strings) (f : Frame) (g : Game.t) (w : World) (x y : Z) :
  Game.gameState g = "settings"%string -> Game.customInput g = false ->
  Game.dropdownOpen g = true ->
  mouseLeftJustPressed (sim f) = true -> cursorPosition f = (x, y) ->
  260 <= x <= 380 -> 326 <= y <= 350 ->
  let r := Update lib f g w in
  let g' := fst (fst r) in
  snd (fst r) = [] /\
  Game.customInput g' = true /\ Game.customInputStr g' = ""%string /\
  Game.dropdownOpen g' = false /\
  Game.gameState g' = backTarget g /\
  (modeOk g -> Game.gameState g' <> "settings"%string).
Proof.
  intros S C D M P Hx Hy. cbv zeta.
  rewrite Update_settings by exact S. cbn [fst snd].
  rewrite (updateSettings_click lib f _ w x y) by assumption. cbn [fst snd].
  assert (Hx' : 0 <= x < 640) by lia.
  assert (Hy' : 0 <= y < 480) by lia.
  destruct (boxes_onScreen x y Hx' Hy') as (_ & _ & _ & _ & B & H & R).
  cbv zeta in B, H, R.
  unfold dropdownClick. rewrite H.
  replace (zBox x y 220 190 420 222) with false by (unfold zBox; lia).
  cbn [Game.dropdownOpen Game.set_keys]. rewrite D.
  change (indexed screenSizes)
    with [(0, ("640 x 480"%string, 640, 480));
          (1, ("800 x 600"%string, 800, 600));
          (2, ("1024 x 768"%string, 1024, 768));
          (3, ("Custom..."%string, 0, 0))].
  rewrite !clickOption_cons.
  rewrite (R 0), (R 1), (R 2), (R 3) by lia.
  replace (zBox x y 220 (222 + 32 * 0) 420 (254 + 32 * 0)) with false
    by (unfold zBox; lia).
  replace (zBox x y 220 (222 + 32 * 1) 420 (254 + 32 * 1)) with false
    by (unfold zBox; lia).
  replace (zBox x y 220 (222 + 32 * 2) 420 (254 + 32 * 2)) with false
    by (unfold zBox; lia).
  replace (zBox x y 220 (222 + 32 * 3) 420 (254 + 32 * 3)) with true
    by (unfold zBox; lia).
  cbn [Z.eqb fst snd]. unfold backButton. rewrite B.
  replace (zBox x y 260 326 380 366) with true by (unfold zBox; lia).
  unfold backTarget. cbn.
  destruct (negb (String.eqb (Game.lastGameState g) "")) eqn:E;
    cbn; repeat (split; [reflexivity|]).
  - intros (_ & [X|[X|X]] & _); rewrite X in *; discriminate.
  - intros _. discriminate.
Qed.

Lemma custom_row_under_back_button_witness :
  let g := set_dropdownOpen true
             (set_lastGameState "menu"
                (Game.set_gameState "settings" initialGame)) in
  let r := Update sampleStrings (click 300 340) g sampleWorld in
  Game.customInput (fst (fst r)) = true /\
  Game.gameState (fst (fst r)) = "menu"%string.
Proof.
  intros g r.
  assert (Hx : 260 <= 300 <= 380) by lia.
  assert (Hy : 326 <= 340 <= 350) by lia.
  destruct (custom_row_under_back_button sampleStrings (click 300 340) g
              sampleWorld 300 340 eq_refl eq_refl eq_refl eq_refl eq_refl
              Hx Hy)
    as (_ & H1 & _ & _ & H2 & _).
  split; [exact H1|exact H2].
Defined.

(** ** The custom-size dialog and the death screen *)

Lemma panic_changes (msg : string) (w : World) : panic msg w <> w.
Proof.
  intros E. apply (f_equal panics) in E. unfold panic in E. simpl in E.
  apply app_same_nil in E. discriminate E.
Qed.

(** X19: a frame of the settings page with the custom-size dialog open,
    with an [Atoi] that returns an [int].  The frame returns, with the
    world as it was, or it panics in [SetWindowSize].  When it returns,
    the mouse was ignored: the game is still on the page and keeps the
    remembered mode and the dropdown; Escape has closed the dialog and
    emptied its text, also when Enter was accepted; a dialog that stays
    open has made no call and changed neither the selection nor the
    custom size; and a call was made on Enter only, selects row 3 with a
    custom size above 100 and below 2^62 on both sides, and was given
    exactly twice that size.  When it panics, Enter was pressed on a size
    above 100 with a side of 2^62 or more: the custom size is set, but no
    call has returned, the selection is as it was and the dialog is still
    open, whatever Escape is. *)
Theorem custom_dialog_is_modal
    (lib : Strings) (f : Frame) (g : Game.t) (w : World) :
  atoiInt lib ->
  Game.gameState g = "settings"%string -> Game.customInput g = true ->
  let r := Update lib f g w in
  let g' := fst (fst r) in
  let w' := snd r in
  (w' = w \/ w' = panic "ebiten: width and height must be positive" w) /\
  (w' = w ->
   Game.gameState g' = "settings"%string /\
   Game.lastGameState g' = Game.lastGameState g /\
   Game.dropdownOpen g' = Game.dropdownOpen g /\
   (escapeJustPressed f = true ->
    Game.customInput g' = false /\ Game.customInputStr g' = ""%string) /\
   (Game.customInput g' = true ->
    snd (fst r) = [] /\
    Game.selectedScreen g' = Game.selectedScreen g /\
    Game.customWidth g' = Game.customWidth g /\
    Game.customHeight g' = Game.customHeight g) /\
   (snd (fst r) <> [] ->
    enterJustPressed f = true /\
    Game.selectedScreen g' = 3 /\
    100 < Game.customWidth g' < 2 ^ 62 /\
    100 < Game.customHeight g' < 2 ^ 62 /\
    snd (fst r) = [(Game.customWidth g' * 2, Game.customHeight g' * 2)])) /\
  (w' <> w ->
   enterJustPressed f = true /\
   snd (fst r) = [] /\
   Game.customInput g' = true /\
   Game.selectedScreen g' = Game.selectedScreen g /\
   100 < Game.customWidth g' /\ 100 < Game.customHeight g' /\
   (2 ^ 62 <= Game.customWidth g' \/ 2 ^ 62 <= Game.customHeight g')).
Proof.
  intros I S C. cbv zeta.
  rewrite Update_settings by exact S.
  unfold updateSettings. cbn [Game.customInput Game.set_keys]. rewrite C.
  destruct (customDialog_cases lib f (Game.set_keys (pressed (sim f)) g) w)
    as (g1 & _ & G1 & D).
  pose proof (G1 _ eq_refl) as G. cbv zeta in D.
  assert (F : Game.customInput g1 = true /\
              Game.selectedScreen g1 = Game.selectedScreen g /\
              Game.customWidth g1 = Game.customWidth g /\
              Game.customHeight g1 = Game.customHeight g /\
              Game.gameState g1 = "settings"%string /\
              Game.lastGameState g1 = Game.lastGameState g /\
              Game.dropdownOpen g1 = Game.dropdownOpen g).
  { rewrite G. cbn. rewrite C, S. repeat split. }
  destruct F as (F1 & F2 & F3 & F4 & F5 & F6 & F7).
  destruct D as [E|[(EN & a & b & Ha & Hb & Pa & Pb & X & E)
                   |(EN & a & b & Ha & Hb & Pab & X & E)]]; rewrite E;
    cbn [fst snd].
  - split; [left; reflexivity|]. split; [|intros N; contradiction].
    intros _. destruct (escapeJustPressed f); cbn;
      rewrite ?F1, ?F2, ?F3, ?F4, ?F5, ?F6, ?F7;
      repeat split; auto; try discriminate; try contradiction.
  - split; [left; reflexivity|]. split; [|intros N; contradiction].
    intros _. destruct (X I) as [Xa Xb].
    assert (La : a < 2 ^ 62).
    { change (2 ^ 62) with 4611686018427387904.
      destruct (Z_lt_le_dec a 4611686018427387904) as [L|L]; [exact L|].
      rewrite Xa in Pa. unfold Go.wrap in Xa.
      change (2 ^ 63) with 9223372036854775808 in Xa.
      change (2 ^ 64) with 18446744073709551616 in Xa.
      pose proof (Z.mod_pos_bound (a * 2 + 9223372036854775808)
                    18446744073709551616 ltac:(lia)) as MB.
      lia. }
    assert (Lb : b < 2 ^ 62).
    { change (2 ^ 62) with 4611686018427387904.
      destruct (Z_lt_le_dec b 4611686018427387904) as [L|L]; [exact L|].
      rewrite Xb in Pb. unfold Go.wrap in Xb.
      change (2 ^ 63) with 9223372036854775808 in Xb.
      change (2 ^ 64) with 18446744073709551616 in Xb.
      pose proof (Z.mod_pos_bound (b * 2 + 9223372036854775808)
                    18446744073709551616 ltac:(lia)) as MB.
      lia. }
    rewrite Xa, Xb.
    destruct (escapeJustPressed f); cbn;
      rewrite ?F5, ?F6, ?F7;
      repeat split; auto; try discriminate; try contradiction.
  - split; [right; reflexivity|].
    split; [intros N; apply panic_changes in N; contradiction|].
    intros _. cbn. rewrite F1, F2.
    split; [exact EN|]. split; [reflexivity|]. split; [reflexivity|].
    split; [reflexivity|]. split; [exact Ha|]. split; [exact Hb|].
    apply X, I.
Qed.

(** Enter on "800,600", and on a width of 2^62. *)
Lemma custom_dialog_is_modal_witness :
  let g s := set_customInputStr s
               (set_customInput true
                  (Game.set_gameState "settings" initialGame)) in
  let f := {| sim := {| pressed := []; mouseLeftJustPressed := true |};
              inputChars := []; backspaceJustPressed := false;
              enterJustPressed := true; escapeJustPressed := false;
              cursorPosition := (300, 340) |} in
  let r := Update sampleStrings f (g "800,600"%string) sampleWorld in
  let r' := Update sampleStrings f (g "4611686018427387904,600"%string)
              sampleWorld in
  (Game.gameState (fst (fst r)) = "settings"%string /\
   Game.selectedScreen (fst (fst r)) = 3 /\
   snd (fst r) = [(1600, 1200)]) /\
  (snd (fst r') = [] /\ Game.selectedScreen (fst (fst r')) = 0 /\
   Game.customInput (fst (fst r')) = true).
Proof.
  intros g f r r'. split.
  - destruct (custom_dialog_is_modal sampleStrings f (g "800,600"%string)
                sampleWorld sampleStrings_int eq_refl eq_refl)
      as (_ & H & _).
    destruct (H eq_refl) as (H1 & _ & _ & _ & _ & H2).
    split; [exact H1|].
    assert (N : snd (fst r) <> []) by discriminate.
    destruct (H2 N) as (_ & H3 & _ & _ & H4).
    split; [exact H3|exact H4].
  - destruct (custom_dialog_is_modal sampleStrings f
                (g "4611686018427387904,600"%string)
                sampleWorld sampleStrings_int eq_refl eq_refl)
      as (_ & _ & H).
    assert (N : snd r' <> sampleWorld).
    { intros E. apply (f_equal panics) in E. discriminate E. }
    destruct (H N) as (_ & H1 & H2 & H3 & _).
    split; [exact H1|]. split; [exact H3|exact H2].
Defined.

(** X20: Enter in the custom-size dialog, on a text that splits at the
    comma into two parts that both parse, with an [Atoi] that returns an
    [int].  When one of the numbers is 100 or less nothing changes but the
    keys, and the dialog stays open with its text.  When both are above
    100 (strictly) they become the custom size; if both are below 2^62,
    [SetWindowSize] is called with exactly twice the size, row 3 is
    selected and the dialog closes with its text emptied; if one is 2^62
    or more, its double is not positive and the call panics, before the
    row is selected and the dialog closed. *)
Theorem custom_size_above_100
    (lib : Strings) (f : Frame) (g : Game.t) (w : World)
    (a b : string) (wv hv : Z) :
  atoiInt lib ->
  Game.gameState g = "settings"%string -> Game.customInput g = true ->
  inputChars f = [] -> backspaceJustPressed f = false ->
  enterJustPressed f = true -> escapeJustPressed f = false ->
  Split lib (Game.customInputStr g) ","%string = [a; b] ->
  Atoi lib (TrimSpace lib a) = (wv, false) ->
  Atoi lib (TrimSpace lib b) = (hv, false) ->
  let g0 := Game.set_keys (pressed (sim f)) g in
  Update lib f g w =
  if (100 <? wv) && (100 <? hv)
  then if (wv <? 2 ^ 62) && (hv <? 2 ^ 62)
       then (set_customInputStr ""%string (set_customInput false
               (set_selectedScreen 3
                  (set_customHeight hv (set_customWidth wv g0)))),
             [(wv * 2, hv * 2)], w)
       else (set_customHeight hv (set_customWidth wv g0), [],
             panic "ebiten: width and height must be positive" w)
  else (g0, [], w).
Proof.
  intros AI S C I B E X SP A1 A2. cbv zeta.
  pose proof (AI (TrimSpace lib a)) as Ra. rewrite A1 in Ra.
  pose proof (AI (TrimSpace lib b)) as Rb. rewrite A2 in Rb.
  cbn [fst] in Ra, Rb.
  rewrite Update_settings by exact S.
  unfold updateSettings. cbn [Game.customInput Game.set_keys]. rewrite C.
  unfold customDialog. rewrite I, B, E, X. cbv zeta.
  cbn [typeCustom fold_left andb].
  unfold acceptCustom, bind.
  cbn [Game.customInputStr set_customInputStr Game.set_keys].
  rewrite SP, A1, A2. cbn [negb andb].
  destruct (Z.ltb_spec 100 wv) as [Hw|Hw]; cbn [andb];
    [|unfold ret; destruct g; reflexivity].
  destruct (Z.ltb_spec 100 hv) as [Hh|Hh];
    [|unfold ret; destruct g; reflexivity].
  destruct (double_int wv Ra Hw) as (W1 & W2 & W3 & W4).
  destruct (double_int hv Rb Hh) as (H1 & H2 & H3 & H4).
  unfold SetWindowSize, ret.
  destruct (Z.ltb_spec wv (2 ^ 62)) as [Lw|Lw]; cbn [andb].
  - replace (Go.wrap (wv * 2) <=? 0) with false
      by (symmetry; apply Z.leb_gt, W3, Lw).
    cbn [orb].
    destruct (Z.ltb_spec hv (2 ^ 62)) as [Lh|Lh].
    + replace (Go.wrap (hv * 2) <=? 0) with false
        by (symmetry; apply Z.leb_gt, H3, Lh).
      rewrite (W1 (W3 Lw)), (H1 (H3 Lh)). reflexivity.
    + replace (Go.wrap (hv * 2) <=? 0) with true
        by (symmetry; apply Z.leb_le; specialize (H4 Lh); lia).
      reflexivity.
  - replace (Go.wrap (wv * 2) <=? 0) with true
      by (symmetry; apply Z.leb_le; specialize (W4 Lw); lia).
    reflexivity.
Qed.

Lemma custom_size_above_100_witness :
  let g s := set_customInputStr s
               (set_customInput true
                  (Game.set_gameState "settings" initialGame)) in
  snd (fst (Update sampleStrings (typing [] true) (g "100,600"%string)
              sampleWorld)) = [] /\
  snd (fst (Update sampleStrings (typing [] true) (g "101,101"%string)
              sampleWorld)) = [(202, 202)] /\
  panics (snd (Update sampleStrings (typing [] true)
                 (g "101,4611686018427387904"%string) sampleWorld)) =
    ["ebiten: width and height must be positive"%string].
Proof.
  intros g. split; [|split].
  - rewrite (custom_size_above_100 sampleStrings (typing [] true)
               (g "100,600"%string) sampleWorld "100" "600" 100 600
               sampleStrings_int
               eq_refl eq_refl eq_refl eq_refl eq_refl eq_refl
               eq_refl eq_refl eq_refl).
    reflexivity.
  - rewrite (custom_size_above_100 sampleStrings (typing [] true)
               (g "101,101"%string) sampleWorld "101" "101" 101 101
               sampleStrings_int
               eq_refl eq_refl eq_refl eq_refl eq_refl eq_refl
               eq_refl eq_refl eq_refl).
    reflexivity.
  - rewrite (custom_size_above_100 sampleStrings (typing [] true)
               (g "101,4611686018427387904"%string) sampleWorld
               "101" "4611686018427387904" 101 4611686018427387904
               sampleStrings_int
               eq_refl eq_refl eq_refl eq_refl eq_refl eq_refl
               eq_refl eq_refl eq_refl).
    reflexivity.
Defined.

Lemma deadButtons_onScreen (x y : Z) (g : Game.t) (w : World) :
  0 <= x < 640 -> 0 <= y < 480 ->
  deadButtons (Go.float64 x) (Go.float64 y) g w =
  (if zBox x y 260 230 380 270
   then Game.set_gameState "menu" (fst (Reset g w))
   else if zBox x y 260 286 380 326
   then Game.set_gameState "playing" (fst (Reset g w))
   else if zBox x y 260 342 380 382
   then Game.set_gameState "settings" (set_lastGameState "dead" g)
   else g, w).
Proof.
  intros Hx Hy.
  destruct (boxes_onScreen x y Hx Hy) as (_ & B1 & B2 & B3 & _).
  cbv zeta in B1, B2, B3.
  unfold deadButtons, restart, bind, ret. rewrite B1, B2, B3.
  destruct (zBox x y 260 230 380 270) eqn:E1;
    destruct (zBox x y 260 286 380 326) eqn:E2;
    destruct (zBox x y 260 342 380 382) eqn:E3;
    try reflexivity; unfold zBox in *; lia.
Qed.

(** X21: the death screen.  Without a click: Escape resets the game and
    goes to the menu, also when Enter is pressed too; Enter alone resets
    it and starts a new game; otherwise nothing changes but the keys.
    With a click at a point of the screen and neither key: the first
    button resets and goes to the menu, the second resets and plays
    again, the third goes to the settings and remembers "dead" without a
    reset, and a click elsewhere changes nothing.  No path asks for a
    window size or touches the world. *)
Theorem dead_page_actions
    (lib : Strings) (f : Frame) (g : Game.t) (w : World) :
  Game.gameState g = "dead"%string ->
  let g0 := Game.set_keys (pressed (sim f)) g in
  let fresh := fst (Reset g0 w) in
  (mouseLeftJustPressed (sim f) = false ->
   Update lib f g w =
   (if escapeJustPressed f then Game.set_gameState "menu" fresh
    else if enterJustPressed f then Game.set_gameState "playing" fresh
    else g0, [], w)) /\
  (forall x y,
     mouseLeftJustPressed (sim f) = true -> cursorPosition f = (x, y) ->
     0 <= x < 640 -> 0 <= y < 480 ->
     enterJustPressed f = false -> escapeJustPressed f = false ->
     Update lib f g w =
     (if zBox x y 260 230 380 270 then Game.set_gameState "menu" fresh
      else if zBox x y 260 286 380 326
      then Game.set_gameState "playing" fresh
      else if zBox x y 260 342 380 382
      then Game.set_gameState "settings" (set_lastGameState "dead" g0)
      else g0, [], w)).
Proof.
  intros D. cbv zeta. split.
  - intros M. rewrite Update_dead by exact D.
    unfold updateDead, restart, bind, ret. rewrite M.
    destruct (enterJustPressed f); destruct (escapeJustPressed f);
      reflexivity.
  - intros x y M P Hx Hy E X. rewrite Update_dead by exact D.
    unfold updateDead, bind, ret. rewrite M, P, E, X.
    rewrite deadButtons_onScreen by assumption. reflexivity.
Qed.

Lemma dead_page_actions_witness :
  let g := Game.set_score 7 (Game.set_gameState "dead" annPlaying) in
  let f := {| sim := noInput; inputChars := []; backspaceJustPressed := false;
              enterJustPressed := true; escapeJustPressed := true;
              cursorPosition := (0, 0) |} in
  let g' := fst (fst (Update sampleStrings f g sampleWorld)) in
  Game.gameState g' = "menu"%string /\ Game.score g' = 0 /\
  Game.username g' = "Ann"%string.
Proof.
  intros g f g'.
  destruct (dead_page_actions sampleStrings f g sampleWorld eq_refl)
    as [H _].
  subst g'. rewrite (H eq_refl). repeat split.
Defined.

Lemma updateSettings_sim (lib : Strings) (f : Frame) (g : Game.t)
    (w : World) :
  let g' := fst (fst (updateSettings lib f g w)) in
  simOf g' = simOf g /\ Game.deathScore g' = Game.deathScore g /\
  Game.keys g' = Game.keys g.
Proof.
  unfold updateSettings.
  destruct (Game.customInput g) eqn:CI.
  - destruct (customDialog_cases lib f g w) as (g1 & _ & G & D).
    cbv zeta in D.
    assert (G1 : simOf g1 = simOf g /\
                 Game.deathScore g1 = Game.deathScore g /\
                 Game.keys g1 = Game.keys g).
    { rewrite (G _ eq_refl). repeat split. }
    destruct G1 as (G1 & G2 & G3).
    destruct D as [E|[(_ & a & b & _ & _ & _ & _ & _ & E)
                     |(_ & a & b & _ & _ & _ & _ & E)]]; rewrite E;
      try destruct (escapeJustPressed f); cbn [fst];
      rewrite <- G1, <- G2, <- G3; repeat split.
  - unfold ret. cbn [fst].
    destruct (mouseLeftJustPressed (sim f)); [|repeat split].
    destruct (cursorPosition f) as [x y]. cbv zeta.
    assert (B : forall g1 calls,
               simOf g1 = simOf g -> Game.deathScore g1 = Game.deathScore g ->
               Game.keys g1 = Game.keys g ->
               let g' := fst (backButton (Go.float64 x) (Go.float64 y) g1,
                              calls : list WindowSize) in
               simOf g' = simOf g /\ Game.deathScore g' = Game.deathScore g /\
               Game.keys g' = Game.keys g).
    { intros g1 calls <- <- <-. cbn [fst]. unfold backButton.
      destruct (inBox _ _ _ _ _ _); [|repeat split].
      destruct (negb _); repeat split. }
    destruct (inBox _ _ SettingsPage.ddX _ _ _); [apply B; reflexivity|].
    destruct (Game.dropdownOpen g); [|apply B; reflexivity].
    destruct (clickOption_cases (Go.float64 x) (Go.float64 y)
                (indexed screenSizes) g)
      as [E|[(i & lab & W & H & _ & _ & E)|E]];
      rewrite E; apply B; reflexivity.
Qed.

Ltac sim_side ER :=
  lazymatch goal with
  | |- context [Game.set_score] =>
      right; rewrite ER; unfold Reset, ret, simOf; cbn; reflexivity
  | |- _ => left; unfold simOf; cbn; reflexivity
  end.

Lemma updateMenu_sim (f : Frame) (g : Game.t) (w : World) :
  let g' := fst (updateMenu f g w) in
  (simOf g' = simOf g \/ simOf g' = simOf (fst (Reset g w))) /\
  Game.keys g' = Game.keys g.
Proof.
  remember (simOf (fst (Reset g w))) as R eqn:ER.
  unfold updateMenu, bind, Reset, ret. cbv zeta.
  set (s1 := typeName (Game.usernameInput g) (inputChars f)).
  cbn [Game.usernameInput set_usernameInput].
  destruct (backspaceJustPressed f && (0 <? len s1));
    cbn [Game.usernameInput set_usernameInput];
    match goal with |- context [enterJustPressed f && (0 <? len ?s)] =>
      destruct (enterJustPressed f && (0 <? len s)) end;
    destruct (mouseLeftJustPressed (sim f));
    try destruct (cursorPosition f) as [x y];
    try destruct (inBox _ _ _ _ _ _);
    cbn [fst]; (split; [|reflexivity]); sim_side ER.
Qed.

Lemma updateDead_sim (f : Frame) (g : Game.t) (w : World) :
  let g' := fst (updateDead f g w) in
  (simOf g' = simOf g \/ simOf g' = simOf (fst (Reset g w))) /\
  Game.keys g' = Game.keys g.
Proof.
  remember (simOf (fst (Reset g w))) as R eqn:ER.
  unfold updateDead, deadButtons, restart, bind, Reset, ret. cbv zeta.
  destruct (mouseLeftJustPressed (sim f));
    try destruct (cursorPosition f) as [x y];
    try destruct (inBox _ _ _ DeadPage.menuBtnY _ _);
    try destruct (inBox _ _ _ DeadPage.playAgainBtnY _ _);
    try destruct (inBox _ _ _ DeadPage.settingsBtnY _ _);
    destruct (enterJustPressed f); destruct (escapeJustPressed f);
    cbn [fst]; (split; [|reflexivity]); sim_side ER.
Qed.

(** X22: a frame of the settings page, the menu or the death screen does
    not run the simulation: the keys are the pressed ones, the death score
    stays, and the viewport, the player, the three entity lists, the spawn
    counter and interval, the elapsed ticks and the score are as before or
    as [Reset] leaves them; the settings page never resets them.  The
    world is unchanged, but for the panic of [SetWindowSize] that Enter in
    the custom-size dialog of the settings page can raise. *)
Theorem pages_freeze_simulation
    (lib : Strings) (f : Frame) (g : Game.t) (w : World) :
  Game.gameState g = "settings"%string \/
  Game.gameState g = "menu"%string \/ Game.gameState g = "dead"%string ->
  let r := Update lib f g w in
  let g' := fst (fst r) in
  (snd r = w \/
   Game.gameState g = "settings"%string /\ Game.customInput g = true /\
   snd r = panic "ebiten: width and height must be positive" w) /\
  Game.keys g' = pressed (sim f) /\
  Game.deathScore g' = Game.deathScore g /\
  (simOf g' = simOf g \/ simOf g' = simOf (fst (Reset g w))) /\
  (Game.gameState g = "settings"%string -> simOf g' = simOf g).
Proof.
  intros H. cbv zeta.
  apply (Update_branches lib f g w
           (fun r =>
              (snd r = w \/
               Game.gameState g = "settings"%string /\
               Game.customInput g = true /\
               snd r = panic "ebiten: width and height must be positive" w)
              /\
              Game.keys (fst (fst r)) = pressed (sim f) /\
              Game.deathScore (fst (fst r)) = Game.deathScore g /\
              (simOf (fst (fst r)) = simOf g \/
               simOf (fst (fst r)) = simOf (fst (Reset g w))) /\
              (Game.gameState g = "settings"%string ->
               simOf (fst (fst r)) = simOf g))).
  - intros S.
    destruct (updateSettings_sim lib f
                (Game.set_keys (pressed (sim f)) g) w)
      as (E1 & E2 & E3).
    cbv zeta in E1, E2, E3. rewrite E1, E2, E3.
    split; [|repeat split; auto].
    destruct (updateSettings_selection lib f
                (Game.set_keys (pressed (sim f)) g) w)
      as [(E & _)
         |[(i & lab & W & H' & _ & _ & _ & E & _)
          |[(a & b & _ & _ & _ & _ & _ & _ & E & _)
           |(a & b & _ & _ & _ & C & E & _)]]];
      cbv zeta in E; rewrite E; auto.
  - intros M. cbn [fst snd].
    destruct (updateMenu_modes f (Game.set_keys (pressed (sim f)) g) w)
      as (W & _).
    destruct (updateMenu_settings_fields f
                (Game.set_keys (pressed (sim f)) g) w)
      as (_ & _ & _ & _ & _ & _ & DS).
    destruct (updateMenu_sim f (Game.set_keys (pressed (sim f)) g) w)
      as (E1 & E3).
    cbv zeta in *. rewrite W, E3, DS.
    split; [left; reflexivity|]. split; [reflexivity|].
    split; [reflexivity|].
    split; [exact E1|]. rewrite M. discriminate.
  - intros D. cbn [fst snd].
    destruct (updateDead_modes f (Game.set_keys (pressed (sim f)) g) w)
      as (W & _ & _ & DS & _).
    destruct (updateDead_sim f (Game.set_keys (pressed (sim f)) g) w)
      as (E1 & E3).
    cbv zeta in *. rewrite W, E3, DS.
    split; [left; reflexivity|]. split; [reflexivity|].
    split; [reflexivity|].
    split; [exact E1|]. rewrite D. discriminate.
  - intros N1 N2 N3. destruct H as [H|[H|H]]; contradiction.
Qed.

Lemma pages_freeze_simulation_witness :
  let b := {| Bullet.X := 10; Bullet.Y := 10;
              Bullet.SpeedY := 8; Bullet.Size := 6 |} in
  let g := Game.set_bullets [b] (Game.set_gameState "dead" annPlaying) in
  let f := {| sim := {| pressed := [KeyW]; mouseLeftJustPressed := true |};
              inputChars := [65]; backspaceJustPressed := true;
              enterJustPressed := false; escapeJustPressed := false;
              cursorPosition := (300, 350) |} in
  let r := Update sampleStrings f g sampleWorld in
  Game.gameState (fst (fst r)) = "settings"%string /\
  Game.bullets (fst (fst r)) = [b] /\ Game.keys (fst (fst r)) = [KeyW].
Proof.
  intros b g f r.
  destruct (pages_freeze_simulation sampleStrings f g sampleWorld)
    as (_ & H1 & _).
  - right. right. reflexivity.
  - split; [reflexivity|]. split; [reflexivity|exact H1].
Defined.

(** ** The best scores *)

Lemma firstn_NoDup {A : Type} (k : nat) (l : list A) :
  NoDup l -> NoDup (firstn k l).
Proof.
  intros H. rewrite <- (firstn_skipn k l) in H.
  apply NoDup_app in H. apply H.
Qed.

(** X23: [getTopScores n], when [range] visits every entry of the table
    once and [sort.Slice] leaves the pairs with descending scores, leaves
    the world alone and returns [min n (size of the table)] rows (none for
    a negative [n]): the rows are entries of the table, each name at most
    once, each score printed by [Sprintf], in an order of descending
    scores, and no entry left out has a score above one of a row.  Which
    of several entries with equal scores comes first, or is left out, is
    not determined. *)
Theorem getTopScores_top (rt : Runtime) (n : Z) (w : World) :
  rangeVisitsAll rt -> sortsByScore rt ->
  let table := entries (scores w) in
  let top := fst (getTopScores rt n w) in
  snd (getTopScores rt n w) = w /\
  length top = Nat.min (Z.to_nat n) (size table) /\
  exists ps,
    top = List.map (fun p => (fst p, Sprintd rt (snd p))) ps /\
    NoDup (List.map fst ps) /\
    (forall name sc, In (name, sc) ps -> table !! name = Some sc) /\
    scoresDescend ps /\
    (forall name sc, table !! name = Some sc ->
                     ~ In name (List.map fst ps) ->
                     forall p, In p ps -> sc <= snd p).
Proof.
  intros HR HS table. cbv zeta. unfold getTopScores. cbn [fst snd].
  fold table.
  destruct (HS (rangeOrder rt table)) as [P S].
  set (sorted := sortSlice rt byScore (rangeOrder rt table)) in *.
  assert (PT : Permutation sorted (map_to_list table))
    by (etransitivity; [exact P|apply HR]).
  split; [reflexivity|]. split.
  - rewrite length_map, length_firstn.
    rewrite (Permutation_length PT), length_map_to_list. reflexivity.
  - exists (firstn (Z.to_nat n) sorted).
    split; [reflexivity|]. split; [|split; [|split]].
    + rewrite <- firstn_map. apply firstn_NoDup.
      assert (PF : Permutation (List.map fst sorted)
                               (List.map fst (map_to_list table)))
        by (apply Permutation_map, PT).
      rewrite PF. apply NoDup_fst_map_to_list.
    + intros name sc I. apply elem_of_map_to_list.
      rewrite <- PT. apply list_elem_of_In.
      rewrite <- (firstn_skipn (Z.to_nat n) sorted).
      apply in_or_app. left. exact I.
    + unfold scoresDescend in *.
      rewrite <- (firstn_skipn (Z.to_nat n) sorted) in S.
      apply StronglySorted_app_1_l in S. exact S.
    + intros name sc L N p I.
      assert (E : (name, sc) ∈ sorted)
        by (rewrite PT; apply elem_of_map_to_list, L).
      rewrite <- (firstn_skipn (Z.to_nat n) sorted) in E.
      apply elem_of_app in E. destruct E as [E|E].
      * exfalso. apply N. apply in_map_iff. exists (name, sc).
        split; [reflexivity|]. apply list_elem_of_In, E.
      * unfold scoresDescend in S.
        rewrite <- (firstn_skipn (Z.to_nat n) sorted) in S.
        apply (StronglySorted_app_1_elem_of _ _ _ p (name, sc) S);
          [apply list_elem_of_In, I|exact E].
Qed.

Lemma sampleRuntime_sorts : sortsByScore sampleRuntime.
Proof.
  intros l. simpl. split.
  - apply merge_sort_Permutation.
  - unfold scoresDescend.
    assert (T : Transitive (fun a b : string * Z => byScore b a = false)).
    { intros a b c. unfold byScore. lia. }
    assert (O : Total (fun a b : string * Z => byScore b a = false)).
    { intros a b. unfold byScore. lia. }
    pose proof (@StronglySorted_merge_sort _
                  (fun a b : string * Z => byScore b a = false)
                  (fun a b => bool_eq_dec (byScore b a) false) T O l) as S.
    induction S as [|a l' S IH F]; constructor; [exact IH|].
    eapply Forall_impl; [exact F|]. intros b. cbn beta. unfold byScore. lia.
Qed.

Lemma getTopScores_top_witness :
  let w := set_scores
             {| HighScores := Some {["Ann"%string := 5; "Bob"%string := 9;
                                     "Cy"%string := 2]} |} sampleWorld in
  fst (getTopScores sampleRuntime 2 w) =
    [("Bob"%string, "9"%string); ("Ann"%string, "5"%string)] /\
  length (fst (getTopScores sampleRuntime 2 w)) = 2%nat.
Proof.
  intros w. split; [vm_compute; reflexivity|].
  assert (R : rangeVisitsAll sampleRuntime) by (intros m; reflexivity).
  destruct (getTopScores_top sampleRuntime 2 w R sampleRuntime_sorts)
    as (_ & H & _).
  etransitivity; [exact H|]. vm_compute. reflexivity.
Defined.
